(** * Personal Finance Tracker: record store, validation and reports

    A shallow embedding of the expense tracker of [index.js], [db.js] and
    [utils.js].  The SQLite table [expenses] is a list of rows together
    with the AUTOINCREMENT counter kept in [sqlite_sequence]; every
    operation of the server is a computation in a small state and
    exception monad over that database.

    Conventions of the model
    - A JavaScript string is the [string] of the bytes of its UTF-8
      encoding, which is also how the table stores and compares text.
      [trim] removes the white space of ECMAScript, of one, two or three
      bytes; [toLowerCase] acts on the letters A to Z, which is all it
      does to a text that passes as a category.
    - A finite JavaScript number is the rational ([Q]) it stands for;
      [NaN] and the two infinities are separate constructors.  Sums,
      products and quotients are those of IEEE 754 doubles: the exact
      result rounded to the nearest double, ties to even.  The model
      has no overflow: a result of [2^1024] or more stands for a run in
      which JavaScript computes [Infinity].
    - SQLite's [SUM] adds the values of a group one after the other in
      the order of the scan, and GROUP BY yields the groups in ascending
      order of their key.
    - Arguments arrive from a JSON request, so a value of type [jsval]
      never carries a function.
    - Row ids are unbounded integers. *)

From Stdlib Require Import ZArith QArith Qround Qabs Qpower Lqa String Ascii List Lia Bool.
From Stdlib Require Import DecimalString Permutation Sorted.
Import ListNotations.
Open Scope Z_scope.
Set Warnings "-register-all".

Infix "+++" := String.append (at level 60, right associativity).

(* ================================================================== *)
(** * JavaScript values *)
(* ================================================================== *)

Module JS.

(** [x < y] on rationals, as a boolean. *)
Definition Qlt_bool (x y : Q) : bool := negb (Qle_bool y x).

Inductive jsnum : Type :=
| NaN
| Inf (negative : bool)
| Fin (q : Q).

Inductive jsval : Type :=
| JUndefined
| JNull
| JBool (b : bool)
| JNum (n : jsnum)
| JStr (s : string)
| JArr (items : list jsval)
| JObj (fields : list (string * jsval)).

(** Thrown values: [new Error(msg)] and the engine's [TypeError]. *)
Inductive exn : Type :=
| Error (msg : string)
| TypeError (msg : string).

Definition message (e : exn) : string :=
  match e with Error m => m | TypeError m => m end.

(** [ToBoolean]: what [if (v)] and [!v] test. *)
Definition truthy (v : jsval) : bool :=
  match v with
  | JUndefined | JNull => false
  | JBool b => b
  | JNum NaN => false
  | JNum (Inf _) => true
  | JNum (Fin q) => negb (Qeq_bool q 0)
  | JStr s => negb (String.eqb s "")
  | JArr _ | JObj _ => true
  end.

(** A default parameter [p = null] replaces only [undefined]. *)
Definition default_null (v : jsval) : jsval :=
  match v with JUndefined => JNull | _ => v end.

Definition is_null (v : jsval) : bool :=
  match v with JNull => true | _ => false end.

Definition is_string (v : jsval) : bool :=
  match v with JStr _ => true | _ => false end.

(** ** Strings *)

Definition is_upper (c : ascii) : bool :=
  (("A" <=? c)%char && (c <=? "Z")%char)%bool.

Definition lower_char (c : ascii) : ascii :=
  if is_upper c then ascii_of_N (N_of_ascii c + 32) else c.

Fixpoint toLowerCase (s : string) : string :=
  match s with
  | EmptyString => EmptyString
  | String c s' => String (lower_char c) (toLowerCase s')
  end.

(** White space of [String.prototype.trim], which is the WhiteSpace and
    the LineTerminator of ECMAScript, in UTF-8.  One byte: TAB, LF, VT,
    FF, CR and SPACE. *)
Definition is_space1 (c : ascii) : bool :=
  let n := N_of_ascii c in
  ((n =? 32) || ((9 <=? n) && (n <=? 13)))%N%bool.

(** Two bytes: U+00A0, the no-break space. *)
Definition is_space2 (c1 c2 : ascii) : bool :=
  ((N_of_ascii c1 =? 194) && (N_of_ascii c2 =? 160))%N%bool.

(** Three bytes: U+1680; U+2000 to U+200A, U+2028, U+2029 and U+202F;
    U+205F; U+3000; U+FEFF. *)
Definition is_space3 (c1 c2 c3 : ascii) : bool :=
  let a := N_of_ascii c1 in
  let b := N_of_ascii c2 in
  let c := N_of_ascii c3 in
  (((a =? 225) && (b =? 154) && (c =? 128))
   || ((a =? 226) && (b =? 128)
       && (((128 <=? c) && (c <=? 138)) || (c =? 168) || (c =? 169) || (c =? 175)))
   || ((a =? 226) && (b =? 129) && (c =? 159))
   || ((a =? 227) && (b =? 128) && (c =? 128))
   || ((a =? 239) && (b =? 187) && (c =? 191)))%N%bool.

Fixpoint trimStart (s : string) : string :=
  match s with
  | EmptyString => EmptyString
  | String c1 s1 =>
      if is_space1 c1 then trimStart s1
      else
        match s1 with
        | EmptyString => s
        | String c2 s2 =>
            if is_space2 c1 c2 then trimStart s2
            else
              match s2 with
              | EmptyString => s
              | String c3 s3 =>
                  if is_space3 c1 c2 c3 then trimStart s3 else s
              end
        end
  end.

(** [s] is white space from its first character to its last. *)
Definition blankb (s : string) : bool :=
  match trimStart s with EmptyString => true | _ => false end.

(** The string up to the point from which only white space follows. *)
Fixpoint trimEnd (s : string) : string :=
  match s with
  | EmptyString => EmptyString
  | String c s' => if blankb s then EmptyString else String c (trimEnd s')
  end.

Definition trim (s : string) : string := trimEnd (trimStart s).

(** [String(n)] for an integer [n]. *)
Definition string_of_Z (n : Z) : string :=
  NilZero.string_of_int (Z.to_int n).

Fixpoint repeat_char (c : ascii) (n : nat) : string :=
  match n with
  | O => EmptyString
  | S n' => String c (repeat_char c n')
  end.

(** [s.padStart(width, c)] for a one-character filler. *)
Definition padStart (width : nat) (c : ascii) (s : string) : string :=
  repeat_char c (width - String.length s) +++ s.

(** [arr.join(sep)] on an array of strings. *)
Fixpoint join (sep : string) (l : list string) : string :=
  match l with
  | [] => EmptyString
  | [x] => x
  | x :: rest => x +++ sep +++ join sep rest
  end.

(** [s.split(c)[0]]: the part of [s] before the first [c]. *)
Fixpoint split_first (c : ascii) (s : string) : string :=
  match s with
  | EmptyString => EmptyString
  | String a s' => if Ascii.eqb a c then EmptyString else String a (split_first c s')
  end.

Definition is_digit (c : ascii) : bool :=
  (("0" <=? c)%char && (c <=? "9")%char)%bool.

Definition digit_val (c : ascii) : Z :=
  Z.of_N (N_of_ascii c) - 48.

End JS.
Import JS.

(* ================================================================== *)
(** * IEEE 754 doubles *)
(* ================================================================== *)

Module Double.

(** [2^e]. *)
Definition pow2 (e : Z) : Q := (2 ^ e)%Q.

(** [floor (log2 x)] for [x > 0]: the difference of the bit lengths of
    numerator and denominator, or one less. *)
Definition ilog2 (x : Q) : Z :=
  let e := Z.log2 (Qnum x) - Z.log2 (Zpos (Qden x)) in
  if Qle_bool (pow2 e) x then e else e - 1.

(** The whole number nearest to [x], the even one on a tie. *)
Definition round_half_even (x : Q) : Z :=
  let f := Qfloor x in
  match (x - inject_Z f ?= 1 # 2)%Q with
  | Lt => f
  | Gt => f + 1
  | Eq => if Z.even f then f else f + 1
  end.

(** The exponent of the unit in the last place of the double nearest to
    [x]: 52 binary places below the leading bit, and not below
    [2^-1074], the spacing of the subnormal numbers. *)
Definition ulp_exp (x : Q) : Z := Z.max (ilog2 (Qabs x) - 52) (-1074).

(** The multiple of that unit nearest to [x]. *)
Definition nearest (x : Q) : Q :=
  if Qeq_bool x 0 then 0%Q
  else inject_Z (round_half_even (x / pow2 (ulp_exp x))) * pow2 (ulp_exp x).

(** The double nearest to [x], as a fraction in lowest terms. *)
Definition round64 (x : Q) : Q := Qred (nearest (Qred x)).

(** [x + y], [x - y], [x * y] and [x / y] on doubles. *)
Definition add (x y : Q) : Q := round64 (x + y).
Definition sub (x y : Q) : Q := round64 (x - y).
Definition mul (x y : Q) : Q := round64 (x * y).
Definition div (x y : Q) : Q := round64 (x / y).

(** [x] is a double. *)
Definition is_double (x : Q) : Prop := (round64 x == x)%Q.

(** [x] is a whole multiple of [2^-1074], as every double is. *)
Definition on_grid (x : Q) : Prop :=
  exists k : Z, (x == inject_Z k * pow2 (-1074))%Q.

(** The unit roundoff, [2^-53]. *)
Definition u : Q := pow2 (-53).

End Double.

(* ================================================================== *)
(** * [String(x)] of a number *)
(* ================================================================== *)

Module JSNumber.

Definition pow10 (e : Z) : Q := (10 ^ e)%Q.

(** The [n] with [10^(n-1) <= x < 10^n], for [x > 0]. *)
Fixpoint exponent_up (fuel : nat) (n : Z) (x : Q) : Z :=
  match fuel with
  | O => n
  | S f => if Qlt_bool x (pow10 n) then n else exponent_up f (n + 1) x
  end.

Fixpoint exponent_down (fuel : nat) (n : Z) (x : Q) : Z :=
  match fuel with
  | O => n
  | S f => if Qle_bool (pow10 (n - 1)) x then n else exponent_down f (n - 1) x
  end.

Definition decimal_exponent (x : Q) : Z :=
  if Qle_bool 1 x then exponent_up 400 1 x else exponent_down 400 0 x.

(** [s * 10^(n-k)] is a decimal of the double [x]: read as a number it
    gives [x] again.  [s] has [k] digits, or is [10^k]. *)
Definition represents (x : Q) (n k s : Z) : bool :=
  (10 ^ (k - 1) <=? s) && (s <=? 10 ^ k)
  && Qeq_bool (Double.round64 (inject_Z s * pow10 (n - k))) x.

(** Of the two whole numbers around [x / 10^(n-k)], one that represents
    [x]; the nearer one if both do, the even one on a tie. *)
Definition closest (x : Q) (n k : Z) : option Z :=
  let y := (x / pow10 (n - k))%Q in
  let lo := Qfloor y in
  let hi := lo + 1 in
  match represents x n k lo, represents x n k hi with
  | true, true =>
      match (y - inject_Z lo ?= inject_Z hi - y)%Q with
      | Lt => Some lo
      | Gt => Some hi
      | Eq => Some (if Z.even lo then lo else hi)
      end
  | true, false => Some lo
  | false, true => Some hi
  | false, false => None
  end.

(** The least number [k] of digits that represents [x], with the digits
    [s] and the exponent [n]: [x] is written [s * 10^(n-k)].  When the
    digits found are [10^k], the decimal is the power of ten above [x],
    written with the digit 1. *)
Fixpoint shortest (fuel : nat) (k : Z) (x : Q) (n : Z) : Z * Z * Z :=
  match fuel with
  | O => (k, Double.round_half_even (x / pow10 (n - k)), n)
  | S f =>
      match closest x n k with
      | Some s => if s =? 10 ^ k then (1, 1, n + 1) else (k, s, n)
      | None => shortest f (k + 1) x n
      end
  end.

Definition zeros (n : Z) : string := repeat_char "0" (Z.to_nat n).

(** [Number::toString(x)] in radix 10 for a positive double. *)
Definition positive_toString (x : Q) : string :=
  let '(k, s, n) := shortest 16 1 x (decimal_exponent x) in
  let ds := string_of_Z s in
  if (k <=? n) && (n <=? 21) then ds +++ zeros (n - k)
  else if (0 <? n) && (n <=? 21)
  then substring 0 (Z.to_nat n) ds +++ "." +++ substring (Z.to_nat n) (Z.to_nat (k - n)) ds
  else if (-6 <? n) && (n <=? 0) then "0." +++ zeros (- n) +++ ds
  else
    (if k =? 1 then ds
     else substring 0 1 ds +++ "." +++ substring 1 (Z.to_nat (k - 1)) ds)
    +++ "e" +++ (if 0 <=? n - 1 then "+" else "-") +++ string_of_Z (Z.abs (n - 1)).

(** [String(x)] for a finite number. *)
Definition toString (x : Q) : string :=
  let x := Qred x in
  if Qeq_bool x 0 then "0"
  else if Qlt_bool x 0 then "-" +++ positive_toString (Qabs x)
  else positive_toString x.

(** [ToIntegerOrInfinity(x)] for a finite number: the fraction is
    dropped. *)
Definition truncate (x : Q) : Z :=
  if Qlt_bool x 0 then - Qfloor (- x) else Qfloor x.

(** [x] is a whole number. *)
Definition is_integer (x : Q) : bool := Qeq_bool (inject_Z (Qfloor x)) x.

End JSNumber.

(* ================================================================== *)
(** * The [Date] built-in, as far as [db.js] and [index.js] use it *)
(* ================================================================== *)

Module JSDate.

Definition is_leap (y : Z) : bool :=
  ((y mod 4 =? 0) && (negb (y mod 100 =? 0) || (y mod 400 =? 0)))%bool.

(** Number of days of month [m] (1 to 12) of year [y]. *)
Definition days_in_month (y m : Z) : Z :=
  if m =? 2 then (if is_leap y then 29 else 28)
  else if (m =? 4) || (m =? 6) || (m =? 9) || (m =? 11) then 30
  else 31.

(** A [Date] object holding midnight UTC of a civil day, or the invalid
    date when [None]. *)
Definition Date : Type := option (Z * Z * Z).

(** [/^\d{4}-\d{2}-\d{2}$/.test(s)]. *)
Definition regex_test (s : string) : bool :=
  match list_ascii_of_string s with
  | [y1; y2; y3; y4; h1; m1; m2; h2; d1; d2] =>
      is_digit y1 && is_digit y2 && is_digit y3 && is_digit y4
      && Ascii.eqb h1 "-"
      && is_digit m1 && is_digit m2
      && Ascii.eqb h2 "-"
      && is_digit d1 && is_digit d2
  | _ => false
  end.

(** [MakeDay]: a day number beyond the end of the month runs over into
    the following month. *)
Definition make_day (y m d : Z) : Z * Z * Z :=
  let dim := days_in_month y m in
  if d <=? dim then (y, m, d)
  else if m =? 12 then (y + 1, 1, d - dim)
  else (y, m + 1, d - dim).

(** [new Date(s)] on a string of the shape [YYYY-MM-DD], as the engine
    under Node parses it: the month must lie in 1..12 and the day in
    1..31, and a day that the month does not have is carried over by
    [MakeDay] instead of being refused. *)
Definition parse (s : string) : Date :=
  match list_ascii_of_string s with
  | [y1; y2; y3; y4; _; m1; m2; _; d1; d2] =>
      let y := 1000 * digit_val y1 + 100 * digit_val y2
               + 10 * digit_val y3 + digit_val y4 in
      let m := 10 * digit_val m1 + digit_val m2 in
      let d := 10 * digit_val d1 + digit_val d2 in
      if (1 <=? m) && (m <=? 12) && (1 <=? d) && (d <=? 31)
      then Some (make_day y m d)
      else None
  | _ => None
  end.

Definition pad (width : nat) (n : Z) : string :=
  padStart width "0" (string_of_Z n).

Definition iso_date (y m d : Z) : string :=
  pad 4 y +++ "-" +++ pad 2 m +++ "-" +++ pad 2 d.

(** [date.toISOString()] of a valid date with a year in 0..9999. *)
Definition toISOString (ymd : Z * Z * Z) : string :=
  let '(y, m, d) := ymd in
  iso_date y m d +++ "T00:00:00.000Z".

(** [new Date(year, month, 0).getDate()] for whole numbers: the last
    day of the month numbered [month] counting from 1. *)
Definition last_day_of_month (year month : Z) : Z :=
  days_in_month year month.

End JSDate.

(* ================================================================== *)
(** * Validation ([db.js]) *)
(* ================================================================== *)

Definition VALID_CATEGORIES : list string :=
  ["food"; "transport"; "entertainment"; "bills"; "shopping";
   "health"; "education"; "travel"; "savings"; "other"]%string.

(** [arr.includes(x)] on an array of strings. *)
Definition includes (l : list string) (x : string) : bool :=
  existsb (String.eqb x) l.

(** [isValidCategory(category)]: the method call [category.toLowerCase()]
    is made on whatever value arrives. *)
Definition isValidCategory (category : jsval) : exn + bool :=
  match category with
  | JStr s => inr (includes VALID_CATEGORIES (toLowerCase s))
  | JUndefined =>
      inl (TypeError "Cannot read properties of undefined (reading 'toLowerCase')")
  | JNull =>
      inl (TypeError "Cannot read properties of null (reading 'toLowerCase')")
  | _ => inl (TypeError "category.toLowerCase is not a function")
  end.

(** [isValidDate] on a string. *)
Definition isValidDateString (dateString : string) : bool :=
  if negb (JSDate.regex_test dateString) then false
  else
    match JSDate.parse dateString with
    | None => false
    | Some ymd =>
        String.eqb dateString (split_first "T" (JSDate.toISOString ymd))
    end.

(** [isValidDate(dateString)].  The last conjunct compares the argument
    with a string by [===], so no value other than a string passes. *)
Definition isValidDate (dateString : jsval) : bool :=
  match dateString with
  | JStr s => isValidDateString s
  | _ => false
  end.

(** [isValidAmount(amount)]:
    [typeof amount === 'number' && amount > 0 && isFinite(amount)]. *)
Definition isValidAmount (amount : jsval) : bool :=
  match amount with
  | JNum (Fin q) => Qlt_bool 0 q
  | _ => false
  end.


(* ================================================================== *)
(** * The [expenses] table *)
(* ================================================================== *)

(** One row of
    [expenses(id, amount, category, description, date, created_at)]. *)
Record expense : Type := mkExpense {
  id : Z;
  amount : Q;
  category : string;
  description : string;
  date : string;
  created_at : string
}.

(** The database: the rows of [expenses] in insertion order and the
    value that [sqlite_sequence] keeps for the table, the largest rowid
    handed out so far. *)
Record Db : Type := mkDb {
  rows : list expense;
  seq : Z
}.

(** The database [new SQL.Database()] after [CREATE TABLE]. *)
Definition empty_db : Db := {| rows := []; seq := 0 |}.

(** ** Computations over the database that may throw *)

Definition M (A : Type) : Type := Db -> Db * (exn + A).

Definition ret {A} (a : A) : M A := fun db => (db, inr a).

Definition throw {A} (e : exn) : M A := fun db => (db, inl e).

Definition bind {A B} (c : M A) (k : A -> M B) : M B :=
  fun db =>
    match c db with
    | (db', inl e) => (db', inl e)
    | (db', inr a) => k a db'
    end.

Notation "x <- c ;; k" := (bind c (fun x => k))
  (at level 61, c at next level, right associativity).
Notation "c ;;; k" := (bind c (fun _ => k))
  (at level 61, right associativity).

(** [if (cond) throw e;] *)
Definition throw_if (cond : bool) (e : exn) : M unit :=
  if cond then throw e else ret tt.

(** The value or the exception of a call that does not touch the
    database. *)
Definition lift {A} (r : exn + A) : M A :=
  match r with inl e => throw e | inr a => ret a end.

Definition get_rows : M (list expense) := fun db => (db, inr (rows db)).

(** ** Sorting for [ORDER BY]

    [leb a b] says that [a] may come before [b]. *)
Section Sort.
Context {A : Type} (leb : A -> A -> bool).

Fixpoint insert_sorted (x : A) (l : list A) : list A :=
  match l with
  | [] => [x]
  | y :: l' => if leb x y then x :: l else y :: insert_sorted x l'
  end.

Definition order_by (l : list A) : list A :=
  fold_right insert_sorted [] l.
End Sort.

(** [LIMIT n]: a negative count means no bound. *)
Definition sql_limit {A} (n : Z) (l : list A) : list A :=
  if n <? 0 then l else firstn (Z.to_nat n) l.

(** ** Result sets and [rowToObject] *)

(** What [rowToObject] returns: [null], one object, or an array. *)
Inductive rows_obj (A : Type) : Type :=
| RNull
| ROne (a : A)
| RMany (l : list A).
Arguments RNull {A}.
Arguments ROne {A} a.
Arguments RMany {A} l.

(** [rowToObject(result)] on the rows of a result set. *)
Definition rowToObject {A} (values : list A) : rows_obj A :=
  match values with
  | [] => RNull
  | [a] => ROne a
  | _ => RMany values
  end.

(** [result[0] ? rowToObject(result[0]) : dflt]: [db.exec] returns no
    result set at all when the statement produced no row. *)
Definition first_result {A} (values : list A) (dflt : rows_obj A) : rows_obj A :=
  match values with
  | [] => dflt
  | _ => rowToObject values
  end.

(** [Array.isArray(x) ? x : (x ? [x] : [])]. *)
Definition as_array {A} (x : rows_obj A) : list A :=
  match x with
  | RMany l => l
  | ROne a => [a]
  | RNull => []
  end.

(** ** Statements *)

Fixpoint max_rowid (l : list expense) : Z :=
  match l with
  | [] => 0
  | r :: l' => Z.max (id r) (max_rowid l')
  end.

(** The key that AUTOINCREMENT gives the next row: one more than the
    largest rowid the table has ever held. *)
Definition next_rowid (db : Db) : Z :=
  Z.max (seq db) (max_rowid (rows db)) + 1.

(** [INSERT INTO expenses (amount, category, description, date)
    VALUES (?, ?, ?, ?)].  [created_at] takes its default, the time
    [now] of the statement.  The statement fails on
    [CHECK(amount > 0)]. *)
Definition sql_insert (now : string) (a : Q) (c d dt : string) : M unit :=
  fun db =>
    if Qlt_bool 0 a then
      let r := mkExpense (next_rowid db) a c d dt now in
      ({| rows := rows db ++ [r]; seq := next_rowid db |}, inr tt)
    else (db, inl (Error "CHECK constraint failed: amount > 0")).

(** [SELECT * FROM expenses ORDER BY id DESC LIMIT 1]. *)
Definition id_desc (a b : expense) : bool := id b <=? id a.

Definition sql_select_last : M (list expense) :=
  l <- get_rows ;;
  ret (sql_limit 1 (order_by id_desc l)).

(** [SELECT * FROM expenses WHERE id = ?]. *)
Definition sql_select_by_id (i : Z) : M (list expense) :=
  l <- get_rows ;;
  ret (filter (fun r => id r =? i) l).

(** The terms that [getExpenses] and [getSpendingByCategory] append to
    [WHERE 1=1], each with its bound parameter. *)
Inductive where_term : Type :=
| DateGe (start : string)
| DateLe (stop : string)
| CategoryEq (c : string).

Definition term_holds (r : expense) (t : where_term) : bool :=
  match t with
  | DateGe s => String.leb s (date r)
  | DateLe e => String.leb (date r) e
  | CategoryEq c => String.eqb (category r) c
  end.

Definition where_holds (q : list where_term) (r : expense) : bool :=
  forallb (term_holds r) q.

(** [ORDER BY date DESC, id DESC]. *)
Definition date_desc_id_desc (a b : expense) : bool :=
  match String.compare (date a) (date b) with
  | Gt => true
  | Lt => false
  | Eq => id b <=? id a
  end.

(** [SELECT * FROM expenses WHERE 1=1 ... ORDER BY date DESC, id DESC
    LIMIT ?]. *)
Definition sql_select_where (q : list where_term) (limit : Z) : M (list expense) :=
  l <- get_rows ;;
  ret (sql_limit limit (order_by date_desc_id_desc (filter (where_holds q) l))).

(** The assignments of an [UPDATE ... SET] and their parameters. *)
Inductive assignment : Type :=
| SetAmount (a : Q)
| SetCategory (c : string)
| SetDescription (d : string)
| SetDate (dt : string).

Definition assign (r : expense) (u : assignment) : expense :=
  match u with
  | SetAmount a => mkExpense (id r) a (category r) (description r) (date r) (created_at r)
  | SetCategory c => mkExpense (id r) (amount r) c (description r) (date r) (created_at r)
  | SetDescription d => mkExpense (id r) (amount r) (category r) d (date r) (created_at r)
  | SetDate dt => mkExpense (id r) (amount r) (category r) (description r) dt (created_at r)
  end.

Definition assign_all (us : list assignment) (r : expense) : expense :=
  fold_left assign us r.

(** [UPDATE expenses SET ... WHERE id = ?].  SQLite evaluates
    [CHECK(amount > 0)] for a row it rewrites when the statement assigns
    [amount]; a failing check aborts the statement and changes
    nothing. *)
Definition check_assignment (u : assignment) : bool :=
  match u with
  | SetAmount a => Qlt_bool 0 a
  | _ => true
  end.

Definition sql_update (us : list assignment) (i : Z) : M unit :=
  fun db =>
    if existsb (fun r => id r =? i) (rows db)
       && negb (forallb check_assignment us)
    then (db, inl (Error "CHECK constraint failed: amount > 0"))
    else
      ({| rows := map (fun r => if id r =? i then assign_all us r else r)
                      (rows db);
          seq := seq db |}, inr tt).

(** [DELETE FROM expenses WHERE id = ?]. *)
Definition sql_delete (i : Z) : M unit :=
  fun db =>
    ({| rows := filter (fun r => negb (id r =? i)) (rows db); seq := seq db |},
     inr tt).

(** [saveDatabase()] writes the database to [finance.db]; the file is
    not part of the model. *)
Definition saveDatabase : M unit := ret tt.

(** ** Aggregates *)

Definition Qsum (l : list Q) : Q := fold_right Qplus 0%Q l.

(** [SUM(amount)] over the rows of a scan, which are not none: the
    doubles added one after the other to a running total that starts
    from 0.  (From version 3.43 on SQLite keeps a correction term beside
    the running total, which can move a total that is not exact to a
    neighbouring double; the running total alone is modelled.) *)
Definition sql_sum (l : list Q) : Q := fold_left Double.add l 0%Q.

(** [AVG(amount)]: the sum divided by the count, in doubles. *)
Definition sql_avg (l : list Q) : Q :=
  Double.div (sql_sum l) (inject_Z (Z.of_nat (length l))).

Definition Qmin (a b : Q) : Q := if Qle_bool a b then a else b.
Definition Qmax (a b : Q) : Q := if Qle_bool a b then b else a.

(** [MIN(amount)] and [MAX(amount)] of a group with first row [a]. *)
Definition Qmin_list (a : Q) (l : list Q) : Q := fold_left Qmin l a.
Definition Qmax_list (a : Q) (l : list Q) : Q := fold_left Qmax l a.

(** The rows gathered by key: the groups in the order in which their
    key first occurs, each with its rows. *)
Section GroupBy.
Context (key : expense -> string).

Fixpoint add_to_group (r : expense) (gs : list (string * list expense))
  : list (string * list expense) :=
  match gs with
  | [] => [(key r, [r])]
  | (k, members) :: gs' =>
      if String.eqb k (key r) then (k, members ++ [r]) :: gs'
      else (k, members) :: add_to_group r gs'
  end.

Definition group_by (l : list expense) : list (string * list expense) :=
  fold_left (fun gs r => add_to_group r gs) l [].

Definition key_asc (g1 g2 : string * list expense) : bool :=
  String.leb (fst g1) (fst g2).

(** [GROUP BY key] as SQLite runs it: the rows are sorted by key, so
    the groups come in ascending order of key, each with its rows in
    the order of the scan. *)
Definition sql_group_by (l : list expense) : list (string * list expense) :=
  order_by key_asc (group_by l).
End GroupBy.

(** [x.toFixed(2)]: first the integer [n] for which [n / 100] is nearest
    to [|x|], the larger one on a tie, then its decimal rendering; from
    [10^21] on, [String(x)]. *)
Definition toFixed_hundredths (x : Q) : Z :=
  Qfloor (Qabs x * 100 + (1 # 2)).

Definition toFixed2 (x : Q) : string :=
  if Qle_bool (inject_Z (10 ^ 21)) (Qabs x) then JSNumber.toString x
  else
    let n := toFixed_hundredths x in
    (if Qlt_bool x 0 then "-" else "")
      +++ string_of_Z (n / 100) +++ "." +++ JSDate.pad 2 (n mod 100).

(** [v || 0] on a column that may be [NULL]. *)
Definition or_zero (v : option Q) : Q :=
  match v with
  | Some q => if Qeq_bool q 0 then 0%Q else q
  | None => 0%Q
  end.

(* ================================================================== *)
(** * The tools ([index.js]) *)
(* ================================================================== *)

(** [category.toLowerCase()] and [description.trim()] on any value. *)
Definition method_toLowerCase (v : jsval) : exn + string :=
  match v with
  | JStr s => inr (toLowerCase s)
  | JUndefined =>
      inl (TypeError "Cannot read properties of undefined (reading 'toLowerCase')")
  | JNull =>
      inl (TypeError "Cannot read properties of null (reading 'toLowerCase')")
  | _ => inl (TypeError "category.toLowerCase is not a function")
  end.

Definition method_trim (v : jsval) : exn + string :=
  match v with
  | JStr s => inr (trim s)
  | JUndefined =>
      inl (TypeError "Cannot read properties of undefined (reading 'trim')")
  | JNull =>
      inl (TypeError "Cannot read properties of null (reading 'trim')")
  | _ => inl (TypeError "description.trim is not a function")
  end.

(** Binding a parameter to a [REAL] or a [TEXT] column.  The tools bind
    a value only after validation has accepted it, so the failing
    branches are never taken. *)
Definition bind_real (v : jsval) : M Q :=
  match v with
  | JNum (Fin q) => ret q
  | _ => throw (Error "Wrong API use : tried to bind a value of an unknown type")
  end.

Definition bind_text (v : jsval) : M string :=
  match v with
  | JStr s => ret s
  | _ => throw (Error "Wrong API use : tried to bind a value of an unknown type")
  end.

Definition invalid_category_message : string :=
  "Invalid category. Must be one of: " +++ join ", " VALID_CATEGORIES.

Definition not_found_message (i : Z) : string :=
  "Expense with ID " +++ string_of_Z i +++ " not found".

Definition no_fields_message : string :=
  "No fields to update. Provide at least one field: amount, category, description, or date".

(** ** Tool 1: [addExpense] *)

Record add_result : Type := mkAddResult {
  add_message : string;
  new_expense : rows_obj expense
}.

Definition addExpense (now : string) (amount category description date : jsval)
  : M add_result :=
  throw_if (negb (isValidAmount amount))
    (Error "Amount must be a positive number") ;;;
  ok <- lift (isValidCategory category) ;;
  throw_if (negb ok) (Error invalid_category_message) ;;;
  throw_if (negb (isValidDate date))
    (Error "Invalid date format. Use YYYY-MM-DD") ;;;
  empty <- (if negb (truthy description) then ret true
            else t <- lift (method_trim description) ;;
                 ret (Nat.eqb (String.length t) 0)) ;;
  throw_if empty (Error "Description cannot be empty") ;;;
  c <- lift (method_toLowerCase category) ;;
  d <- lift (method_trim description) ;;
  a <- bind_real amount ;;
  dt <- bind_text date ;;
  sql_insert now a c d dt ;;;
  saveDatabase ;;;
  result <- sql_select_last ;;
  ret {| add_message := "Expense added successfully";
         new_expense := first_result result RNull |}.

(** ** Tool 2: [getExpenses] *)

Record list_result : Type := mkListResult {
  count : nat;
  expenses : list expense
}.

(** [if (d) { if (!isValidDate(d)) throw ...; query += ...;
    params.push(d) }]. *)
Definition date_filter (mk : string -> where_term) (d : jsval) (err : string)
  : M (list where_term) :=
  if truthy d then
    throw_if (negb (isValidDate d)) (Error err) ;;;
    s <- bind_text d ;;
    ret [mk s]
  else ret [].

Definition category_filter (category : jsval) : M (list where_term) :=
  if truthy category then
    ok <- lift (isValidCategory category) ;;
    throw_if (negb ok) (Error invalid_category_message) ;;;
    c <- lift (method_toLowerCase category) ;;
    ret [CategoryEq c]
  else ret [].

Definition default_limit : Z := 100.

(** [limit] is [None] when the caller leaves it out. *)
Definition getExpenses (startDate endDate category : jsval) (limit : option Z)
  : M list_result :=
  let startDate := default_null startDate in
  let endDate := default_null endDate in
  let category := default_null category in
  let limit := match limit with Some n => n | None => default_limit end in
  q1 <- date_filter DateGe startDate "Invalid start date format. Use YYYY-MM-DD" ;;
  q2 <- date_filter DateLe endDate "Invalid end date format. Use YYYY-MM-DD" ;;
  q3 <- category_filter category ;;
  result <- sql_select_where (q1 ++ q2 ++ q3) limit ;;
  let expenses := first_result result (RMany []) in
  ret {| count := match expenses with
                  | RMany l => length l
                  | ROne _ => 1%nat
                  | RNull => 0%nat
                  end;
         expenses := as_array expenses |}.

(** ** Tool 3: [getSpendingByCategory] *)

Record category_stats : Type := mkCategoryStats {
  cs_category : string;
  transaction_count : Z;
  total_amount : Q;
  average_amount : Q;
  min_amount : Q;
  max_amount : Q
}.

Definition stats_of_group (g : string * list expense) : category_stats :=
  let amounts := map amount (snd g) in
  let n := Z.of_nat (length amounts) in
  {| cs_category := fst g;
     transaction_count := n;
     total_amount := sql_sum amounts;
     average_amount := sql_avg amounts;
     min_amount := Qmin_list (hd 0%Q amounts) amounts;
     max_amount := Qmax_list (hd 0%Q amounts) amounts |}.

(** [ORDER BY total_amount DESC]. *)
Definition total_desc (a b : category_stats) : bool :=
  Qle_bool (total_amount b) (total_amount a).

(** [SELECT category, COUNT( * ), SUM(amount), AVG(amount), MIN(amount),
    MAX(amount) FROM expenses WHERE 1=1 ... GROUP BY category
    ORDER BY total_amount DESC]. *)
Definition sql_category_stats (q : list where_term) : M (list category_stats) :=
  l <- get_rows ;;
  ret (order_by total_desc
         (map stats_of_group
            (sql_group_by category (filter (where_holds q) l)))).

Record category_share : Type := mkCategoryShare {
  stats : category_stats;
  percentage : jsval
}.

Record breakdown_result : Type := mkBreakdownResult {
  total_spending : Q;
  categories : list category_share
}.

Definition getSpendingByCategory (startDate endDate : jsval)
  : M breakdown_result :=
  let startDate := default_null startDate in
  let endDate := default_null endDate in
  q1 <- date_filter DateGe startDate "Invalid start date format. Use YYYY-MM-DD" ;;
  q2 <- date_filter DateLe endDate "Invalid end date format. Use YYYY-MM-DD" ;;
  result <- sql_category_stats (q1 ++ q2) ;;
  let breakdownArray := as_array (first_result result (RMany [])) in
  let totalSpending :=
    fold_left (fun sum cat => Double.add sum (or_zero (Some (total_amount cat))))
      breakdownArray 0%Q in
  let breakdownWithPercentage :=
    map (fun cat =>
           {| stats := cat;
              percentage :=
                if Qlt_bool 0 totalSpending
                then JStr (toFixed2
                             (Double.mul
                                (Double.div (total_amount cat) totalSpending)
                                100))
                else JNum (Fin 0) |})
        breakdownArray in
  ret {| total_spending := totalSpending;
         categories := breakdownWithPercentage |}.

(** ** Tool 4: [getMonthlySummary] *)

Module Monthly.

(** The one row of
    [SELECT COUNT( * ), SUM(amount), AVG(amount) FROM expenses WHERE ...];
    [SUM] and [AVG] are [NULL] over no rows. *)
Record totals_row : Type := mkTotalsRow {
  tr_count : Z;
  tr_sum : option Q;
  tr_avg : option Q
}.

(** A row of [SELECT key, COUNT( * ), SUM(amount) ... GROUP BY key]. *)
Record group_total : Type := mkGroupTotal {
  gt_key : string;
  gt_count : Z;
  gt_total : Q
}.

Record summary : Type := mkSummary {
  total_transactions : Z;
  total_spending : Q;
  average_transaction : Q
}.

Record result : Type := mkResult {
  month : string;
  year : Q;
  period : string;
  summary_of : summary;
  category_breakdown : list group_total;
  daily_spending : list group_total
}.

Definition in_range (startDate endDate : string) (r : expense) : bool :=
  String.leb startDate (date r) && String.leb (date r) endDate.

Definition sql_totals (startDate endDate : string) : M (list totals_row) :=
  l <- get_rows ;;
  let amounts := map amount (filter (in_range startDate endDate) l) in
  let n := Z.of_nat (length amounts) in
  ret [ {| tr_count := n;
           tr_sum := match amounts with [] => None | _ => Some (sql_sum amounts) end;
           tr_avg := match amounts with
                     | [] => None
                     | _ => Some (sql_avg amounts)
                     end |} ].

Definition total_of_group (g : string * list expense) : group_total :=
  {| gt_key := fst g;
     gt_count := Z.of_nat (length (snd g));
     gt_total := sql_sum (map amount (snd g)) |}.

Definition gt_total_desc (a b : group_total) : bool :=
  Qle_bool (gt_total b) (gt_total a).

Definition gt_key_asc (a b : group_total) : bool :=
  String.leb (gt_key a) (gt_key b).

(** [... GROUP BY category ORDER BY total_amount DESC]. *)
Definition sql_category_totals (startDate endDate : string) : M (list group_total) :=
  l <- get_rows ;;
  ret (order_by gt_total_desc
         (map total_of_group
            (sql_group_by category (filter (in_range startDate endDate) l)))).

(** [... GROUP BY date ORDER BY date ASC]. *)
Definition sql_daily_totals (startDate endDate : string) : M (list group_total) :=
  l <- get_rows ;;
  ret (order_by gt_key_asc
         (map total_of_group
            (sql_group_by date (filter (in_range startDate endDate) l)))).

(** [getMonthName(month)] of [utils.js]: [months[month - 1] ||
    'Unknown'].  The array has an element under the key [month - 1]
    only when that is one of the whole numbers 0 to 11. *)
Definition getMonthName (month : Q) : string :=
  let months :=
    ["January"; "February"; "March"; "April"; "May"; "June"; "July";
     "August"; "September"; "October"; "November"; "December"]%string in
  let i := Double.sub month 1 in
  if JSNumber.is_integer i && (0 <=? Qfloor i) && (Qfloor i <=? 11)
  then nth (Z.to_nat (Qfloor i)) months "Unknown"%string
  else "Unknown"%string.

(** [`${year}-${String(month).padStart(2, '0')}-01`]. *)
Definition month_start (year month : Q) : string :=
  JSNumber.toString year +++ "-"
    +++ padStart 2 "0" (JSNumber.toString month) +++ "-01".

(** The same with the last day, [new Date(year, month, 0).getDate()],
    for which [Date] drops the fractions of [year] and [month]. *)
Definition month_end (year month : Q) : string :=
  JSNumber.toString year +++ "-"
    +++ padStart 2 "0" (JSNumber.toString month) +++ "-"
    +++ padStart 2 "0"
          (string_of_Z (JSDate.last_day_of_month (JSNumber.truncate year)
                          (JSNumber.truncate month))).

(** [year] and [month] are numbers, as the tool's schema declares
    them; nothing makes them whole numbers. *)
Definition getMonthlySummary (year month : Q) : M result :=
  throw_if (Qeq_bool year 0 || Qlt_bool year 2000 || Qlt_bool 2100 year)
    (Error "Invalid year. Must be between 2000 and 2100") ;;;
  throw_if (Qeq_bool month 0 || Qlt_bool month 1 || Qlt_bool 12 month)
    (Error "Invalid month. Must be between 1 and 12") ;;;
  let startDate := month_start year month in
  let endDate := month_end year month in
  totalResult <- sql_totals startDate endDate ;;
  let totals :=
    first_result totalResult
      (ROne {| tr_count := 0; tr_sum := Some 0%Q; tr_avg := Some 0%Q |}) in
  categoryResult <- sql_category_totals startDate endDate ;;
  let categoryArray := as_array (first_result categoryResult (RMany [])) in
  dailyResult <- sql_daily_totals startDate endDate ;;
  let dailyArray := as_array (first_result dailyResult (RMany [])) in
  ret {| month := getMonthName month;
         year := year;
         period := startDate +++ " to " +++ endDate;
         summary_of :=
           match totals with
           | ROne t =>
               {| total_transactions := tr_count t;
                  total_spending := or_zero (tr_sum t);
                  average_transaction := or_zero (tr_avg t) |}
           | _ =>
               {| total_transactions := 0;
                  total_spending := 0;
                  average_transaction := 0 |}
           end;
         category_breakdown := categoryArray;
         daily_spending := dailyArray |}.

End Monthly.

(** ** Tool 5: [updateExpense] *)

Record update_result : Type := mkUpdateResult {
  update_message : string;
  updated_expense : rows_obj expense
}.

(** [!existing] on what [rowToObject] returned. *)
Definition is_RNull {A} (x : rows_obj A) : bool :=
  match x with RNull => true | _ => false end.

(** The four blocks [if (field !== null) { ... updates.push(...);
    params.push(...) }]. *)
Definition amount_assignment (amount : jsval) : M (list assignment) :=
  if negb (is_null amount) then
    throw_if (negb (isValidAmount amount))
      (Error "Amount must be a positive number") ;;;
    a <- bind_real amount ;;
    ret [SetAmount a]
  else ret [].

Definition category_assignment (category : jsval) : M (list assignment) :=
  if negb (is_null category) then
    ok <- lift (isValidCategory category) ;;
    throw_if (negb ok) (Error invalid_category_message) ;;;
    c <- lift (method_toLowerCase category) ;;
    ret [SetCategory c]
  else ret [].

Definition description_assignment (description : jsval) : M (list assignment) :=
  if negb (is_null description) then
    t <- lift (method_trim description) ;;
    throw_if (Nat.eqb (String.length t) 0)
      (Error "Description cannot be empty") ;;;
    ret [SetDescription t]
  else ret [].

Definition date_assignment (date : jsval) : M (list assignment) :=
  if negb (is_null date) then
    throw_if (negb (isValidDate date))
      (Error "Invalid date format. Use YYYY-MM-DD") ;;;
    dt <- bind_text date ;;
    ret [SetDate dt]
  else ret [].

Definition updateExpense (i : Z) (amount category description date : jsval)
  : M update_result :=
  let amount := default_null amount in
  let category := default_null category in
  let description := default_null description in
  let date := default_null date in
  existingResult <- sql_select_by_id i ;;
  let existing := first_result existingResult RNull in
  throw_if (is_RNull existing) (Error (not_found_message i)) ;;;
  u1 <- amount_assignment amount ;;
  u2 <- category_assignment category ;;
  u3 <- description_assignment description ;;
  u4 <- date_assignment date ;;
  let updates := u1 ++ u2 ++ u3 ++ u4 in
  throw_if (Nat.eqb (length updates) 0) (Error no_fields_message) ;;;
  sql_update updates i ;;;
  saveDatabase ;;;
  updatedResult <- sql_select_by_id i ;;
  ret {| update_message := "Expense updated successfully";
         updated_expense := first_result updatedResult RNull |}.

(** ** Tool 6: [deleteExpense] *)

Record delete_result : Type := mkDeleteResult {
  delete_message : string;
  deleted_expense : rows_obj expense
}.

Definition deleteExpense (i : Z) : M delete_result :=
  existingResult <- sql_select_by_id i ;;
  let existing := first_result existingResult RNull in
  throw_if (is_RNull existing) (Error (not_found_message i)) ;;;
  sql_delete i ;;;
  saveDatabase ;;;
  ret {| delete_message := "Expense deleted successfully";
         deleted_expense := existing |}.

(** ** The request handler

    A request names a tool and carries its arguments; the handler runs
    the tool inside [try ... catch] and answers either the tool's result
    or [{success: false, error: error.message}].  [export_to_csv], which
    only reads through [getExpenses], is left out. *)

Inductive request : Type :=
| add_expense (amount category description date : jsval)
| get_expenses (startDate endDate category : jsval) (limit : option Z)
| get_spending_by_category (startDate endDate : jsval)
| get_monthly_summary (year month : Q)
| update_expense (i : Z) (amount category description date : jsval)
| delete_expense (i : Z).

Inductive payload : Type :=
| Added (r : add_result)
| Listed (r : list_result)
| Breakdown (r : breakdown_result)
| Summary (r : Monthly.result)
| Updated (r : update_result)
| Deleted (r : delete_result).

Inductive response : Type :=
| Success (p : payload)
| Failure (error : string).

Definition run_tool (now : string) (req : request) : M payload :=
  match req with
  | add_expense a c d dt => r <- addExpense now a c d dt ;; ret (Added r)
  | get_expenses s e c l => r <- getExpenses s e c l ;; ret (Listed r)
  | get_spending_by_category s e =>
      r <- getSpendingByCategory s e ;; ret (Breakdown r)
  | get_monthly_summary y m => r <- Monthly.getMonthlySummary y m ;; ret (Summary r)
  | update_expense i a c d dt => r <- updateExpense i a c d dt ;; ret (Updated r)
  | delete_expense i => r <- deleteExpense i ;; ret (Deleted r)
  end.

(** One request, received at time [now]. *)
Definition handle (now : string) (req : request) (db : Db) : Db * response :=
  match run_tool now req db with
  | (db', inl e) => (db', Failure (message e))
  | (db', inr p) => (db', Success p)
  end.

(** A session: the requests in the order in which the server handles
    them, each with the time at which it arrives. *)
Fixpoint serve (reqs : list (string * request)) (db : Db) : Db * list response :=
  match reqs with
  | [] => (db, [])
  | (now, req) :: rest =>
      let (db1, resp) := handle now req db in
      let (db2, resps) := serve rest db1 in
      (db2, resp :: resps)
  end.


(* ================================================================== *)
(** * Helpers ([utils.js]) and the export tool *)
(* ================================================================== *)

Module Utils.

Definition dquote : ascii := "034"%char.
Definition newline : ascii := "010"%char.

(** The [replace] of [convertToCSV]: every double quote of the text is
    written twice. *)
Fixpoint escape_quotes (s : string) : string :=
  match s with
  | EmptyString => EmptyString
  | String c s' =>
      if Ascii.eqb c dquote
      then String dquote (String dquote (escape_quotes s'))
      else String c (escape_quotes s')
  end.

Definition csv_header : string :=
  "id,amount,category,description,date,created_at" +++ String newline EmptyString.

Section CSV.
(** [String(x)] of a number that need not be an integer, which
    [Array.prototype.join] applies to [expense.amount]. *)
Variable number_to_string : Q -> string.

(** The array of one row, joined by commas. *)
Definition csv_row (e : expense) : string :=
  join ","
    [ string_of_Z (id e);
      number_to_string (amount e);
      category e;
      String dquote (escape_quotes (description e) +++ String dquote EmptyString);
      date e;
      created_at e ].

(** [convertToCSV(expenses)]. *)
Definition convertToCSV (expenses : list expense) : string :=
  match expenses with
  | [] => csv_header
  | _ => csv_header +++ join (String newline EmptyString) (map csv_row expenses)
  end.

Record export_result : Type := mkExportResult {
  export_count : nat;
  csv : string;
  export_message : string
}.

(** Tool 7: [exportToCSV]. *)
Definition exportToCSV (startDate endDate category : jsval) : M export_result :=
  let startDate := default_null startDate in
  let endDate := default_null endDate in
  let category := default_null category in
  result <- getExpenses startDate endDate category (Some 10000) ;;
  let csv := convertToCSV (expenses result) in
  ret {| export_count := count result;
         csv := csv;
         export_message :=
           "Exported " +++ string_of_Z (Z.of_nat (count result))
             +++ " expenses to CSV format" |}.
End CSV.

(** [new Date(year, month, 0).getDate()] for integers [year >= 0] and
    [month >= 0]: a year below 100 counts from 1900, the month index
    [month] is carried into the year, and day 0 is the day before the
    first of that month. *)
Definition day_zero_date (year month : Z) : Z :=
  let y := if (0 <=? year) && (year <=? 99) then 1900 + year else year in
  let ym := y + month / 12 in
  let mn := month mod 12 in
  if mn =? 0 then 31 else JSDate.days_in_month ym mn.

(** [/^\d{4}-\d{2}$/.test(s)]. *)
Definition month_regex_test (s : string) : bool :=
  match list_ascii_of_string s with
  | [y1; y2; y3; y4; h; m1; m2] =>
      is_digit y1 && is_digit y2 && is_digit y3 && is_digit y4
      && Ascii.eqb h "-" && is_digit m1 && is_digit m2
  | _ => false
  end.

(** [parseDateRange(dateStr)] on a string; [None] is [null]. *)
Definition parseDateRange (dateStr : string) : option (string * string) :=
  if String.eqb dateStr "" then None
  else if month_regex_test dateStr then
    match list_ascii_of_string dateStr with
    | [y1; y2; y3; y4; _; m1; m2] =>
        let year := 1000 * digit_val y1 + 100 * digit_val y2
                    + 10 * digit_val y3 + digit_val y4 in
        let month := 10 * digit_val m1 + digit_val m2 in
        let startDate :=
          string_of_Z year +++ "-" +++ padStart 2 "0" (string_of_Z month)
            +++ "-01" in
        let lastDay := day_zero_date year month in
        let endDate :=
          string_of_Z year +++ "-" +++ padStart 2 "0" (string_of_Z month)
            +++ "-" +++ padStart 2 "0" (string_of_Z lastDay) in
        Some (startDate, endDate)
    | _ => None
    end
  else None.

End Utils.

(* ================================================================== *)
(** * Calendar dates as the specification describes them *)
(* ================================================================== *)

Module DateSpec.

Definition digit_char (k : Z) : ascii := ascii_of_N (Z.to_N (48 + k)).

(** The pattern: four digits, a hyphen, two digits, a hyphen, two
    digits, and nothing else. *)
Definition matches_pattern (s : string) : Prop :=
  exists y1 y2 y3 y4 m1 m2 d1 d2 : ascii,
    Forall (fun c => is_digit c = true) [y1; y2; y3; y4; m1; m2; d1; d2] /\
    s = string_of_list_ascii [y1; y2; y3; y4; "-"; m1; m2; "-"; d1; d2]%char.

(** A day that exists in the calendar, in a year of four digits. *)
Definition real_calendar_date (y m d : Z) : Prop :=
  0 <= y <= 9999 /\ 1 <= m <= 12 /\ 1 <= d <= JSDate.days_in_month y m.

(** The canonical text [YYYY-MM-DD] of a date, digit by digit. *)
Definition canonical_form (y m d : Z) : string :=
  string_of_list_ascii
    [digit_char (y / 1000); digit_char ((y / 100) mod 10);
     digit_char ((y / 10) mod 10); digit_char (y mod 10);
     "-"%char;
     digit_char (m / 10); digit_char (m mod 10);
     "-"%char;
     digit_char (d / 10); digit_char (d mod 10)].

Definition dateIsValid (s : string) : Prop :=
  matches_pattern s /\
  exists y m d, real_calendar_date y m d /\ canonical_form y m d = s.

End DateSpec.

(* ================================================================== *)
(** * Store invariant *)
(* ================================================================== *)

Definition ids (db : Db) : list Z := map id (rows db).

(** What SQLite maintains for a table whose key is
    [INTEGER PRIMARY KEY AUTOINCREMENT]: no two rows share a key, and
    [sqlite_sequence] is never below a key in the table. *)
Definition wf (db : Db) : Prop :=
  NoDup (ids db) /\ Forall (fun i => i <= seq db) (ids db).

(** A field of an update request is supplied when the request carries
    a value for it other than [null]. *)
Definition supplied (v : jsval) : bool := negb (is_null (default_null v)).

(** The fields of an update request are acceptable: at least one is
    supplied, and each supplied one passes its validation. *)
Definition valid_update (a c d dt : jsval) : Prop :=
  (supplied a || supplied c || supplied d || supplied dt = true) /\
  (supplied a = true -> isValidAmount a = true) /\
  (supplied c = true -> isValidCategory c = inr true) /\
  (supplied d = true ->
     exists s, d = JStr s /\ trim s <> EmptyString) /\
  (supplied dt = true -> isValidDate dt = true).

(** What an update keeps: the key, the creation time, and every field
    that the request does not supply. *)
Definition frame (a c d dt : jsval) (r r' : expense) : Prop :=
  id r' = id r /\
  created_at r' = created_at r /\
  (supplied a = false -> amount r' = amount r) /\
  (supplied c = false -> category r' = category r) /\
  (supplied d = false -> description r' = description r) /\
  (supplied dt = false -> date r' = date r).

(** What a successful update writes: each supplied field, normalised. *)
Definition written (a c d dt : jsval) (r' : expense) : Prop :=
  (forall q, a = JNum (Fin q) -> amount r' = q) /\
  (forall s, c = JStr s -> category r' = toLowerCase s) /\
  (forall s, d = JStr s -> description r' = trim s) /\
  (forall s, dt = JStr s -> date r' = s).

(** The arguments of an add request are acceptable. *)
Definition valid_add (a c d dt : jsval) : Prop :=
  isValidAmount a = true /\
  isValidCategory c = inr true /\
  (exists s, d = JStr s /\ trim s <> EmptyString) /\
  isValidDate dt = true.

(** The answer to a successful add. *)
Definition added (r : expense) : add_result :=
  {| add_message := "Expense added successfully"; new_expense := ROne r |}.

(** Reading one row by its key, as [updateExpense] and [deleteExpense]
    do: [SELECT * FROM expenses WHERE id = ?] through [rowToObject]. *)
Definition read_by_id (i : Z) : M (rows_obj expense) :=
  result <- sql_select_by_id i ;;
  ret (first_result result RNull).

(** The key that a response reports as newly assigned, if any. *)
Definition added_id (resp : response) : list Z :=
  match resp with
  | Success (Added res) =>
      match new_expense res with
      | ROne r => [id r]
      | _ => []
      end
  | _ => []
  end.

(** The keys assigned during a session, oldest first. *)
Definition assigned_ids (resps : list response) : list Z :=
  flat_map added_id resps.

(** [db'] is a later state of [db]: the invariant survives and the
    counter has not gone back. *)
Definition ext (db db' : Db) : Prop :=
  (wf db -> wf db') /\ seq db <= seq db'.

Definition grows {A} (c : M A) : Prop :=
  forall db, ext db (fst (c db)).

(** A filter argument of a read is acceptable: left out, or a value
    that passes its validation. *)
Definition valid_date_filter (v : jsval) : Prop :=
  v = JUndefined \/ v = JNull \/ isValidDate v = true.

Definition valid_category_filter (v : jsval) : Prop :=
  v = JUndefined \/ v = JNull \/ isValidCategory v = inr true.

(** The filter of the specification: no start date or
    [date >= start], no end date or [date <= end], no category or
    [category] equal to the argument in lower case. *)
Definition matches_filter (startDate endDate cat : jsval) (r : expense) : bool :=
  match startDate with JStr s => String.leb s (date r) | _ => true end
  && match endDate with JStr e => String.leb (date r) e | _ => true end
  && match cat with
     | JStr c => String.eqb (category r) (toLowerCase c)
     | _ => true
     end.

(** [a] is listed before [b]: a later date, or the same date and a
    key that is not smaller. *)
Definition newest_first (a b : expense) : Prop :=
  String.compare (date a) (date b) = Gt \/
  (date a = date b /\ id b <= id a).

(** The row limit in force: the argument, or 100. *)
Definition limit_of (limit : option Z) : Z :=
  match limit with Some n => n | None => 100 end.

(** A filter argument passes: the tool skips it, or it is valid. *)
Definition date_passes (v : jsval) : Prop :=
  truthy (default_null v) = false \/ isValidDate v = true.

(** A small table to run the tools on. *)
Definition sample_db : Db :=
  {| rows := [ mkExpense 1 10 "food" "lunch" "2024-11-03" "2024-11-03 12:00:00";
               mkExpense 2 20 "food" "dinner" "2024-11-03" "2024-11-03 20:00:00";
               mkExpense 3 30 "transport" "bus" "2024-11-04" "2024-11-04 08:00:00" ];
     seq := 3 |}.

(** All of [sample_db], newest first. *)
Definition sample_listing : list_result :=
  {| count := 3;
     expenses :=
       [ mkExpense 3 30 "transport" "bus" "2024-11-04" "2024-11-04 08:00:00";
         mkExpense 2 20 "food" "dinner" "2024-11-03" "2024-11-03 20:00:00";
         mkExpense 1 10 "food" "lunch" "2024-11-03" "2024-11-03 12:00:00" ] |}.

(** A table with the amounts 0.11 and 0.21, that is, the doubles
    nearest to them. *)
Definition cents_db : Db :=
  {| rows := [ mkExpense 1 (Double.round64 (11 # 100)) "food" "gum"
                 "2024-11-03" "2024-11-03 12:00:00";
               mkExpense 2 (Double.round64 (21 # 100)) "bills" "stamp"
                 "2024-11-04" "2024-11-04 08:00:00" ];
     seq := 2 |}.

(** Every stored date is a real calendar date in canonical form, which
    is what [addExpense] and [updateExpense] let in. *)
Definition dates_valid (db : Db) : Prop :=
  forall r, In r (rows db) -> DateSpec.dateIsValid (date r).

(** The text [s] is a day of month [m] of year [y]. *)
Definition date_in_month (y m : Z) (s : string) : Prop :=
  exists d, DateSpec.real_calendar_date y m d /\
            s = DateSpec.canonical_form y m d.

(** What the first and the last day of a month have in common:
    [YYYY-MM-]. *)
Definition month_prefix (y m : Z) : string :=
  string_of_list_ascii
    [DateSpec.digit_char (y / 1000); DateSpec.digit_char ((y / 100) mod 10);
     DateSpec.digit_char ((y / 10) mod 10); DateSpec.digit_char (y mod 10);
     "-"%char;
     DateSpec.digit_char (m / 10); DateSpec.digit_char (m mod 10);
     "-"%char].

(** The first and the last calendar day of a month, in canonical form. *)
Definition first_day (y m : Z) : string := DateSpec.canonical_form y m 1.

Definition last_day (y m : Z) : string :=
  DateSpec.canonical_form y m (JSDate.days_in_month y m).

(** The text [s] lies between the first and the last day of the month,
    in the order in which the table compares text. *)
Definition within_month (y m : Z) (s : string) : Prop :=
  String.leb (first_day y m) s = true /\ String.leb s (last_day y m) = true.

(** No stored date falls within the month: none lies between its first
    and its last day, or the stored dates are real calendar dates and
    none is a day of the month. *)
Definition no_date_in_month (db : Db) (y m : Z) : Prop :=
  (forall r, In r (rows db) -> ~ within_month y m (date r)) \/
  (dates_valid db /\
   forall r, In r (rows db) -> ~ date_in_month y m (date r)).

(** The rows a breakdown is taken over: those inside the period. *)
Definition in_period (startDate endDate : jsval) (r : expense) : bool :=
  matches_filter startDate endDate JUndefined r.

(** The rows of the period that belong to category [k]. *)
Definition in_category (startDate endDate : jsval) (k : string) (r : expense)
  : bool :=
  String.eqb k (category r) && in_period startDate endDate r.


(** The rows of [l] whose key is [k]. *)
Definition members (key : expense -> string) (k : string) (l : list expense)
  : list expense :=
  filter (fun x => String.eqb k (key x)) l.

(** A computation that only reads the database. *)
Definition readonly {A} (c : M A) : Prop :=
  forall db, fst (c db) = db.

(** What the write paths let into a row: a positive amount, one of the
    ten categories, a description that is not empty and carries no
    white space at either end, and a date that [isValidDate] accepts. *)
Definition row_ok (r : expense) : Prop :=
  (0 < amount r)%Q /\
  In (category r) VALID_CATEGORIES /\
  description r <> EmptyString /\
  trim (description r) = description r /\
  isValidDateString (date r) = true.

Definition rows_ok (db : Db) : Prop := Forall row_ok (rows db).

(** An assignment that [updateExpense] has validated. *)
Definition assignment_ok (u : assignment) : Prop :=
  match u with
  | SetAmount a => Qlt_bool 0 a = true
  | SetCategory c => In c VALID_CATEGORIES
  | SetDescription d => d <> EmptyString /\ trim d = d
  | SetDate dt => isValidDateString dt = true
  end.

(** The table after [UPDATE expenses SET us WHERE id = i]. *)
Definition updated_db (us : list assignment) (i : Z) (db : Db) : Db :=
  {| rows := map (fun r => if id r =? i then assign_all us r else r) (rows db);
     seq := seq db |}.

(** What [updateExpense] answers after that statement. *)
Definition update_answer (us : list assignment) (i : Z) (db : Db) : update_result :=
  {| update_message := "Expense updated successfully";
     updated_expense :=
       first_result (filter (fun r => id r =? i) (rows (updated_db us i db)))
         RNull |}.

(** The row with key [i] is in the table. *)
Definition has_id (i : Z) (db : Db) : bool :=
  existsb (fun r => id r =? i) (rows db).

(** The table after [DELETE FROM expenses WHERE id = i]. *)
Definition deleted_db (i : Z) (db : Db) : Db :=
  {| rows := filter (fun r => negb (id r =? i)) (rows db); seq := seq db |}.

(** Reading a CSV field back: two double quotes in a row stand for
    one. *)
Fixpoint unescape_quotes (s : string) : string :=
  match s with
  | EmptyString => EmptyString
  | String c s' =>
      if Ascii.eqb c Utils.dquote then
        match s' with
        | String c2 s'' =>
            if Ascii.eqb c2 Utils.dquote
            then String Utils.dquote (unescape_quotes s'')
            else String c (unescape_quotes s')
        | EmptyString => String c EmptyString
        end
      else String c (unescape_quotes s')
  end.

(** Reading a quoted CSV field whose opening quote has been consumed:
    the text up to the closing quote, with doubled quotes read as one,
    and what follows the closing quote.  [None] when the field is not
    closed. *)
Fixpoint read_field (s : string) : option (string * string) :=
  match s with
  | EmptyString => None
  | String c s' =>
      if Ascii.eqb c Utils.dquote then
        match s' with
        | String c2 s'' =>
            if Ascii.eqb c2 Utils.dquote then
              match read_field s'' with
              | Some (f, rest) => Some (String Utils.dquote f, rest)
              | None => None
              end
            else Some (EmptyString, s')
        | EmptyString => Some (EmptyString, EmptyString)
        end
      else
        match read_field s' with
        | Some (f, rest) => Some (String c f, rest)
        | None => None
        end
  end.

(** A CSV reader at the start of a quoted field. *)
Definition read_quoted (s : string) : option (string * string) :=
  match s with
  | String c s' => if Ascii.eqb c Utils.dquote then read_field s' else None
  | EmptyString => None
  end.

Definition Zsum (l : list Z) : Z := fold_right Z.add 0 l.

(** The rows of the table whose date lies within a month, as the
    summary selects them. *)
Definition month_rows (db : Db) (y m : Z) : list expense :=
  filter (Monthly.in_range (first_day y m) (last_day y m)) (rows db).

(** Daily groups come in the order of their dates. *)
Definition earlier_day_first (g1 g2 : Monthly.group_total) : Prop :=
  String.leb (Monthly.gt_key g1) (Monthly.gt_key g2) = true.

Definition larger_total_first (g1 g2 : Monthly.group_total) : Prop :=
  (Monthly.gt_total g2 <= Monthly.gt_total g1)%Q.

(** The value a field ends up with after a list of assignments: the
    last value assigned to it, or the value it had. *)
Definition last_set {T} (pick : assignment -> option T) (us : list assignment)
           (x : T) : T :=
  fold_left (fun acc u => match pick u with Some v => v | None => acc end) us x.

Definition pick_amount (u : assignment) : option Q :=
  match u with SetAmount a => Some a | _ => None end.
Definition pick_category (u : assignment) : option string :=
  match u with SetCategory c => Some c | _ => None end.
Definition pick_description (u : assignment) : option string :=
  match u with SetDescription d => Some d | _ => None end.
Definition pick_date (u : assignment) : option string :=
  match u with SetDate dt => Some dt | _ => None end.

(** [d1] is not after [d2] in the calendar. *)
Definition not_after (y1 m1 d1 y2 m2 d2 : Z) : Prop :=
  y1 < y2 \/ (y1 = y2 /\ (m1 < m2 \/ (m1 = m2 /\ d1 <= d2))).




(** UTF-8 of a code point. *)
Definition utf8 (n : N) : string :=
  string_of_list_ascii
    (map ascii_of_N
       (if n <? 128 then [n]
        else if n <? 2048 then [192 + n / 64; 128 + n mod 64]
        else if n <? 65536
             then [224 + n / 4096; 128 + (n / 64) mod 64; 128 + n mod 64]
             else [240 + n / 262144; 128 + (n / 4096) mod 64;
                   128 + (n / 64) mod 64; 128 + n mod 64]))%N.

(** The code points that ECMAScript counts as WhiteSpace or as
    LineTerminator: TAB, LF, VT, FF, CR, SPACE, NO-BREAK SPACE, the other
    space separators of Unicode, LINE SEPARATOR, PARAGRAPH SEPARATOR and
    the byte order mark. *)
Definition white_space_code_points : list N :=
  [9; 10; 11; 12; 13; 32; 160; 5760;
   8192; 8193; 8194; 8195; 8196; 8197; 8198; 8199; 8200; 8201; 8202;
   8232; 8233; 8239; 8287; 12288; 65279]%N.

Definition white_space : list string := map utf8 white_space_code_points.

(** A text that consists of white space only. *)
Inductive blank : string -> Prop :=
| blank_nil : blank EmptyString
| blank_cons (w s : string) : In w white_space -> blank s -> blank (w +++ s).

Definition starts_with (p s : string) : Prop := exists t, s = p +++ t.
Definition ends_with (p s : string) : Prop := exists t, s = t +++ p.

(** [t] is [s] trimmed: [s] is [t] between two runs of white space, and
    [t] neither starts nor ends with a white space character. *)
Definition trimmed_form (s t : string) : Prop :=
  (exists pre post, s = pre +++ t +++ post /\ blank pre /\ blank post) /\
  (forall w, In w white_space -> ~ starts_with w t /\ ~ ends_with w t).

(** [t] is [s] in lower case: the letters A to Z are replaced by a to z,
    32 code points further on, and nothing else is changed. *)
Inductive lower_case_of : string -> string -> Prop :=
| lower_nil : lower_case_of EmptyString EmptyString
| lower_keep (c : ascii) (s t : string) :
    is_upper c = false -> lower_case_of s t ->
    lower_case_of (String c s) (String c t)
| lower_letter (c : ascii) (s t : string) :
    is_upper c = true -> lower_case_of s t ->
    lower_case_of (String c s) (String (ascii_of_N (N_of_ascii c + 32)) t).

(** An amount as the table holds it: a positive double. *)
Definition amount_ok (a : Q) : Prop := (0 < a)%Q /\ Double.is_double a.

Definition amounts_ok (db : Db) : Prop :=
  Forall (fun r => amount_ok (amount r)) (rows db).

(** [approx] is [exact] up to [n] roundings: each rounding to a double
    changes a positive number by at most the fraction [2^-53] of
    itself. *)
Definition within (n : nat) (exact approx : Q) : Prop :=
  ((1 - Double.u) ^ Z.of_nat n * exact <= approx
   <= (1 + Double.u) ^ Z.of_nat n * exact)%Q.

(** Reading a decimal with two places, as [toFixed(2)] prints one, back
    into its number of hundredths. *)
Fixpoint read_digits (s : string) (acc : Z) : option Z :=
  match s with
  | EmptyString => Some acc
  | String c s' =>
      if is_digit c then read_digits s' (10 * acc + digit_val c) else None
  end.

Fixpoint split_at_dot (s : string) : option (string * string) :=
  match s with
  | EmptyString => None
  | String c s' =>
      if Ascii.eqb c "." then Some (EmptyString, s')
      else match split_at_dot s' with
           | Some (a, b) => Some (String c a, b)
           | None => None
           end
  end.

Definition read_hundredths (s : string) : option Z :=
  match split_at_dot s with
  | Some (a, b) =>
      if negb (String.eqb a EmptyString) && Nat.eqb (String.length b) 2 then
        match read_digits a 0, read_digits b 0 with
        | Some i, Some f => Some (100 * i + f)
        | _, _ => None
        end
      else None
  | None => None
  end.

(** [sub] occurs inside [s]. *)
Definition contains (s sub : string) : Prop :=
  exists pre post, s = pre +++ sub +++ post.

(* ================================================================== *)
(** * Properties *)
(* ================================================================== *)

(** ** Digits and padded numbers *)

Lemma forallb_range (f : Z -> bool) (n : Z) :
  forallb f (map Z.of_nat (List.seq 0 (Z.to_nat n))) = true ->
  forall z, 0 <= z < n -> f z = true.
Proof.
  intros H z Hz.
  rewrite forallb_forall in H. apply H.
  apply in_map_iff. exists (Z.to_nat z). split; [lia|].
  apply in_seq. lia.
Qed.

Lemma is_digit_range (c : ascii) :
  is_digit c = true <-> 0 <= digit_val c <= 9.
Proof.
  unfold is_digit, digit_val, Ascii.leb, Ascii.compare.
  change (N_of_ascii "0") with 48%N. change (N_of_ascii "9") with 57%N.
  split.
  - intros H. apply andb_true_iff in H as [H1 H2].
    destruct (48 ?= N_of_ascii c)%N eqn:E1; try discriminate;
    destruct (N_of_ascii c ?= 57)%N eqn:E2; try discriminate;
    try apply N.compare_eq_iff in E1; try apply N.compare_eq_iff in E2;
    try (rewrite N.compare_lt_iff in E1); try (rewrite N.compare_lt_iff in E2);
    lia.
  - intros H. apply andb_true_iff. split.
    + destruct (48 ?= N_of_ascii c)%N eqn:E1; trivial.
      rewrite N.compare_gt_iff in E1. lia.
    + destruct (N_of_ascii c ?= 57)%N eqn:E2; trivial.
      rewrite N.compare_gt_iff in E2. lia.
Qed.

Lemma digit_char_val (c : ascii) :
  is_digit c = true -> DateSpec.digit_char (digit_val c) = c.
Proof.
  intros H. apply is_digit_range in H.
  unfold DateSpec.digit_char, digit_val in *.
  replace (Z.to_N (48 + (Z.of_N (N_of_ascii c) - 48))) with (N_of_ascii c) by lia.
  apply ascii_N_embedding.
Qed.

Lemma digit_val_char (k : Z) :
  0 <= k <= 9 -> digit_val (DateSpec.digit_char k) = k.
Proof.
  intros H. unfold DateSpec.digit_char, digit_val.
  rewrite N_ascii_embedding; lia.
Qed.

Lemma is_digit_char (k : Z) :
  0 <= k <= 9 -> is_digit (DateSpec.digit_char k) = true.
Proof.
  intros H. apply is_digit_range. rewrite digit_val_char; lia.
Qed.

Lemma is_digit_not_T (c : ascii) :
  is_digit c = true -> Ascii.eqb c "T" = false.
Proof.
  intros H. apply Ascii.eqb_neq. intros ->. discriminate H.
Qed.

Lemma pad2_digits (n : Z) :
  0 <= n < 100 ->
  JSDate.pad 2 n =
  String (DateSpec.digit_char (n / 10))
    (String (DateSpec.digit_char (n mod 10)) EmptyString).
Proof.
  intros H.
  apply String.eqb_eq.
  apply (forallb_range
           (fun n => String.eqb (JSDate.pad 2 n)
              (String (DateSpec.digit_char (n / 10))
                 (String (DateSpec.digit_char (n mod 10)) EmptyString)))
           100); [vm_compute; reflexivity | lia].
Qed.

Lemma pad4_digits (n : Z) :
  0 <= n < 10000 ->
  JSDate.pad 4 n =
  String (DateSpec.digit_char (n / 1000))
    (String (DateSpec.digit_char ((n / 100) mod 10))
       (String (DateSpec.digit_char ((n / 10) mod 10))
          (String (DateSpec.digit_char (n mod 10)) EmptyString))).
Proof.
  intros H.
  apply String.eqb_eq.
  apply (forallb_range
           (fun n => String.eqb (JSDate.pad 4 n)
              (String (DateSpec.digit_char (n / 1000))
                 (String (DateSpec.digit_char ((n / 100) mod 10))
                    (String (DateSpec.digit_char ((n / 10) mod 10))
                       (String (DateSpec.digit_char (n mod 10)) EmptyString)))))
           10000); [vm_compute; reflexivity | lia].
Qed.

(** The ISO rendering of a date is its canonical form. *)
Lemma iso_date_canonical (y m d : Z) :
  0 <= y < 10000 -> 0 <= m < 100 -> 0 <= d < 100 ->
  JSDate.iso_date y m d = DateSpec.canonical_form y m d.
Proof.
  intros Hy Hm Hd. unfold JSDate.iso_date, DateSpec.canonical_form.
  rewrite (pad4_digits y Hy), (pad2_digits m Hm), (pad2_digits d Hd).
  reflexivity.
Qed.

(** ** [isValidDate] *)

Lemma regex_test_shape (s : string) :
  JSDate.regex_test s = true ->
  exists y1 y2 y3 y4 m1 m2 d1 d2 : ascii,
    Forall (fun c => is_digit c = true) [y1; y2; y3; y4; m1; m2; d1; d2] /\
    s = string_of_list_ascii [y1; y2; y3; y4; "-"; m1; m2; "-"; d1; d2]%char.
Proof.
  unfold JSDate.regex_test. intros H.
  rewrite <- (string_of_list_ascii_of_string s).
  destruct (list_ascii_of_string s)
    as [|y1 [|y2 [|y3 [|y4 [|h1 [|m1 [|m2 [|h2 [|d1 [|d2 [|x l]]]]]]]]]]];
    try discriminate H.
  repeat (apply andb_true_iff in H; destruct H as [H ?]).
  exists y1, y2, y3, y4, m1, m2, d1, d2.
  repeat match goal with
         | E : Ascii.eqb _ _ = true |- _ => apply Ascii.eqb_eq in E; subst
         end.
  split; [|reflexivity].
  repeat constructor; try assumption.
  unfold is_digit. apply andb_true_iff. split; assumption.
Qed.

Lemma days_in_month_bounds (y m : Z) : 28 <= JSDate.days_in_month y m <= 31.
Proof.
  unfold JSDate.days_in_month.
  destruct (m =? 2); [destruct (JSDate.is_leap y); lia|].
  destruct ((m =? 4) || (m =? 6) || (m =? 9) || (m =? 11)); lia.
Qed.

Lemma days_in_december (y : Z) : JSDate.days_in_month y 12 = 31.
Proof. reflexivity. Qed.

(** On a string of the right shape the validator decides whether the
    digits name a month of the year and a day of that month. *)
Lemma isValidDateString_digits (y1 y2 y3 y4 m1 m2 d1 d2 : ascii) :
  Forall (fun c => is_digit c = true) [y1; y2; y3; y4; m1; m2; d1; d2] ->
  let y := 1000 * digit_val y1 + 100 * digit_val y2
           + 10 * digit_val y3 + digit_val y4 in
  let m := 10 * digit_val m1 + digit_val m2 in
  let d := 10 * digit_val d1 + digit_val d2 in
  string_of_list_ascii [y1; y2; y3; y4; "-"; m1; m2; "-"; d1; d2]%char
    = DateSpec.canonical_form y m d /\
  isValidDateString
    (string_of_list_ascii [y1; y2; y3; y4; "-"; m1; m2; "-"; d1; d2]%char)
  = (1 <=? m) && (m <=? 12) && (1 <=? d) && (d <=? JSDate.days_in_month y m).
Proof.
  intros HF y m d.
  repeat match goal with
         | H : Forall _ (_ :: _) |- _ => inversion H; subst; clear H
         end.
  repeat match goal with
         | H : is_digit ?c = true |- _ =>
             pose proof (digit_char_val c H);
             apply is_digit_range in H
         end.
  assert (Hy : 0 <= y < 10000) by (subst y; Z.div_mod_to_equations; lia).
  assert (Hm : 0 <= m < 100) by (subst m; Z.div_mod_to_equations; lia).
  assert (Hd : 0 <= d < 100) by (subst d; Z.div_mod_to_equations; lia).
  assert (Hcanon :
    string_of_list_ascii [y1; y2; y3; y4; "-"; m1; m2; "-"; d1; d2]%char
    = DateSpec.canonical_form y m d).
  { unfold DateSpec.canonical_form.
    replace (y / 1000) with (digit_val y1) by (subst y; Z.div_mod_to_equations; lia).
    replace ((y / 100) mod 10) with (digit_val y2) by (subst y; Z.div_mod_to_equations; lia).
    replace ((y / 10) mod 10) with (digit_val y3) by (subst y; Z.div_mod_to_equations; lia).
    replace (y mod 10) with (digit_val y4) by (subst y; Z.div_mod_to_equations; lia).
    replace (m / 10) with (digit_val m1) by (subst m; Z.div_mod_to_equations; lia).
    replace (m mod 10) with (digit_val m2) by (subst m; Z.div_mod_to_equations; lia).
    replace (d / 10) with (digit_val d1) by (subst d; Z.div_mod_to_equations; lia).
    replace (d mod 10) with (digit_val d2) by (subst d; Z.div_mod_to_equations; lia).
    congruence. }
  split; [exact Hcanon|].
  pose proof (days_in_month_bounds y m) as Hdim.
  unfold isValidDateString.
  assert (Hre : JSDate.regex_test
            (string_of_list_ascii [y1; y2; y3; y4; "-"; m1; m2; "-"; d1; d2]%char)
          = true).
  { unfold JSDate.regex_test. rewrite list_ascii_of_string_of_list_ascii.
    repeat match goal with
           | H : _ <= digit_val ?c <= _ |- _ =>
               apply is_digit_range in H; rewrite H
           end.
    reflexivity. }
  rewrite Hre. cbn [negb].
  unfold JSDate.parse. rewrite list_ascii_of_string_of_list_ascii.
  fold y m d.
  destruct ((1 <=? m) && (m <=? 12) && (1 <=? d) && (d <=? 31)) eqn:Hrange.
  2:{ symmetry. apply andb_false_iff.
      apply andb_false_iff in Hrange as [Hrange|Hrange]; [left; exact Hrange|].
      right. lia. }
  repeat (apply andb_true_iff in Hrange; destruct Hrange as [Hrange ?]).
  replace ((1 <=? m) && (m <=? 12) && (1 <=? d)) with true
    by (symmetry; repeat (apply andb_true_iff; split); assumption).
  cbn [andb].
  unfold JSDate.make_day.
  assert (Hsplit : forall y' m' d',
             0 <= y' < 10000 -> 0 <= m' < 100 -> 0 <= d' < 100 ->
             split_first "T" (JSDate.toISOString (y', m', d'))
             = DateSpec.canonical_form y' m' d').
  { intros y' m' d' Hy' Hm' Hd'. unfold JSDate.toISOString.
    rewrite iso_date_canonical by assumption.
    unfold DateSpec.canonical_form. cbn [string_of_list_ascii String.append split_first].
    change (Ascii.eqb "-" "T") with false.
    change (Ascii.eqb "T" "T") with true. cbv iota.
    rewrite !is_digit_not_T
      by (apply is_digit_char; Z.div_mod_to_equations; lia).
    reflexivity. }
  destruct (d <=? JSDate.days_in_month y m) eqn:Hfit.
  - rewrite Hsplit by lia. rewrite Hcanon. apply String.eqb_refl.
  - assert (Hm12 : (m =? 12) = false).
    { apply Z.eqb_neq. intros E. rewrite E in Hfit.
      rewrite days_in_december in Hfit. lia. }
    rewrite Hm12, Hsplit by lia.
    apply String.eqb_neq. rewrite Hcanon.
    unfold DateSpec.canonical_form. cbn [string_of_list_ascii].
    intros E. injection E as E. intros.
    repeat match goal with
           | H : DateSpec.digit_char _ = DateSpec.digit_char _ |- _ =>
               apply (f_equal digit_val) in H;
               rewrite !digit_val_char in H by (Z.div_mod_to_equations; lia)
           end.
    Z.div_mod_to_equations; lia.
Qed.

Lemma canonical_form_inj (y m d y' m' d' : Z) :
  0 <= y < 10000 -> 0 <= m < 100 -> 0 <= d < 100 ->
  0 <= y' < 10000 -> 0 <= m' < 100 -> 0 <= d' < 100 ->
  DateSpec.canonical_form y m d = DateSpec.canonical_form y' m' d' ->
  y = y' /\ m = m' /\ d = d'.
Proof.
  intros Hy Hm Hd Hy' Hm' Hd' E.
  unfold DateSpec.canonical_form in E. cbn [string_of_list_ascii] in E.
  injection E as E. intros.
  repeat match goal with
         | H : DateSpec.digit_char _ = DateSpec.digit_char _ |- _ =>
             apply (f_equal digit_val) in H;
             rewrite !digit_val_char in H by (Z.div_mod_to_equations; lia)
         end.
  Z.div_mod_to_equations; lia.
Qed.

Lemma isValidDateString_sound (s : string) :
  isValidDateString s = true -> DateSpec.dateIsValid s.
Proof.
  intros H.
  assert (Hre : JSDate.regex_test s = true).
  { unfold isValidDateString in H.
    destruct (JSDate.regex_test s); [reflexivity | discriminate H]. }
  destruct (regex_test_shape s Hre)
    as (y1 & y2 & y3 & y4 & m1 & m2 & d1 & d2 & HF & ->).
  destruct (isValidDateString_digits _ _ _ _ _ _ _ _ HF) as [Hcanon Hbool].
  cbv zeta in Hcanon, Hbool. rewrite H in Hbool. symmetry in Hbool.
  repeat (apply andb_true_iff in Hbool; destruct Hbool as [Hbool ?]).
  split.
  - exists y1, y2, y3, y4, m1, m2, d1, d2. split; [exact HF | reflexivity].
  - eexists _, _, _. split; [|symmetry; exact Hcanon].
    repeat match goal with
           | F : Forall _ (_ :: _) |- _ => inversion F; subst; clear F
           end.
    repeat match goal with
           | D : is_digit _ = true |- _ => apply is_digit_range in D
           end.
    unfold DateSpec.real_calendar_date. lia.
Qed.

Lemma isValidDateString_complete (s : string) :
  DateSpec.dateIsValid s -> isValidDateString s = true.
Proof.
  intros ((y1 & y2 & y3 & y4 & m1 & m2 & d1 & d2 & HF & Hs)
          & (y & m & d & (Hy & Hm & Hd) & Hc)).
  subst s.
  destruct (isValidDateString_digits _ _ _ _ _ _ _ _ HF) as [Hcanon Hbool].
  cbv zeta in Hcanon, Hbool. rewrite Hbool.
  rewrite Hcanon in Hc.
  pose proof (days_in_month_bounds y m) as Hdim.
  repeat match goal with
         | F : Forall _ (_ :: _) |- _ => inversion F; subst; clear F
         end.
  repeat match goal with
         | D : is_digit _ = true |- _ => apply is_digit_range in D
         end.
  apply canonical_form_inj in Hc; try lia.
  destruct Hc as (<- & <- & <-).
  repeat (apply andb_true_iff; split); lia.
Qed.

(** C5. [isValidDate] accepts exactly the strings that match the pattern
    [YYYY-MM-DD] and are the canonical form of a day that exists in the
    calendar; it accepts ["2024-11-03"] and refuses ["2024-13-01"],
    ["2024-02-30"] and ["11/03/2024"]. *)
Theorem isValidDate_iff_real_calendar_date :
  (forall v : jsval,
      isValidDate v = true <-> exists s, v = JStr s /\ DateSpec.dateIsValid s) /\
  isValidDate (JStr "2024-11-03") = true /\
  isValidDate (JStr "2024-13-01") = false /\
  isValidDate (JStr "2024-02-30") = false /\
  isValidDate (JStr "11/03/2024") = false.
Proof.
  split; [|repeat split; reflexivity].
  intros v. split.
  - destruct v as [| | | |s| |]; try discriminate. cbn [isValidDate].
    intros H. exists s. split; [reflexivity|].
    apply isValidDateString_sound. exact H.
  - intros (s & -> & H). cbn [isValidDate].
    apply isValidDateString_complete. exact H.
Qed.

(** ** White space and [trim] *)

Lemma string_len_ind (P : string -> Prop) :
  (forall s, (forall t, (String.length t < String.length s)%nat -> P t) -> P s) ->
  forall s, P s.
Proof.
  intros H s.
  assert (G : forall n t, (String.length t < n)%nat -> P t).
  { induction n as [|n IH]; intros t Ht; [lia|].
    apply H. intros t' Ht'. apply IH. lia. }
  apply (G (S (String.length s))). lia.
Qed.

Lemma length_append (s1 s2 : string) :
  String.length (s1 +++ s2) = (String.length s1 + String.length s2)%nat.
Proof.
  induction s1 as [|c s1 IH]; cbn [String.append String.length];
    [reflexivity | rewrite IH; reflexivity].
Qed.

Lemma append_assoc (a b c : string) : (a +++ b) +++ c = a +++ (b +++ c).
Proof. induction a as [|x a IH]; cbn [String.append]; congruence. Qed.

Lemma append_nil_r (a : string) : a +++ EmptyString = a.
Proof. induction a as [|x a IH]; cbn [String.append]; congruence. Qed.

Lemma trimStart_white (w t : string) :
  In w white_space -> trimStart (w +++ t) = trimStart t.
Proof.
  intros Hw. cbv in Hw.
  repeat (destruct Hw as [<-|Hw]; [reflexivity|]). contradiction.
Qed.

Lemma white_nonempty (w : string) :
  In w white_space -> (0 < String.length w)%nat.
Proof.
  intros Hw. cbv in Hw.
  repeat (destruct Hw as [<-|Hw]; [cbn; lia|]). contradiction.
Qed.

Lemma ascii_of_code (c : ascii) (n : N) : N_of_ascii c = n -> c = ascii_of_N n.
Proof. intros <-. symmetry. apply ascii_N_embedding. Qed.

Ltac pick_white := solve [cbv; repeat first [left; reflexivity | right]].

Lemma space1_white (c : ascii) :
  is_space1 c = true -> In (String c EmptyString) white_space.
Proof.
  unfold is_space1. intros H.
  assert (E : (N_of_ascii c = 9 \/ N_of_ascii c = 10 \/ N_of_ascii c = 11
               \/ N_of_ascii c = 12 \/ N_of_ascii c = 13 \/ N_of_ascii c = 32)%N).
  { apply orb_true_iff in H as [H|H].
    - apply N.eqb_eq in H. lia.
    - apply andb_true_iff in H as [H1 H2].
      apply N.leb_le in H1, H2. lia. }
  repeat (destruct E as [E|E]; [apply ascii_of_code in E; subst c; pick_white|]).
  apply ascii_of_code in E; subst c; pick_white.
Qed.

Lemma space2_white (c1 c2 : ascii) :
  is_space2 c1 c2 = true ->
  In (String c1 (String c2 EmptyString)) white_space.
Proof.
  unfold is_space2. intros H. apply andb_true_iff in H as [H1 H2].
  apply N.eqb_eq in H1, H2.
  apply ascii_of_code in H1, H2. subst. pick_white.
Qed.

Lemma space3_white (c1 c2 c3 : ascii) :
  is_space3 c1 c2 c3 = true ->
  In (String c1 (String c2 (String c3 EmptyString))) white_space.
Proof.
  unfold is_space3. intros H.
  repeat match type of H with
         | (_ || _)%bool = true => apply orb_true_iff in H as [H|H]
         end;
    repeat match goal with
           | H : (_ && _)%bool = true |- _ => apply andb_true_iff in H as [? H]
           | H : (_ || _)%bool = true |- _ => apply orb_true_iff in H as [H|H]
           | H : (_ =? _)%N = true |- _ => apply N.eqb_eq, ascii_of_code in H
           end; subst; try pick_white.
  all: match goal with
       | H1 : (_ <=? _)%N = true, H2 : (_ <=? _)%N = true |- _ =>
           apply N.leb_le in H1, H2
       end.
  all: assert (E : (N_of_ascii c3 = 128 \/ N_of_ascii c3 = 129 \/ N_of_ascii c3 = 130
                    \/ N_of_ascii c3 = 131 \/ N_of_ascii c3 = 132
                    \/ N_of_ascii c3 = 133 \/ N_of_ascii c3 = 134
                    \/ N_of_ascii c3 = 135 \/ N_of_ascii c3 = 136
                    \/ N_of_ascii c3 = 137 \/ N_of_ascii c3 = 138)%N) by lia.
  all: repeat (destruct E as [E|E]; [apply ascii_of_code in E; subst c3; pick_white|]).
  all: apply ascii_of_code in E; subst c3; pick_white.
Qed.

Lemma trimStart_blank (s : string) : blank s -> trimStart s = EmptyString.
Proof.
  induction 1 as [|w s Hw _ IH]; [reflexivity|].
  rewrite (trimStart_white w s Hw). exact IH.
Qed.

Lemma blank_app (a b : string) : blank a -> blank b -> blank (a +++ b).
Proof.
  induction 1 as [|w s Hw _ IH]; intros Hb; [exact Hb|].
  rewrite append_assoc. constructor; [exact Hw | apply IH, Hb].
Qed.

(** What [trimStart] does on a non-empty string: it drops a white
    space character of one, two or three bytes, or it stops. *)
Lemma trimStart_step (s : string) :
  (exists w t, In w white_space /\ s = w +++ t /\ trimStart s = trimStart t) \/
  trimStart s = s.
Proof.
  destruct s as [|c1 s1]; [right; reflexivity|]. cbn [trimStart].
  destruct (is_space1 c1) eqn:E1.
  { left. exists (String c1 EmptyString), s1.
    split; [apply space1_white, E1 | split; reflexivity]. }
  destruct s1 as [|c2 s2]; [right; reflexivity|].
  destruct (is_space2 c1 c2) eqn:E2.
  { left. exists (String c1 (String c2 EmptyString)), s2.
    split; [apply space2_white, E2 | split; reflexivity]. }
  destruct s2 as [|c3 s3]; [right; reflexivity|].
  destruct (is_space3 c1 c2 c3) eqn:E3; [|right; reflexivity].
  left. exists (String c1 (String c2 (String c3 EmptyString))), s3.
  split; [apply space3_white, E3 | split; reflexivity].
Qed.

Lemma trimStart_decomp (s : string) :
  exists pre, blank pre /\ s = pre +++ trimStart s.
Proof.
  induction s as [s IH] using string_len_ind.
  destruct (trimStart_step s) as [(w & t & Hw & -> & E)|E].
  - destruct (IH t) as (pre & Hpre & Ht).
    { rewrite length_append. pose proof (white_nonempty w Hw). lia. }
    exists (w +++ pre). split; [constructor; assumption|].
    rewrite E, append_assoc, <- Ht. reflexivity.
  - exists EmptyString. split; [constructor | rewrite E; reflexivity].
Qed.

Lemma trimStart_idempotent (s : string) : trimStart (trimStart s) = trimStart s.
Proof.
  induction s as [s IH] using string_len_ind.
  destruct (trimStart_step s) as [(w & t & Hw & -> & E)|E].
  - rewrite E. apply IH.
    rewrite length_append. pose proof (white_nonempty w Hw). lia.
  - rewrite E. exact E.
Qed.

Lemma trimStart_length (s : string) :
  (String.length (trimStart s) <= String.length s)%nat.
Proof.
  destruct (trimStart_decomp s) as (pre & _ & E).
  rewrite E at 2. rewrite length_append. lia.
Qed.

Lemma trimStart_no_white (s w t : string) :
  In w white_space -> trimStart s <> w +++ t.
Proof.
  intros Hw E.
  pose proof (trimStart_idempotent s) as I. rewrite E in I.
  rewrite (trimStart_white w t Hw) in I.
  pose proof (trimStart_length t) as L. rewrite I, length_append in L.
  pose proof (white_nonempty w Hw). lia.
Qed.

Lemma blankb_blank (s : string) : blankb s = true <-> blank s.
Proof.
  unfold blankb. split.
  - intros H. destruct (trimStart_decomp s) as (pre & Hpre & E).
    destruct (trimStart s); [|discriminate H].
    rewrite E, append_nil_r. exact Hpre.
  - intros H. rewrite (trimStart_blank s H). reflexivity.
Qed.

(** The first byte of a white space character. *)
Definition initial (c : ascii) : bool :=
  let n := N_of_ascii c in
  (is_space1 c || (n =? 194) || (n =? 225) || (n =? 226) || (n =? 227)
   || (n =? 239))%N%bool.

Lemma blank_initial (c : ascii) (s : string) :
  blank (String c s) -> initial c = true.
Proof.
  intros H. inversion H as [|w t Hw Ht E].
  cbv in Hw.
  repeat (destruct Hw as [<-|Hw]; [injection E as <- _; reflexivity|]).
  contradiction.
Qed.

Lemma space2_not_initial (c1 c2 : ascii) :
  is_space2 c1 c2 = true -> initial c2 = false.
Proof.
  unfold is_space2. intros H. apply andb_true_iff in H as [_ H].
  apply N.eqb_eq, ascii_of_code in H. subst. reflexivity.
Qed.

Lemma space3_not_initial (c1 c2 c3 : ascii) :
  is_space3 c1 c2 c3 = true -> initial c2 = false /\ initial c3 = false.
Proof.
  intros H. apply space3_white in H. cbv in H.
  repeat (destruct H as [H|H];
          [try discriminate H; injection H as <- <- <-; split; reflexivity|]).
  contradiction.
Qed.

(** White space at the end of a string does not make the string blank
    unless the rest is: no character straddles the seam. *)
Lemma blank_app_inv (x b : string) :
  blank b -> trimStart (x +++ b) = EmptyString -> trimStart x = EmptyString.
Proof.
  intros Hb. induction x as [x IH] using string_len_ind. intros H.
  destruct x as [|c1 x1]; [reflexivity|].
  cbn [String.append trimStart] in H |- *.
  destruct (is_space1 c1) eqn:E1; [apply IH; [cbn; lia | exact H]|].
  destruct x1 as [|c2 x2].
  { cbn [String.append] in H. destruct b as [|b1 b']; [discriminate H|].
    pose proof (blank_initial _ _ Hb) as I1.
    destruct (is_space2 c1 b1) eqn:E2.
    { apply space2_not_initial in E2. congruence. }
    destruct b' as [|b2 b'']; [discriminate H|].
    destruct (is_space3 c1 b1 b2) eqn:E3; [|discriminate H].
    apply space3_not_initial in E3 as [E3 _]. congruence. }
  cbn [String.append] in H.
  destruct (is_space2 c1 c2) eqn:E2; [apply IH; [cbn; lia | exact H]|].
  destruct x2 as [|c3 x3].
  { cbn [String.append] in H. destruct b as [|b1 b']; [discriminate H|].
    pose proof (blank_initial _ _ Hb) as I1.
    destruct (is_space3 c1 c2 b1) eqn:E3; [|discriminate H].
    apply space3_not_initial in E3 as [_ E3]. congruence. }
  cbn [String.append] in H.
  destruct (is_space3 c1 c2 c3) eqn:E3; [apply IH; [cbn; lia | exact H]|].
  discriminate H.
Qed.

Lemma blankb_app (x b : string) : blank b -> blankb (x +++ b) = blankb x.
Proof.
  intros Hb. destruct (blankb x) eqn:E.
  - apply blankb_blank. apply blank_app; [apply blankb_blank, E | exact Hb].
  - destruct (blankb (x +++ b)) eqn:E'; [|reflexivity].
    unfold blankb in E, E'.
    destruct (trimStart (x +++ b)) eqn:T; [|discriminate E'].
    rewrite (blank_app_inv x b Hb T) in E. discriminate E.
Qed.

Lemma trimEnd_app_blank (x b : string) : blank b -> trimEnd (x +++ b) = trimEnd x.
Proof.
  intros Hb. induction x as [|c x IH].
  - cbn [String.append]. destruct b as [|c b']; [reflexivity|].
    cbn [trimEnd]. rewrite (proj2 (blankb_blank _) Hb). reflexivity.
  - cbn [String.append trimEnd].
    change (String c (x +++ b)) with (String c x +++ b).
    rewrite (blankb_app (String c x) b Hb), IH. reflexivity.
Qed.

Lemma trimEnd_decomp (s : string) :
  exists post, blank post /\ s = trimEnd s +++ post.
Proof.
  induction s as [|c s IH]; [exists EmptyString; split; [constructor | reflexivity]|].
  cbn [trimEnd]. destruct (blankb (String c s)) eqn:E.
  - exists (String c s). split; [apply blankb_blank, E | reflexivity].
  - destruct IH as (post & Hpost & Es). exists post. split; [exact Hpost|].
    cbn [String.append]. rewrite <- Es. reflexivity.
Qed.

Lemma trimEnd_length (s : string) :
  (String.length (trimEnd s) <= String.length s)%nat.
Proof.
  destruct (trimEnd_decomp s) as (post & _ & E). rewrite E at 2.
  rewrite length_append. lia.
Qed.

Lemma trimEnd_idempotent (s : string) : trimEnd (trimEnd s) = trimEnd s.
Proof.
  destruct (trimEnd_decomp s) as (post & Hpost & E).
  rewrite E at 2. rewrite trimEnd_app_blank by exact Hpost. reflexivity.
Qed.

Lemma trimEnd_no_white (s w t : string) :
  In w white_space -> trimEnd s <> t +++ w.
Proof.
  intros Hw E. destruct (trimEnd_decomp s) as (post & Hpost & Es).
  pose proof (trimEnd_idempotent s) as I. rewrite E in I.
  assert (Hb : blank (w +++ EmptyString)) by (constructor; [exact Hw | constructor]).
  rewrite append_nil_r in Hb.
  rewrite (trimEnd_app_blank t w Hb) in I.
  pose proof (trimEnd_length t) as L. rewrite I, length_append in L.
  pose proof (white_nonempty w Hw). lia.
Qed.

(** Cutting white space off the end leaves the start as it is. *)
Lemma trimStart_trimEnd (t : string) :
  trimStart t = t -> trimStart (trimEnd t) = trimEnd t.
Proof.
  intros Ht. destruct (trimEnd_decomp t) as (post & Hpost & E).
  destruct (trimStart_step (trimEnd t)) as [(w & r & Hw & Eu & _)|F]; [|exact F].
  exfalso. rewrite Eu in E. rewrite append_assoc in E.
  pose proof (trimStart_length (r +++ post)) as L.
  rewrite <- (trimStart_white w _ Hw), <- E, Ht in L.
  rewrite E, length_append in L. pose proof (white_nonempty w Hw). lia.
Qed.

Lemma trim_idempotent (s : string) : trim (trim s) = trim s.
Proof.
  unfold trim.
  rewrite (trimStart_trimEnd (trimStart s) (trimStart_idempotent s)).
  apply trimEnd_idempotent.
Qed.

Lemma trim_empty_iff_blank (s : string) : trim s = EmptyString <-> blank s.
Proof.
  unfold trim. split.
  - intros E.
    destruct (trimStart_decomp s) as (pre & Hpre & E1).
    destruct (trimEnd_decomp (trimStart s)) as (post & Hpost & E2).
    rewrite E in E2. cbn [String.append] in E2. rewrite E2 in E1.
    rewrite E1. apply blank_app; assumption.
  - intros H. rewrite (trimStart_blank s H). reflexivity.
Qed.

Lemma trim_trimmed_form (s : string) : trimmed_form s (trim s).
Proof.
  unfold trim.
  destruct (trimStart_decomp s) as (pre & Hpre & E1).
  destruct (trimEnd_decomp (trimStart s)) as (post & Hpost & E2).
  split.
  - exists pre, post. split; [|split; assumption].
    rewrite <- E2. exact E1.
  - intros w Hw. split.
    + intros [t Et].
      apply (trimStart_no_white (trimEnd (trimStart s)) w t Hw).
      rewrite (trimStart_trimEnd _ (trimStart_idempotent s)). exact Et.
    + intros [t Et]. exact (trimEnd_no_white _ w t Hw Et).
Qed.

Lemma toLowerCase_lower_case_of (s : string) : lower_case_of s (toLowerCase s).
Proof.
  induction s as [|c s IH]; cbn [toLowerCase]; [constructor|].
  unfold lower_char. destruct (is_upper c) eqn:E; constructor; assumption.
Qed.

(** ** Rows and keys *)

Lemma select_by_id_absent (l : list expense) (i : Z) :
  ~ In i (map id l) -> filter (fun r => id r =? i) l = [].
Proof.
  induction l as [|a l IH]; cbn [map filter In]; intros H; [reflexivity|].
  destruct (Z.eqb_spec (id a) i) as [E|E]; [tauto|].
  apply IH. tauto.
Qed.

Lemma select_by_id_present (l : list expense) (r : expense) :
  NoDup (map id l) -> In r l -> filter (fun x => id x =? id r) l = [r].
Proof.
  induction l as [|a l IH]; cbn [map filter In]; intros ND HI; [contradiction|].
  inversion ND as [|? ? Hnotin ND']; subst.
  destruct HI as [->|HI].
  - rewrite Z.eqb_refl. f_equal. apply select_by_id_absent. exact Hnotin.
  - destruct (Z.eqb_spec (id a) (id r)) as [E|E].
    + exfalso. apply Hnotin. rewrite E. apply in_map. exact HI.
    + apply IH; assumption.
Qed.

Lemma delete_by_id_absent (l : list expense) (i : Z) :
  ~ In i (map id l) -> filter (fun r => negb (id r =? i)) l = l.
Proof.
  induction l as [|a l IH]; cbn [map filter In]; intros H; [reflexivity|].
  destruct (Z.eqb_spec (id a) i) as [E|E]; [tauto|].
  cbn [negb]. f_equal. apply IH. tauto.
Qed.

Lemma delete_by_id_present (l : list expense) (r : expense) :
  NoDup (map id l) -> In r l ->
  exists l1 l2,
    l = l1 ++ r :: l2 /\
    filter (fun x => negb (id x =? id r)) l = l1 ++ l2.
Proof.
  induction l as [|a l IH]; cbn [map filter In]; intros ND HI; [contradiction|].
  inversion ND as [|? ? Hnotin ND']; subst.
  destruct HI as [->|HI].
  - exists [], l. rewrite Z.eqb_refl. cbn [negb app]. split; [reflexivity|].
    apply delete_by_id_absent. exact Hnotin.
  - destruct (IH ND' HI) as (l1 & l2 & E1 & E2).
    exists (a :: l1), l2. split; [cbn [app]; congruence|].
    destruct (Z.eqb_spec (id a) (id r)) as [E|E].
    + exfalso. apply Hnotin. rewrite E. apply in_map. exact HI.
    + cbn [negb app]. congruence.
Qed.

Lemma first_result_single {A} (a : A) (dflt : rows_obj A) :
  first_result [a] dflt = ROne a.
Proof. reflexivity. Qed.

(** ** [deleteExpense] *)

(** C8. Deleting an id that the table does not hold fails with the
    not-found error, whose message contains the id, and leaves the
    database as it was; deleting an id that it holds returns the row as
    it was and removes that row and no other. *)
Theorem deleteExpense_spec (db : Db) (i : Z) :
  wf db ->
  (~ In i (ids db) ->
     deleteExpense i db = (db, inl (Error (not_found_message i))) /\
     contains (not_found_message i) (string_of_Z i)) /\
  (forall r, In r (rows db) -> id r = i ->
     exists db' l1 l2,
       deleteExpense i db =
         (db', inr {| delete_message := "Expense deleted successfully";
                      deleted_expense := ROne r |}) /\
       rows db = l1 ++ r :: l2 /\
       rows db' = l1 ++ l2 /\
       ~ In i (ids db') /\
       seq db' = seq db).
Proof.
  intros [ND Hseq]. split.
  - intros Hnot. split.
    + cbv [deleteExpense bind sql_select_by_id get_rows ret].
      rewrite (select_by_id_absent _ _ Hnot). reflexivity.
    + exists "Expense with ID "%string, " not found"%string. reflexivity.
  - intros r HI <-.
    destruct (delete_by_id_present _ _ ND HI) as (l1 & l2 & E1 & E2).
    exists {| rows := l1 ++ l2; seq := seq db |}, l1, l2.
    split; [|split; [exact E1|split; [reflexivity|split; [|reflexivity]]]].
    + cbv [deleteExpense bind sql_select_by_id get_rows ret].
      rewrite (select_by_id_present _ _ ND HI).
      cbv [first_result rowToObject is_RNull throw_if ret sql_delete saveDatabase].
      rewrite E2. reflexivity.
    + unfold ids in *. cbn [rows]. rewrite E1 in ND.
      rewrite map_app in *. cbn [map] in ND.
      apply NoDup_remove_2 in ND. exact ND.
Qed.

(** ** Running a computation step by step *)

Lemma bind_ok {A B} (c : M A) (k : A -> M B) (db db' : Db) (a : A) :
  c db = (db', inr a) -> bind c k db = k a db'.
Proof. intros H. unfold bind. rewrite H. reflexivity. Qed.

Lemma bind_err {A B} (c : M A) (k : A -> M B) (db db' : Db) (e : exn) :
  c db = (db', inl e) -> bind c k db = (db', inl e).
Proof. intros H. unfold bind. rewrite H. reflexivity. Qed.

Lemma throw_if_false {B} (e : exn) (k : unit -> M B) (db : Db) :
  bind (throw_if false e) k db = k tt db.
Proof. reflexivity. Qed.

Lemma throw_if_true {B} (e : exn) (k : unit -> M B) (db : Db) :
  bind (throw_if true e) k db = (db, inl e).
Proof. reflexivity. Qed.

Lemma bind_ret {A B} (a : A) (k : A -> M B) (db : Db) :
  bind (ret a) k db = k a db.
Proof. reflexivity. Qed.

Lemma bind_assoc {A B C} (c : M A) (k1 : A -> M B) (k2 : B -> M C) (db : Db) :
  bind (bind c k1) k2 db = bind c (fun a => bind (k1 a) k2) db.
Proof. unfold bind. destruct (c db) as [db' [e|a]]; reflexivity. Qed.

Lemma sql_select_by_id_eq (i : Z) (db : Db) :
  sql_select_by_id i db = (db, inr (filter (fun r => id r =? i) (rows db))).
Proof. reflexivity. Qed.

Ltac run :=
  repeat first
    [ match goal with
      | H : ?c ?db = (_, inr _) |- context [bind ?c _ ?db] =>
          rewrite (bind_ok _ _ _ _ _ H)
      | H : ?c ?db = (_, inl _) |- context [bind ?c _ ?db] =>
          rewrite (bind_err _ _ _ _ _ H)
      end
    | rewrite throw_if_false
    | rewrite throw_if_true
    | rewrite bind_ret
    | rewrite bind_assoc
    | progress cbv beta
    | progress cbn [first_result rowToObject is_RNull app length Nat.eqb negb
                      lift] ].

(** ** [updateExpense] *)

Lemma amount_assignment_cases (v : jsval) (db : Db) :
  (is_null v = true /\ amount_assignment v db = (db, inr [])) \/
  (is_null v = false /\ exists q,
      v = JNum (Fin q) /\ Qlt_bool 0 q = true /\
      amount_assignment v db = (db, inr [SetAmount q])) \/
  (is_null v = false /\ isValidAmount v = false /\
   exists e, amount_assignment v db = (db, inl e)).
Proof.
  unfold amount_assignment.
  destruct v as [| |b|[|n|q]|s|l|f]; cbn [is_null negb isValidAmount];
    try (left; split; reflexivity);
    try (right; right; repeat split; eexists; reflexivity).
  destruct (Qlt_bool 0 q) eqn:E.
  - right; left. split; [reflexivity|]. exists q. repeat split; trivial.
  - right; right. repeat split. eexists; reflexivity.
Qed.

Lemma category_assignment_cases (v : jsval) (db : Db) :
  (is_null v = true /\ category_assignment v db = (db, inr [])) \/
  (is_null v = false /\ exists s,
      v = JStr s /\ isValidCategory v = inr true /\
      category_assignment v db = (db, inr [SetCategory (toLowerCase s)])) \/
  (is_null v = false /\ isValidCategory v <> inr true /\
   exists e, category_assignment v db = (db, inl e)).
Proof.
  unfold category_assignment.
  destruct v as [| |b|n|s|l|f]; cbn [is_null negb isValidCategory];
    try (left; split; reflexivity);
    try (right; right; repeat split; [discriminate | eexists; reflexivity]).
  destruct (includes VALID_CATEGORIES (toLowerCase s)) eqn:E.
  - right; left. split; [reflexivity|]. exists s.
    split; [reflexivity|split; [reflexivity|]].
    reflexivity.
  - right; right. split; [reflexivity|split; [discriminate|]].
    eexists. reflexivity.
Qed.

Lemma length_zero_iff_empty (s : string) :
  Nat.eqb (String.length s) 0 = true <-> s = EmptyString.
Proof. destruct s; cbn; split; intros; (discriminate || reflexivity). Qed.

Lemma description_assignment_cases (v : jsval) (db : Db) :
  (is_null v = true /\ description_assignment v db = (db, inr [])) \/
  (is_null v = false /\ exists s,
      v = JStr s /\ trim s <> EmptyString /\
      description_assignment v db = (db, inr [SetDescription (trim s)])) \/
  (is_null v = false /\ ~ (exists s, v = JStr s /\ trim s <> EmptyString) /\
   exists e, description_assignment v db = (db, inl e)).
Proof.
  unfold description_assignment.
  destruct v as [| |b|n|s|l|f]; cbn [is_null negb];
    try (left; split; reflexivity);
    try (right; right; repeat split;
         [intros (s0 & Hs & _); discriminate Hs | eexists; reflexivity]).
  cbv [bind lift ret throw_if method_trim].
  destruct (Nat.eqb (String.length (trim s)) 0) eqn:E.
  - right; right. split; [reflexivity|split; [|eexists; reflexivity]].
    intros (s0 & Hs & Hne). injection Hs as <-.
    apply length_zero_iff_empty in E. contradiction.
  - right; left. split; [reflexivity|]. exists s.
    split; [reflexivity|split; [|reflexivity]].
    intros Hempty. rewrite Hempty in E. discriminate.
Qed.

Lemma date_assignment_cases (v : jsval) (db : Db) :
  (is_null v = true /\ date_assignment v db = (db, inr [])) \/
  (is_null v = false /\ exists s,
      v = JStr s /\ isValidDate v = true /\
      date_assignment v db = (db, inr [SetDate s])) \/
  (is_null v = false /\ isValidDate v = false /\
   exists e, date_assignment v db = (db, inl e)).
Proof.
  unfold date_assignment.
  destruct v as [| |b|n|s|l|f]; cbn [is_null negb isValidDate];
    try (left; split; reflexivity);
    try (right; right; repeat split; eexists; reflexivity).
  destruct (isValidDateString s) eqn:E.
  - right; left. split; [reflexivity|]. exists s. repeat split.
  - right; right. repeat split. eexists; reflexivity.
Qed.

Lemma update_row (l1 l2 : list expense) (r : expense) (f : expense -> expense) :
  NoDup (map id (l1 ++ r :: l2)) ->
  map (fun x => if id x =? id r then f x else x) (l1 ++ r :: l2)
  = l1 ++ f r :: l2.
Proof.
  intros ND. rewrite map_app. cbn [map]. rewrite Z.eqb_refl.
  rewrite map_app in ND. cbn [map] in ND.
  pose proof (NoDup_remove_2 _ _ _ ND) as Hnot.
  assert (Hid : forall l, (forall x, In x l -> id x <> id r) ->
                map (fun x => if id x =? id r then f x else x) l = l).
  { induction l as [|x l IH]; intros H; [reflexivity|]. cbn [map].
    destruct (Z.eqb_spec (id x) (id r)) as [E|E].
    - exfalso. apply (H x); [left; reflexivity | exact E].
    - f_equal. apply IH. intros y Hy. apply H. right. exact Hy. }
  rewrite !Hid; [reflexivity | |];
    intros x Hx E; apply Hnot; apply in_or_app; [right|left];
    rewrite <- E; apply in_map; exact Hx.
Qed.

Lemma id_assign_all (us : list assignment) (r : expense) :
  id (assign_all us r) = id r.
Proof.
  unfold assign_all. revert r.
  induction us as [|u us IH]; intros r; [reflexivity|].
  cbn [fold_left]. rewrite IH. destruct u; reflexivity.
Qed.

Lemma update_commit (db : Db) (l1 l2 : list expense) (r : expense)
      (us : list assignment) :
  NoDup (ids db) ->
  rows db = l1 ++ r :: l2 ->
  forallb check_assignment us = true ->
  bind (sql_update us (id r))
    (fun _ => bind saveDatabase
       (fun _ => bind (sql_select_by_id (id r))
          (fun updatedResult =>
             ret {| update_message := "Expense updated successfully";
                    updated_expense := first_result updatedResult RNull |})))
    db
  = ({| rows := l1 ++ assign_all us r :: l2; seq := seq db |},
     inr {| update_message := "Expense updated successfully";
            updated_expense := ROne (assign_all us r) |}).
Proof.
  intros ND E Hcheck. unfold ids in ND.
  assert (Hrun : sql_update us (id r) db
                 = ({| rows := l1 ++ assign_all us r :: l2; seq := seq db |},
                    inr tt)).
  { unfold sql_update. rewrite Hcheck. cbn [negb]. rewrite andb_false_r.
    rewrite E. rewrite update_row by (rewrite <- E; exact ND). reflexivity. }
  rewrite (bind_ok _ _ _ _ _ Hrun).
  unfold saveDatabase. rewrite bind_ret.
  rewrite (bind_ok _ _ _ _ _ (sql_select_by_id_eq _ _)).
  cbn [rows].
  rewrite <- (id_assign_all us r).
  rewrite select_by_id_present.
  - reflexivity.
  - rewrite map_app. cbn [map]. rewrite id_assign_all.
    rewrite E, map_app in ND. exact ND.
  - apply in_or_app. right. left. reflexivity.
Qed.

Lemma supplied_false (v : jsval) :
  is_null (default_null v) = true <-> supplied v = false.
Proof. unfold supplied. destruct (is_null (default_null v)); cbn; intuition congruence. Qed.

Lemma default_null_id (v : jsval) :
  is_null (default_null v) = false -> default_null v = v.
Proof. destruct v; cbn; intros; (discriminate || reflexivity). Qed.

Lemma no_fields_is_not_not_found (i : Z) :
  no_fields_message <> not_found_message i.
Proof. unfold no_fields_message, not_found_message. cbn [String.append]. discriminate. Qed.

(** C2. An update of a row that exists keeps the key, the creation time
    and every field the request does not supply, whatever the request
    carries, and it leaves every other row alone; when the supplied
    fields are acceptable it succeeds, returns the row as it now stands
    and has written the supplied fields.  An update of an id that the
    table does not hold fails with the not-found error, and an update
    of an existing row that supplies no field fails with the
    no-fields error, a different message. *)
Theorem updateExpense_frame (db : Db) (i : Z) (a c d dt : jsval) :
  wf db ->
  (~ In i (ids db) ->
     updateExpense i a c d dt db = (db, inl (Error (not_found_message i)))) /\
  (forall r, In r (rows db) -> id r = i ->
     (supplied a = false -> supplied c = false ->
      supplied d = false -> supplied dt = false ->
      updateExpense i a c d dt db = (db, inl (Error no_fields_message))) /\
     no_fields_message <> not_found_message i /\
     exists db' res r' l1 l2,
       updateExpense i a c d dt db = (db', res) /\
       rows db = l1 ++ r :: l2 /\
       rows db' = l1 ++ r' :: l2 /\
       seq db' = seq db /\
       frame a c d dt r r' /\
       (valid_update a c d dt -> exists u, res = inr u) /\
       match res with
       | inl _ => r' = r
       | inr u =>
           u = {| update_message := "Expense updated successfully";
                  updated_expense := ROne r' |} /\
           written a c d dt r'
       end).
Proof.
  intros [ND Hseq]. split.
  - intros Hnot. unfold updateExpense.
    rewrite (bind_ok _ _ _ _ _ (sql_select_by_id_eq _ _)).
    rewrite (select_by_id_absent _ _ Hnot). reflexivity.
  - intros r HI <-.
    assert (Hsel : sql_select_by_id (id r) db = (db, inr [r])).
    { rewrite sql_select_by_id_eq, (select_by_id_present _ _ ND HI). reflexivity. }
    split; [|split; [apply no_fields_is_not_not_found|]].
    { intros Sa Sc Sd Sdt. apply supplied_false in Sa, Sc, Sd, Sdt.
      unfold updateExpense. run.
      destruct (default_null a), (default_null c), (default_null d),
        (default_null dt); try discriminate.
      reflexivity. }
    destruct (in_split _ _ HI) as (l1 & l2 & Hrows).
    unfold frame, written, valid_update, supplied.
    destruct (amount_assignment_cases (default_null a) db)
      as [(Na & Ea)|[(Na & q & Va & Pq & Ea)|(Na & Ia & ea & Ea)]];
    destruct (category_assignment_cases (default_null c) db)
      as [(Nc & Ec)|[(Nc & sc & Vc & Pc & Ec)|(Nc & Ic & ec & Ec)]];
    destruct (description_assignment_cases (default_null d) db)
      as [(Nd & Ed)|[(Nd & sd & Vd & Pd & Ed)|(Nd & Id & ed & Ed)]];
    destruct (date_assignment_cases (default_null dt) db)
      as [(Ndt & Edt)|[(Ndt & sdt & Vdt & Pdt & Edt)|(Ndt & Idt & edt & Edt)]].
    all: rewrite ?Na, ?Nc, ?Nd, ?Ndt; cbn [negb orb].
    all: unfold updateExpense; run.
    all: try rewrite (update_commit db l1 l2 r _ ND Hrows)
           by (cbn [forallb check_assignment andb];
               rewrite ?Pq; reflexivity).
    all: cbn [assign_all fold_left assign id amount category description
                date created_at].
    all: repeat match goal with
                | N : is_null (default_null ?v) = false |- _ =>
                    rewrite (default_null_id v N) in *; clear N
                end.
    all: eexists _, _, _, l1, l2; split; [reflexivity|].
    all: split; [exact Hrows|split; [cbn [rows]; try reflexivity|]].
    all: try exact Hrows.
    all: split; [reflexivity|].
    all: split; [repeat split; intros; (reflexivity || discriminate)|].
    all: split.
    all: try (intros _; eexists; reflexivity).
    all: try reflexivity.
    all: try (intros (Hany & Ha & Hc & Hd & Hdt);
              try (specialize (Ha eq_refl));
              try (specialize (Hc eq_refl));
              try (specialize (Hd eq_refl));
              try (specialize (Hdt eq_refl));
              exfalso;
              first [discriminate | congruence | contradiction]).
    all: split; [reflexivity|].
    all: repeat split; intros x Hx; subst;
         cbn [amount category description date default_null is_null] in *;
         congruence.
Qed.

(** ** [addExpense] *)

Lemma max_rowid_ge (l : list expense) (r : expense) :
  In r l -> id r <= max_rowid l.
Proof.
  induction l as [|a l IH]; cbn [In max_rowid]; [contradiction|].
  intros [->|H]; [lia|]. specialize (IH H). lia.
Qed.

Lemma next_rowid_fresh (db : Db) :
  seq db < next_rowid db /\ Forall (fun i => i < next_rowid db) (ids db).
Proof.
  unfold next_rowid. split; [lia|].
  apply Forall_forall. intros i Hi. unfold ids in Hi.
  apply in_map_iff in Hi as (r & <- & Hr).
  pose proof (max_rowid_ge _ _ Hr). lia.
Qed.

Lemma order_by_last {A} (leb : A -> A -> bool) (l : list A) (r : A) :
  (forall x, In x l -> leb x r = false) ->
  order_by leb (l ++ [r]) = r :: order_by leb l.
Proof.
  induction l as [|a l IH]; intros H; [reflexivity|].
  cbn [app]. change (order_by leb (a :: l ++ [r]))
    with (insert_sorted leb a (order_by leb (l ++ [r]))).
  rewrite IH by (intros x Hx; apply H; right; exact Hx).
  cbn [insert_sorted]. rewrite (H a (or_introl eq_refl)). reflexivity.
Qed.

(** After an insert the row with the largest key is the new one. *)
Lemma select_last_after_insert (db : Db) (r : expense) :
  id r = next_rowid db ->
  sql_select_last {| rows := rows db ++ [r]; seq := id r |}
  = ({| rows := rows db ++ [r]; seq := id r |}, inr [r]).
Proof.
  intros Hid. cbv [sql_select_last bind get_rows ret rows].
  rewrite order_by_last; [reflexivity|].
  intros x Hx. unfold id_desc. apply Z.leb_gt.
  destruct (next_rowid_fresh db) as [_ Hall].
  rewrite Forall_forall in Hall. rewrite Hid.
  apply Hall. unfold ids. apply in_map. exact Hx.
Qed.

Lemma wf_insert (db : Db) (r : expense) :
  wf db -> id r = next_rowid db ->
  wf {| rows := rows db ++ [r]; seq := id r |}.
Proof.
  intros [ND Hseq] Hid.
  destruct (next_rowid_fresh db) as [Hlt Hall].
  unfold wf, ids in *. cbn [rows seq]. rewrite map_app. cbn [map].
  split.
  - apply NoDup_app_remove_l with (l := []). cbn [app].
    apply Permutation_NoDup with (l := id r :: map id (rows db)).
    + apply Permutation_cons_append.
    + constructor; [|exact ND].
      intros Hin. rewrite Forall_forall in Hall.
      specialize (Hall _ Hin). lia.
  - apply Forall_app. split.
    + rewrite Forall_forall in *. intros i Hi.
      specialize (Hall _ Hi). lia.
    + repeat constructor. lia.
Qed.

(** Every run of [addExpense]: either the arguments are not acceptable
    and it throws without touching the database, or it appends one row
    under a fresh key and returns that row. *)
Lemma addExpense_cases (now : string) (a c d dt : jsval) (db : Db) :
  (~ valid_add a c d dt /\
   exists e, addExpense now a c d dt db = (db, inl e)) \/
  (valid_add a c d dt /\
   exists q sc sd sdt,
     a = JNum (Fin q) /\ c = JStr sc /\ d = JStr sd /\ dt = JStr sdt /\
     let r := mkExpense (next_rowid db) q (toLowerCase sc) (trim sd) sdt now in
     addExpense now a c d dt db
     = ({| rows := rows db ++ [r]; seq := id r |}, inr (added r))).
Proof.
  unfold valid_add, addExpense.
  destruct (isValidAmount a) eqn:Ha.
  2:{ left. split; [intros (H & _); discriminate|]. eexists; reflexivity. }
  destruct a as [| |b|[|n|q]|s|l|f]; try discriminate Ha.
  cbn [isValidAmount] in Ha. run.
  destruct (isValidCategory c) as [e|[|]] eqn:Hc.
  1:{ left. split; [intros (_ & H & _); discriminate|]. eexists; reflexivity. }
  2:{ left. split; [intros (_ & H & _); discriminate|]. eexists; reflexivity. }
  destruct c as [| |b|n|sc|l|f]; try discriminate Hc.
  run.
  destruct (isValidDate dt) eqn:Hdt.
  2:{ left. split; [intros (_ & _ & _ & H); discriminate|]. eexists; reflexivity. }
  destruct dt as [| |b|n|sdt|l|f]; try discriminate Hdt.
  run.
  destruct d as [| |b|n|sd|l|f];
    try (left; split; [intros (_ & _ & (s0 & Hs & _) & _); discriminate Hs|];
         cbn [truthy negb];
         match goal with
         | |- context [JBool ?b] => destruct b
         | |- context [JNum ?n] => destruct n as [|neg|x]; [| |destruct (Qeq_bool x 0)]
         | _ => idtac
         end;
         eexists; reflexivity).
  cbn [truthy]. rewrite negb_involutive.
  destruct (String.eqb_spec sd "") as [->|Hne].
  { left. split; [|eexists; reflexivity].
    intros (_ & _ & (s0 & Hs & Hn) & _). injection Hs as <-. apply Hn. reflexivity. }
  cbn [method_trim]. run.
  destruct (Nat.eqb (String.length (trim sd)) 0) eqn:Hlen.
  { left. split; [|eexists; reflexivity].
    intros (_ & _ & (s0 & Hs & Hn) & _). injection Hs as <-.
    apply Hn. apply length_zero_iff_empty. exact Hlen. }
  right. split.
  { repeat split; trivial. exists sd. split; [reflexivity|].
    intros E. rewrite E in Hlen. discriminate. }
  exists q, sc, sd, sdt. repeat split.
  cbn [method_toLowerCase bind_real bind_text]. run.
  assert (Hins : sql_insert now q (toLowerCase sc) (trim sd) sdt db
                 = ({| rows := rows db ++
                         [mkExpense (next_rowid db) q (toLowerCase sc)
                            (trim sd) sdt now];
                       seq := next_rowid db |}, inr tt)).
  { unfold sql_insert. rewrite Ha. reflexivity. }
  rewrite (bind_ok _ _ _ _ _ Hins).
  unfold saveDatabase. rewrite bind_ret.
  rewrite (bind_ok _ _ _ _ _
             (select_last_after_insert db
                (mkExpense (next_rowid db) q (toLowerCase sc) (trim sd) sdt now)
                eq_refl)).
  reflexivity.
Qed.

(** C1. An add with acceptable arguments succeeds: it appends one row,
    whose category is the argument in lower case, one of the ten
    categories, and whose description is the argument trimmed, that is,
    the argument without the white space (of ECMAScript, in UTF-8) at
    its two ends, and not empty; it returns that row, and reading the
    row back by its key at once gives the very same row. *)
Theorem addExpense_roundtrip (now : string) (a c d dt : jsval) (db : Db) :
  wf db ->
  valid_add a c d dt ->
  exists db' r q sc sd sdt,
    a = JNum (Fin q) /\ c = JStr sc /\ d = JStr sd /\ dt = JStr sdt /\
    addExpense now a c d dt db = (db', inr (added r)) /\
    rows db' = rows db ++ [r] /\
    amount r = q /\
    category r = toLowerCase sc /\
    lower_case_of sc (category r) /\
    In (category r) VALID_CATEGORIES /\
    description r = trim sd /\
    trimmed_form sd (description r) /\
    description r <> EmptyString /\
    date r = sdt /\
    created_at r = now /\
    read_by_id (id r) db' = (db', inr (ROne r)).
Proof.
  intros Hwf Hvalid.
  destruct (addExpense_cases now a c d dt db)
    as [(Hnot & _)|(_ & q & sc & sd & sdt & Ea & Ec & Ed & Edt & Hrun)];
    [contradiction|].
  cbv zeta in Hrun.
  set (r := mkExpense (next_rowid db) q (toLowerCase sc) (trim sd) sdt now) in *.
  exists {| rows := rows db ++ [r]; seq := id r |}, r, q, sc, sd, sdt.
  destruct Hvalid as (_ & Hcat & (s0 & Es0 & Hne) & _).
  rewrite Ed in Es0. injection Es0 as <-.
  rewrite Ec in Hcat. cbn [isValidCategory] in Hcat.
  repeat (split; [first [assumption | reflexivity]|]).
  split; [apply toLowerCase_lower_case_of|].
  split.
  { cbn [category r]. unfold includes in Hcat.
    assert (E : existsb (String.eqb (toLowerCase sc)) VALID_CATEGORIES = true)
      by congruence.
    apply existsb_exists in E as (y & Hy & E). apply String.eqb_eq in E.
    rewrite E. exact Hy. }
  split; [reflexivity|].
  split; [apply trim_trimmed_form|].
  split; [exact Hne|].
  repeat (split; [reflexivity|]).
  destruct (wf_insert db r Hwf eq_refl) as [ND _].
  unfold read_by_id.
  rewrite (bind_ok _ _ _ _ _ (sql_select_by_id_eq _ _)).
  rewrite (select_by_id_present _ r ND).
  - reflexivity.
  - cbn [rows]. apply in_or_app. right. left. reflexivity.
Qed.

(** ** The invariant along a session *)

Lemma ext_refl (db : Db) : ext db db.
Proof. split; [tauto | lia]. Qed.

Lemma ext_trans (db1 db2 db3 : Db) : ext db1 db2 -> ext db2 db3 -> ext db1 db3.
Proof. intros [H1 L1] [H2 L2]. split; [tauto | lia]. Qed.

Lemma grows_ret {A} (a : A) : grows (ret a).
Proof. intros db. apply ext_refl. Qed.

Lemma grows_throw {A} (e : exn) : grows (@throw A e).
Proof. intros db. apply ext_refl. Qed.

Lemma grows_bind {A B} (c : M A) (k : A -> M B) :
  grows c -> (forall a, grows (k a)) -> grows (bind c k).
Proof.
  intros Hc Hk db. unfold bind. specialize (Hc db).
  destruct (c db) as [db' [e|a]]; cbn [fst] in *; [exact Hc|].
  eapply ext_trans; [exact Hc | apply Hk].
Qed.

Lemma grows_throw_if (b : bool) (e : exn) : grows (throw_if b e).
Proof. destruct b; [apply grows_throw | apply grows_ret]. Qed.

Lemma grows_lift {A} (r : exn + A) : grows (lift r).
Proof. destruct r; [apply grows_throw | apply grows_ret]. Qed.

Lemma grows_get_rows : grows get_rows.
Proof. intros db. apply ext_refl. Qed.

Lemma grows_saveDatabase : grows saveDatabase.
Proof. apply grows_ret. Qed.

Lemma grows_bind_real (v : jsval) : grows (bind_real v).
Proof. destruct v as [| | |[| |]| | |]; (apply grows_throw || apply grows_ret). Qed.

Lemma grows_bind_text (v : jsval) : grows (bind_text v).
Proof. destruct v; (apply grows_throw || apply grows_ret). Qed.

Lemma grows_sql_insert (now : string) (a : Q) (c d dt : string) :
  grows (sql_insert now a c d dt).
Proof.
  intros db. unfold sql_insert. destruct (Qlt_bool 0 a); [|apply ext_refl].
  cbn [fst]. split.
  - intros Hwf.
    apply (wf_insert db (mkExpense (next_rowid db) a c d dt now) Hwf eq_refl).
  - cbn [seq]. destruct (next_rowid_fresh db). lia.
Qed.

Lemma map_id_update (us : list assignment) (i : Z) (l : list expense) :
  map id (map (fun r => if id r =? i then assign_all us r else r) l) = map id l.
Proof.
  rewrite map_map. apply map_ext. intros r.
  destruct (id r =? i); [apply id_assign_all | reflexivity].
Qed.

Lemma grows_sql_update (us : list assignment) (i : Z) : grows (sql_update us i).
Proof.
  intros db. unfold sql_update.
  destruct (existsb _ _ && negb _); [apply ext_refl|].
  cbn [fst]. split; [|cbn [seq]; lia].
  unfold wf, ids. cbn [rows seq]. rewrite map_id_update. tauto.
Qed.

(** Dropping rows keeps the keys distinct. *)
Lemma keys_distinct_after_filter (keep : expense -> bool) (tbl : list expense) :
  NoDup (map id tbl) -> NoDup (map id (filter keep tbl)).
Proof.
  intros ND. induction tbl as [|r tbl IH]; cbn [map filter]; [constructor|].
  cbn [map] in ND. apply NoDup_cons_iff in ND as [Hnot ND'].
  destruct (keep r); [|auto]. cbn [map]. constructor; [|auto].
  intros Hin. apply Hnot. apply in_map_iff in Hin as (x & E & Hx).
  apply filter_In in Hx as [Hx _]. rewrite <- E. apply in_map. exact Hx.
Qed.

Lemma grows_sql_delete (i : Z) : grows (sql_delete i).
Proof.
  intros db. unfold sql_delete. cbn [fst]. split; [|cbn [seq]; lia].
  unfold wf, ids. cbn [rows seq]. intros [ND Hseq]. split.
  - apply keys_distinct_after_filter. exact ND.
  - rewrite Forall_forall in *. intros x Hx. apply Hseq.
    apply in_map_iff in Hx as (r & E & Hr).
    apply filter_In in Hr as [Hr _]. rewrite <- E. apply in_map. exact Hr.
Qed.

Create HintDb grows.
#[local] Hint Resolve grows_ret grows_throw grows_throw_if grows_lift
  grows_get_rows grows_saveDatabase grows_bind_real grows_bind_text
  grows_sql_insert grows_sql_update grows_sql_delete : grows.

Ltac grows_tac :=
  repeat first
    [ apply grows_bind; [|intro]
    | solve [auto with grows]
    | match goal with
      | |- grows (if ?b then _ else _) => destruct b
      | |- grows (match ?x with _ => _ end) => destruct x
      end ].

Lemma grows_run_tool (now : string) (req : request) : grows (run_tool now req).
Proof.
  destruct req; cbn [run_tool];
    cbv [addExpense getExpenses getSpendingByCategory
           Monthly.getMonthlySummary updateExpense deleteExpense
           date_filter category_filter
           amount_assignment category_assignment description_assignment
           date_assignment
           sql_select_last sql_select_by_id sql_select_where
           sql_category_stats Monthly.sql_totals Monthly.sql_category_totals
           Monthly.sql_daily_totals];
    grows_tac.
Qed.

Lemma handle_ext (now : string) (req : request) (db : Db) :
  ext db (fst (handle now req db)).
Proof.
  unfold handle. pose proof (grows_run_tool now req db) as H.
  destruct (run_tool now req db) as [db' [e|p]]; exact H.
Qed.

Lemma serve_cons (now : string) (req : request) (rest : list (string * request))
      (db : Db) :
  serve ((now, req) :: rest) db
  = (fst (serve rest (fst (handle now req db))),
     snd (handle now req db) :: snd (serve rest (fst (handle now req db)))).
Proof.
  cbn [serve]. destruct (handle now req db) as [db1 resp]. cbn [fst snd].
  destruct (serve rest db1) as [db2 resps]. reflexivity.
Qed.

Lemma serve_ext (reqs : list (string * request)) (db : Db) :
  ext db (fst (serve reqs db)).
Proof.
  revert db. induction reqs as [|[now req] rest IH]; intros db.
  - apply ext_refl.
  - rewrite serve_cons. cbn [fst].
    eapply ext_trans; [apply handle_ext | apply IH].
Qed.

Lemma serve_app (pre post : list (string * request)) (db : Db) :
  fst (serve (pre ++ post) db) = fst (serve post (fst (serve pre db))).
Proof.
  revert db. induction pre as [|[now req] pre IH]; intros db; [reflexivity|].
  cbn [app]. rewrite !serve_cons. cbn [fst]. apply IH.
Qed.

(** The key a response reports was handed out by this very request. *)
Lemma handle_added_id (now : string) (req : request) (db : Db) (i : Z) :
  In i (added_id (snd (handle now req db))) ->
  seq db < i /\ i = seq (fst (handle now req db)).
Proof.
  unfold handle. destruct req as [a c d dt| | | | |]; cbn [run_tool].
  - destruct (addExpense_cases now a c d dt db)
      as [(_ & e & E)|(_ & q & sc & sd & sdt & _ & _ & _ & _ & E)].
    + rewrite (bind_err _ _ _ _ _ E). cbn. contradiction.
    + cbv zeta in E. rewrite (bind_ok _ _ _ _ _ E).
      cbn [ret fst snd added_id added new_expense In id seq].
      intros [<-|[]]. destruct (next_rowid_fresh db). split; [lia|reflexivity].
  - unfold bind. destruct (getExpenses _ _ _ _ db) as [db' [e|r]]; cbn; contradiction.
  - unfold bind. destruct (getSpendingByCategory _ _ db) as [db' [e|r]]; cbn; contradiction.
  - unfold bind. destruct (Monthly.getMonthlySummary _ _ db) as [db' [e|r]]; cbn; contradiction.
  - unfold bind. destruct (updateExpense _ _ _ _ _ db) as [db' [e|r]]; cbn; contradiction.
  - unfold bind. destruct (deleteExpense _ db) as [db' [e|r]]; cbn; contradiction.
Qed.

Lemma added_id_at_most_one (resp : response) :
  added_id resp = [] \/ exists i, added_id resp = [i].
Proof.
  destruct resp as [[r| | | | |]|]; cbn; auto.
  destruct (new_expense r); eauto.
Qed.

(** Along a session the assigned keys increase, and each lies above the
    counter at the start and at or below the counter at the end. *)
Lemma serve_assigned_ids (reqs : list (string * request)) (db : Db) :
  StronglySorted Z.lt (assigned_ids (snd (serve reqs db))) /\
  Forall (fun i => seq db < i <= seq (fst (serve reqs db)))
    (assigned_ids (snd (serve reqs db))).
Proof.
  revert db. induction reqs as [|[now req] rest IH]; intros db.
  - cbn. split; constructor.
  - rewrite serve_cons. cbn [fst snd assigned_ids flat_map].
    fold (assigned_ids (snd (serve rest (fst (handle now req db))))).
    destruct (IH (fst (handle now req db))) as [Hs Hb].
    pose proof (handle_ext now req db) as [_ Hle1].
    pose proof (serve_ext rest (fst (handle now req db))) as [_ Hle2].
    pose proof (handle_added_id now req db) as Hadd.
    destruct (added_id_at_most_one (snd (handle now req db))) as [E|[i E]];
      rewrite E in *; cbn [app].
    + split; [exact Hs|].
      eapply Forall_impl; [|exact Hb]. cbn beta. intros; lia.
    + destruct (Hadd i (or_introl eq_refl)) as [Hlt Heq].
      split.
      * constructor; [exact Hs|].
        eapply Forall_impl; [|exact Hb]. cbn beta. intros; lia.
      * constructor; [lia|].
        eapply Forall_impl; [|exact Hb]. cbn beta. intros; lia.
Qed.

(** C7. At any point of a session that started from a consistent
    database, an add with acceptable arguments succeeds and assigns a
    key that is greater than every key the table held at any earlier
    moment and greater than every key assigned earlier in the session,
    so that no key of a deleted row comes back; the keys assigned so far
    increase strictly, and the rows of the table keep distinct keys. *)
Theorem add_assigns_fresh_id
        (db : Db) (pre : list (string * request)) (now : string)
        (a c d dt : jsval) :
  wf db ->
  valid_add a c d dt ->
  exists db2 r,
    handle now (add_expense a c d dt) (fst (serve pre db))
      = (db2, Success (Added (added r))) /\
    (forall pre1 pre2, pre = pre1 ++ pre2 ->
       Forall (fun i => i < id r) (ids (fst (serve pre1 db)))) /\
    Forall (fun i => i < id r) (assigned_ids (snd (serve pre db))) /\
    StronglySorted Z.lt (assigned_ids (snd (serve pre db)) ++ [id r]) /\
    In (id r) (ids db2) /\
    NoDup (ids db2).
Proof.
  intros Hwf Hvalid.
  set (db1 := fst (serve pre db)).
  destruct (addExpense_cases now a c d dt db1)
    as [(Hnot & _)|(_ & q & sc & sd & sdt & _ & _ & _ & _ & E)];
    [contradiction|].
  cbv zeta in E.
  set (r := mkExpense (next_rowid db1) q (toLowerCase sc) (trim sd) sdt now) in *.
  exists {| rows := rows db1 ++ [r]; seq := id r |}, r.
  destruct (next_rowid_fresh db1) as [Hlt _].
  destruct (serve_assigned_ids pre db) as [Hsorted Hbound]. fold db1 in Hbound.
  assert (Hold : Forall (fun i => i < id r) (assigned_ids (snd (serve pre db)))).
  { eapply Forall_impl; [|exact Hbound]. cbn beta. cbn [id r]. intros; lia. }
  split; [|split; [|split; [exact Hold|split; [|split]]]].
  - unfold handle. cbn [run_tool]. rewrite (bind_ok _ _ _ _ _ E). reflexivity.
  - intros pre1 pre2 ->.
    destruct (serve_ext pre1 db) as [Hwf1 _]. destruct (Hwf1 Hwf) as [_ Hseq1].
    pose proof (serve_ext pre2 (fst (serve pre1 db))) as [_ Hle].
    rewrite <- serve_app in Hle. fold db1 in Hle.
    eapply Forall_impl; [|exact Hseq1]. cbn beta. cbn [id r]. intros; lia.
  - clear - Hsorted Hold.
    induction Hsorted as [|x l Hs IH Hx]; cbn [app].
    + repeat constructor.
    + inversion Hold; subst. constructor; [auto|].
      apply Forall_app. split; [exact Hx | repeat constructor; assumption].
  - unfold ids. cbn [rows]. rewrite map_app. apply in_or_app. right. left. reflexivity.
  - destruct (serve_ext pre db) as [Hwf1 _]. fold db1 in Hwf1.
    destruct (wf_insert db1 r (Hwf1 Hwf) eq_refl) as [ND _]. exact ND.
Qed.

(** ** Sorting *)

Section SortFacts.
Context {A : Type} (leb : A -> A -> bool).
Hypothesis leb_total : forall a b, leb a b = true \/ leb b a = true.
Hypothesis leb_trans :
  forall a b c, leb a b = true -> leb b c = true -> leb a c = true.

Lemma insert_sorted_perm (x : A) (l : list A) :
  Permutation (insert_sorted leb x l) (x :: l).
Proof.
  induction l as [|y l IH]; cbn [insert_sorted]; [reflexivity|].
  destruct (leb x y); [reflexivity|].
  rewrite IH. apply perm_swap.
Qed.

Lemma order_by_perm (l : list A) : Permutation (order_by leb l) l.
Proof.
  induction l as [|x l IH]; [reflexivity|].
  change (order_by leb (x :: l)) with (insert_sorted leb x (order_by leb l)).
  rewrite insert_sorted_perm. constructor. exact IH.
Qed.

Lemma insert_sorted_sorted (x : A) (l : list A) :
  StronglySorted (fun a b => leb a b = true) l ->
  StronglySorted (fun a b => leb a b = true) (insert_sorted leb x l).
Proof.
  induction 1 as [|y l Hs IH Hy]; cbn [insert_sorted].
  - repeat constructor.
  - destruct (leb x y) eqn:E.
    + constructor; [constructor; assumption|].
      constructor; [exact E|].
      eapply Forall_impl; [|exact Hy]. cbn beta. intros z Hz.
      eapply leb_trans; eassumption.
    + constructor; [exact IH|].
      apply (Permutation_Forall (Permutation_sym (insert_sorted_perm x l))).
      constructor; [|exact Hy].
      destruct (leb_total x y) as [H|H]; [congruence | exact H].
Qed.

Lemma order_by_sorted (l : list A) :
  StronglySorted (fun a b => leb a b = true) (order_by leb l).
Proof.
  induction l as [|x l IH]; [constructor|].
  change (order_by leb (x :: l)) with (insert_sorted leb x (order_by leb l)).
  apply insert_sorted_sorted. exact IH.
Qed.
End SortFacts.

Lemma StronglySorted_impl {A} (R R' : A -> A -> Prop) (l : list A) :
  (forall a b, R a b -> R' a b) ->
  StronglySorted R l -> StronglySorted R' l.
Proof.
  intros H. induction 1 as [|x l Hs IH Hx]; constructor; [exact IH|].
  eapply Forall_impl; [|exact Hx]. apply H.
Qed.

(** ** The order of strings *)

Lemma ascii_compare_trans (a b c : ascii) (o : comparison) :
  Ascii.compare a b = o -> Ascii.compare b c = o -> Ascii.compare a c = o.
Proof.
  unfold Ascii.compare. destruct o; intros H1 H2.
  - apply N.compare_eq_iff in H1, H2. apply N.compare_eq_iff. congruence.
  - rewrite N.compare_lt_iff in *. lia.
  - rewrite N.compare_gt_iff in *. lia.
Qed.

Lemma string_compare_refl (s : string) : String.compare s s = Eq.
Proof.
  induction s as [|a s IH]; [reflexivity|]. cbn [String.compare].
  unfold Ascii.compare. rewrite N.compare_refl. exact IH.
Qed.

Lemma string_compare_gt_trans (s1 s2 s3 : string) :
  String.compare s1 s2 = Gt -> String.compare s2 s3 = Gt ->
  String.compare s1 s3 = Gt.
Proof.
  revert s2 s3. induction s1 as [|a s1 IH]; intros [|b s2] [|c s3];
    cbn [String.compare]; try discriminate; try reflexivity.
  destruct (Ascii.compare a b) eqn:Eab; try discriminate;
    destruct (Ascii.compare b c) eqn:Ebc; try discriminate; intros H1 H2.
  - rewrite (ascii_compare_trans _ _ _ _ Eab Ebc). eapply IH; eassumption.
  - apply Ascii.compare_eq_iff in Eab. subst b. rewrite Ebc. reflexivity.
  - apply Ascii.compare_eq_iff in Ebc. subst c. rewrite Eab. reflexivity.
  - rewrite (ascii_compare_trans _ _ _ _ Eab Ebc). reflexivity.
Qed.

Lemma date_desc_id_desc_iff (a b : expense) :
  date_desc_id_desc a b = true <-> newest_first a b.
Proof.
  unfold date_desc_id_desc, newest_first.
  destruct (String.compare (date a) (date b)) eqn:E.
  - apply String.compare_eq_iff in E. rewrite Z.leb_le.
    split; [intros H; right; split; assumption|].
    intros [H|[_ H]]; [discriminate | exact H].
  - split; [discriminate|].
    intros [H|[H _]]; [discriminate|].
    rewrite H, string_compare_refl in E. discriminate.
  - split; [intros _; left; reflexivity | reflexivity].
Qed.

Lemma date_desc_id_desc_total (a b : expense) :
  date_desc_id_desc a b = true \/ date_desc_id_desc b a = true.
Proof.
  unfold date_desc_id_desc. rewrite (String.compare_antisym (date b) (date a)).
  destruct (String.compare (date a) (date b)); cbn [CompOpp]; auto.
  rewrite !Z.leb_le. lia.
Qed.

Lemma date_desc_id_desc_trans (a b c : expense) :
  date_desc_id_desc a b = true -> date_desc_id_desc b c = true ->
  date_desc_id_desc a c = true.
Proof.
  rewrite !date_desc_id_desc_iff. unfold newest_first.
  intros [H1|[E1 L1]] [H2|[E2 L2]].
  - left. eapply string_compare_gt_trans; eassumption.
  - left. rewrite <- E2. exact H1.
  - left. rewrite E1. exact H2.
  - right. split; [congruence | lia].
Qed.

(** ** [getExpenses] *)

Lemma as_array_first_result {A} (l : list A) :
  as_array (first_result l (RMany [])) = l.
Proof. destruct l as [|a [|b l]]; reflexivity. Qed.

Lemma count_first_result {A} (l : list A) :
  match first_result l (RMany []) with
  | RMany l' => length l'
  | ROne _ => 1%nat
  | RNull => 0%nat
  end = length l.
Proof. destruct l as [|a [|b l]]; reflexivity. Qed.

Lemma valid_date_truthy (v : jsval) :
  isValidDate v = true -> exists s, v = JStr s /\ truthy v = true.
Proof.
  destruct v as [| | | |s| |]; try discriminate. cbn [isValidDate].
  intros H. exists s. split; [reflexivity|].
  destruct s; [discriminate H | reflexivity].
Qed.

Lemma valid_category_truthy (v : jsval) :
  isValidCategory v = inr true -> exists s, v = JStr s /\ truthy v = true.
Proof.
  destruct v as [| | | |s| |]; try discriminate.
  intros H. exists s. split; [reflexivity|].
  destruct s; [discriminate H | reflexivity].
Qed.

Lemma date_filter_valid (mk : string -> where_term) (v : jsval) (err : string)
      (db : Db) :
  valid_date_filter v ->
  date_filter mk (default_null v) err db
  = (db, inr match v with JStr s => [mk s] | _ => [] end).
Proof.
  intros [->|[->|H]]; try reflexivity.
  destruct (valid_date_truthy v H) as (s & -> & Ht).
  unfold date_filter. cbn [default_null]. rewrite Ht, H. reflexivity.
Qed.

Lemma category_filter_valid (v : jsval) (db : Db) :
  valid_category_filter v ->
  category_filter (default_null v) db
  = (db, inr match v with JStr c => [CategoryEq (toLowerCase c)] | _ => [] end).
Proof.
  intros [->|[->|H]]; try reflexivity.
  destruct (valid_category_truthy v H) as (s & -> & Ht).
  unfold category_filter. cbn [default_null]. rewrite Ht.
  rewrite H. reflexivity.
Qed.

Lemma where_holds_matches (s e c : jsval) (r : expense) :
  where_holds
    (match s with JStr x => [DateGe x] | _ => [] end
     ++ match e with JStr x => [DateLe x] | _ => [] end
     ++ match c with JStr x => [CategoryEq (toLowerCase x)] | _ => [] end) r
  = matches_filter s e c r.
Proof.
  unfold where_holds, matches_filter.
  rewrite !forallb_app.
  destruct s, e, c; cbn [forallb term_holds];
    rewrite ?andb_true_r, ?andb_true_l, ?andb_assoc; reflexivity.
Qed.

(** C3. With acceptable filters [getExpenses] succeeds and leaves the
    database alone; its rows are the first [limit] (100 when no limit is
    given) of a list that holds exactly the rows passing the filter of
    the specification, each once, ordered by date descending and, on
    equal dates, by id descending; [count] is the number of rows
    returned. *)
Theorem getExpenses_filters_orders_limits
        (db : Db) (startDate endDate cat : jsval) (limit : option Z) :
  valid_date_filter startDate ->
  valid_date_filter endDate ->
  valid_category_filter cat ->
  0 <= limit_of limit ->
  exists full,
    Permutation full (filter (matches_filter startDate endDate cat) (rows db)) /\
    StronglySorted newest_first full /\
    getExpenses startDate endDate cat limit db
    = (db, inr {| count := length (firstn (Z.to_nat (limit_of limit)) full);
                  expenses := firstn (Z.to_nat (limit_of limit)) full |}).
Proof.
  intros Hs He Hc Hl.
  exists (order_by date_desc_id_desc
            (filter (matches_filter startDate endDate cat) (rows db))).
  split; [apply order_by_perm|].
  split.
  { eapply StronglySorted_impl.
    2: apply (order_by_sorted date_desc_id_desc date_desc_id_desc_total
                date_desc_id_desc_trans).
    intros a b H. apply date_desc_id_desc_iff. exact H. }
  unfold getExpenses. cbv zeta.
  rewrite (bind_ok _ _ _ _ _ (date_filter_valid DateGe startDate _ db Hs)).
  rewrite (bind_ok _ _ _ _ _ (date_filter_valid DateLe endDate _ db He)).
  rewrite (bind_ok _ _ _ _ _ (category_filter_valid cat db Hc)).
  cbv [sql_select_where bind get_rows ret].
  rewrite as_array_first_result, count_first_result.
  rewrite (filter_ext _ _ (where_holds_matches startDate endDate cat)).
  unfold sql_limit, limit_of, default_limit in *.
  destruct limit as [n|].
  - destruct (Z.ltb_spec n 0); [lia | reflexivity].
  - reflexivity.
Qed.

(** ** Arguments that [getExpenses] refuses, and those it does not *)


Lemma date_filter_passes (mk : string -> where_term) (v : jsval) (err : string)
      (db : Db) :
  date_passes v ->
  exists q, date_filter mk (default_null v) err db = (db, inr q).
Proof.
  intros [H|H].
  - unfold date_filter. rewrite H. eexists; reflexivity.
  - exists (match v with JStr s => [mk s] | _ => [] end).
    apply date_filter_valid. right; right; exact H.
Qed.



(** ** [isValidCategory] on values that are not strings *)

(** C10, as stated, fails: [getExpenses] skips a category that is
    [null] or the number 0, [updateExpense] skips a category that is
    [null], and [addExpense] refuses an invalid amount before it looks
    at the category; none of them surfaces a [TypeError]. *)
Lemma non_string_category_skipped :
  is_string JNull = false /\
  is_string (JNum (Fin 0)) = false /\
  getExpenses JUndefined JUndefined JNull None sample_db
  = (sample_db, inr sample_listing) /\
  getExpenses JUndefined JUndefined (JNum (Fin 0)) None sample_db
  = (sample_db, inr sample_listing) /\
  snd (updateExpense 1 (JNum (Fin 12)) JNull JUndefined JUndefined sample_db)
  = inr {| update_message := "Expense updated successfully";
           updated_expense :=
             ROne (mkExpense 1 12 "food" "lunch" "2024-11-03"
                     "2024-11-03 12:00:00") |} /\
  addExpense "2024-11-05 09:00:00" (JNum (Fin (-1))) (JNum (Fin 0))
    (JStr "coffee") (JStr "2024-11-05") sample_db
  = (sample_db, inl (Error "Amount must be a positive number")).
Proof. repeat split. Qed.

Lemma isValidCategory_non_string (v : jsval) :
  is_string v = false ->
  exists m, isValidCategory v = inl (TypeError m) /\
            m <> invalid_category_message.
Proof.
  destruct v; cbn [is_string isValidCategory]; try discriminate; intros _;
    eexists; (split; [reflexivity | discriminate]).
Qed.

Lemma select_by_id_found (db : Db) (i : Z) :
  In i (ids db) ->
  is_RNull (first_result (filter (fun r => id r =? i) (rows db)) RNull) = false.
Proof.
  intros H. unfold ids in H. apply in_map_iff in H as (r & E & Hr).
  assert (Hin : In r (filter (fun x => id x =? i) (rows db))).
  { apply filter_In. split; [exact Hr | apply Z.eqb_eq; exact E]. }
  destruct (filter (fun x => id x =? i) (rows db)) as [|x [|y l]];
    [contradiction | reflexivity | reflexivity].
Qed.

(** C10, amended. [isValidCategory] throws a [TypeError] on every value
    that is not a string, and never returns [false] there.  A tool that
    reaches the check with such a category fails with that [TypeError],
    whose message is not the category validation message: [addExpense]
    once the amount is valid, [getExpenses] when the dates pass and the
    category is a value it does not skip, [updateExpense] on an existing
    row when the category is supplied and the amount is valid or not
    supplied. *)
Theorem non_string_category_raises_TypeError :
  (forall v, is_string v = false ->
     exists m, isValidCategory v = inl (TypeError m) /\
               m <> invalid_category_message) /\
  (forall now a c d dt db,
     is_string c = false -> isValidAmount a = true ->
     exists m, addExpense now a c d dt db = (db, inl (TypeError m)) /\
               m <> invalid_category_message) /\
  (forall s e c limit db,
     is_string c = false -> truthy c = true ->
     date_passes s -> date_passes e ->
     exists m, getExpenses s e c limit db = (db, inl (TypeError m)) /\
               m <> invalid_category_message) /\
  (forall i a c d dt db,
     is_string c = false -> supplied c = true ->
     In i (ids db) ->
     (supplied a = false \/ isValidAmount a = true) ->
     exists m, updateExpense i a c d dt db = (db, inl (TypeError m)) /\
               m <> invalid_category_message).
Proof.
  split; [exact isValidCategory_non_string|].
  split; [|split].
  - intros now a c d dt db Hc Ha.
    destruct (isValidCategory_non_string c Hc) as (m & E & Hm).
    exists m. split; [|exact Hm].
    unfold addExpense. rewrite Ha, E. reflexivity.
  - intros s e c limit db Hc Ht Hs He.
    destruct (isValidCategory_non_string c Hc) as (m & E & Hm).
    exists m. split; [|exact Hm].
    unfold getExpenses. cbv zeta.
    destruct (date_filter_passes DateGe s
                "Invalid start date format. Use YYYY-MM-DD" db Hs) as [q1 E1].
    destruct (date_filter_passes DateLe e
                "Invalid end date format. Use YYYY-MM-DD" db He) as [q2 E2].
    rewrite (bind_ok _ _ _ _ _ E1), (bind_ok _ _ _ _ _ E2).
    assert (E3 : category_filter (default_null c) db = (db, inl (TypeError m))).
    { unfold category_filter.
      destruct c; try discriminate Ht; try discriminate Hc;
        cbn [default_null]; rewrite Ht, E; reflexivity. }
    rewrite (bind_err _ _ _ _ _ E3). reflexivity.
  - intros i a c d dt db Hc Hsup Hi Ha.
    destruct (isValidCategory_non_string c Hc) as (m & E & Hm).
    exists m. split; [|exact Hm].
    unfold updateExpense. cbv zeta.
    rewrite (bind_ok _ _ _ _ _ (sql_select_by_id_eq _ _)).
    rewrite (select_by_id_found db i Hi). run.
    assert (Ea : exists u, amount_assignment (default_null a) db = (db, inr u)).
    { destruct (amount_assignment_cases (default_null a) db)
        as [(_ & Ea)|[(_ & q & _ & _ & Ea)|(Na & Ia & _)]];
        [eexists; exact Ea | eexists; exact Ea |].
      exfalso. destruct Ha as [Ha|Ha].
      - unfold supplied in Ha. rewrite Na in Ha. discriminate.
      - rewrite (default_null_id a Na) in Ia. congruence. }
    destruct Ea as [u Ea]. rewrite (bind_ok _ _ _ _ _ Ea).
    assert (Ec : category_assignment (default_null c) db = (db, inl (TypeError m))).
    { unfold category_assignment, supplied in *.
      destruct (is_null (default_null c)) eqn:N; [discriminate Hsup|].
      rewrite (default_null_id c N). cbn [negb]. rewrite E. reflexivity. }
    rewrite (bind_err _ _ _ _ _ Ec). reflexivity.
Qed.

(** ** [getMonthlySummary] *)

(** A string between two strings that share a prefix has that prefix. *)
Lemma between_prefix (p a b s : string) :
  String.leb (p +++ a) s = true -> String.leb s (p +++ b) = true ->
  exists t, s = p +++ t.
Proof.
  revert s. induction p as [|c p IH]; intros s H1 H2.
  - exists s. reflexivity.
  - destruct s as [|c' s]; [discriminate H1|].
    unfold String.leb in *. cbn [String.append String.compare] in *.
    rewrite (Ascii.compare_antisym c' c) in H2.
    destruct (Ascii.compare c c') eqn:E; cbn [CompOpp] in *; try discriminate.
    apply Ascii.compare_eq_iff in E. subst c'.
    destruct (IH s H1 H2) as [t ->]. exists t. reflexivity.
Qed.

Lemma string_of_year (y : Z) :
  1000 <= y < 10000 -> string_of_Z y = JSDate.pad 4 y.
Proof.
  intros H. apply String.eqb_eq.
  assert (H' : (y <? 1000) || String.eqb (string_of_Z y) (JSDate.pad 4 y) = true).
  { apply (forallb_range
             (fun y => (y <? 1000) || String.eqb (string_of_Z y) (JSDate.pad 4 y))
             10000); [vm_compute; reflexivity | lia]. }
  apply orb_true_iff in H' as [H'|H']; [|exact H'].
  apply Z.ltb_lt in H'. lia.
Qed.

(** Whole numbers among the numbers. *)
Lemma Qlt_bool_inject_Z (a b : Z) :
  Qlt_bool (inject_Z a) (inject_Z b) = (a <? b).
Proof.
  unfold Qlt_bool, Qle_bool. cbn [inject_Z Qnum Qden].
  rewrite !Z.mul_1_r. symmetry. apply Z.ltb_antisym.
Qed.

Lemma Qeq_bool_inject_Z (a b : Z) :
  Qeq_bool (inject_Z a) (inject_Z b) = (a =? b).
Proof.
  unfold Qeq_bool. cbn [inject_Z Qnum Qden].
  rewrite !Z.mul_1_r. reflexivity.
Qed.

Lemma truncate_inject_Z (z : Z) : JSNumber.truncate (inject_Z z) = z.
Proof.
  unfold JSNumber.truncate.
  change 0%Q with (inject_Z 0). rewrite Qlt_bool_inject_Z.
  destruct (z <? 0).
  - rewrite <- inject_Z_opp, Qfloor_Z. lia.
  - apply Qfloor_Z.
Qed.

(** [String(z)] of a whole number up to 2100 is its decimal numeral. *)
Lemma toString_inject_Z (z : Z) :
  0 <= z <= 2100 -> JSNumber.toString (inject_Z z) = string_of_Z z.
Proof.
  intros H. apply String.eqb_eq.
  apply (forallb_range
           (fun z => String.eqb (JSNumber.toString (inject_Z z)) (string_of_Z z))
           2101); [vm_compute; reflexivity | lia].
Qed.

Lemma year_check_inject_Z (y : Z) :
  Qeq_bool (inject_Z y) 0 || Qlt_bool (inject_Z y) 2000
  || Qlt_bool 2100 (inject_Z y)
  = (y =? 0) || (y <? 2000) || (y >? 2100).
Proof.
  change 0%Q with (inject_Z 0). change 2000%Q with (inject_Z 2000).
  change 2100%Q with (inject_Z 2100).
  rewrite Qeq_bool_inject_Z, !Qlt_bool_inject_Z, Z.gtb_ltb. reflexivity.
Qed.

Lemma month_check_inject_Z (m : Z) :
  Qeq_bool (inject_Z m) 0 || Qlt_bool (inject_Z m) 1
  || Qlt_bool 12 (inject_Z m)
  = (m =? 0) || (m <? 1) || (m >? 12).
Proof.
  change 0%Q with (inject_Z 0). change 1%Q with (inject_Z 1).
  change 12%Q with (inject_Z 12).
  rewrite Qeq_bool_inject_Z, !Qlt_bool_inject_Z, Z.gtb_ltb. reflexivity.
Qed.

Lemma getMonthName_inject_Z (m : Z) :
  1 <= m <= 12 ->
  Monthly.getMonthName (inject_Z m)
  = nth (Z.to_nat (m - 1))
      ["January"; "February"; "March"; "April"; "May"; "June"; "July";
       "August"; "September"; "October"; "November"; "December"]%string
      "Unknown"%string.
Proof.
  intros H. apply String.eqb_eq.
  assert (E : (m <? 1)
              || String.eqb (Monthly.getMonthName (inject_Z m))
                   (nth (Z.to_nat (m - 1))
                      ["January"; "February"; "March"; "April"; "May"; "June";
                       "July"; "August"; "September"; "October"; "November";
                       "December"]%string "Unknown"%string) = true).
  { apply (forallb_range
             (fun m => (m <? 1)
                       || String.eqb (Monthly.getMonthName (inject_Z m))
                            (nth (Z.to_nat (m - 1))
                               ["January"; "February"; "March"; "April"; "May";
                                "June"; "July"; "August"; "September"; "October";
                                "November"; "December"]%string "Unknown"%string))
             13); [vm_compute; reflexivity | lia]. }
  apply orb_true_iff in E as [E|E]; [|exact E].
  apply Z.ltb_lt in E. lia.
Qed.

Lemma month_start_prefix (y m : Z) :
  2000 <= y <= 2100 -> 1 <= m <= 12 ->
  Monthly.month_start (inject_Z y) (inject_Z m) = month_prefix y m +++ "01".
Proof.
  intros Hy Hm. unfold Monthly.month_start, month_prefix.
  rewrite !toString_inject_Z by lia.
  rewrite string_of_year by lia.
  change (padStart 2 "0" (string_of_Z m)) with (JSDate.pad 2 m).
  rewrite pad4_digits, pad2_digits by lia. reflexivity.
Qed.

Lemma month_end_prefix (y m : Z) :
  2000 <= y <= 2100 -> 1 <= m <= 12 ->
  Monthly.month_end (inject_Z y) (inject_Z m)
  = month_prefix y m +++ JSDate.pad 2 (JSDate.last_day_of_month y m).
Proof.
  intros Hy Hm. unfold Monthly.month_end, month_prefix.
  rewrite !toString_inject_Z, !truncate_inject_Z by lia.
  rewrite string_of_year by lia.
  change (padStart 2 "0" (string_of_Z m)) with (JSDate.pad 2 m).
  rewrite pad4_digits, pad2_digits by lia. reflexivity.
Qed.

Lemma month_start_first_day (y m : Z) :
  2000 <= y <= 2100 -> 1 <= m <= 12 ->
  Monthly.month_start (inject_Z y) (inject_Z m) = first_day y m.
Proof. intros Hy Hm. rewrite month_start_prefix by assumption. reflexivity. Qed.

Lemma month_end_last_day (y m : Z) :
  2000 <= y <= 2100 -> 1 <= m <= 12 ->
  Monthly.month_end (inject_Z y) (inject_Z m) = last_day y m.
Proof.
  intros Hy Hm. rewrite month_end_prefix by assumption.
  pose proof (days_in_month_bounds y m).
  unfold JSDate.last_day_of_month, last_day, DateSpec.canonical_form, month_prefix.
  rewrite pad2_digits by lia. reflexivity.
Qed.

(** A valid date between the first and the last day of a month, as
    strings, is a day of that month. *)
Lemma within_month_in_month (y m : Z) (s : string) :
  2000 <= y <= 2100 -> 1 <= m <= 12 ->
  DateSpec.dateIsValid s ->
  within_month y m s ->
  date_in_month y m s.
Proof.
  intros Hy Hm (_ & y' & m' & d' & Hreal & Hc) [H1 H2].
  rewrite <- month_start_first_day, month_start_prefix in H1 by assumption.
  rewrite <- month_end_last_day, month_end_prefix in H2 by assumption.
  destruct (between_prefix _ _ _ _ H1 H2) as [t Ht].
  rewrite <- Hc in Ht.
  pose proof (days_in_month_bounds y' m') as Hdim.
  destruct Hreal as (Hy' & Hm' & Hd').
  unfold DateSpec.canonical_form, month_prefix in Ht.
  cbn [string_of_list_ascii String.append] in Ht.
  injection Ht as E. intros.
  repeat match goal with
         | H : DateSpec.digit_char _ = DateSpec.digit_char _ |- _ =>
             apply (f_equal digit_val) in H;
             rewrite !digit_val_char in H by (Z.div_mod_to_equations; lia)
         end.
  assert (y' = y) by (Z.div_mod_to_equations; lia).
  assert (m' = m) by (Z.div_mod_to_equations; lia).
  subst y' m'. exists d'. split; [repeat split; lia | symmetry; exact Hc].
Qed.

Lemma filter_none {A} (f : A -> bool) (l : list A) :
  (forall x, In x l -> f x = false) -> filter f l = [].
Proof.
  induction l as [|a l IH]; intros H; [reflexivity|]. cbn [filter].
  rewrite (H a (or_introl eq_refl)). apply IH. intros x Hx. apply H. right. exact Hx.
Qed.

(** C9. For a year in 2000..2100 and a month in 1..12 in which no
    stored date falls, the monthly summary succeeds, leaves the database
    alone and reports no transaction, a total of 0, and empty category
    and daily breakdowns. *)
Theorem getMonthlySummary_empty_month (db : Db) (year month : Z) :
  2000 <= year <= 2100 ->
  1 <= month <= 12 ->
  no_date_in_month db year month ->
  exists res,
    Monthly.getMonthlySummary (inject_Z year) (inject_Z month) db
    = (db, inr res) /\
    Monthly.total_transactions (Monthly.summary_of res) = 0 /\
    Monthly.total_spending (Monthly.summary_of res) = 0%Q /\
    Monthly.category_breakdown res = [] /\
    Monthly.daily_spending res = [].
Proof.
  intros Hy Hm Hnone.
  assert (Hempty : filter (Monthly.in_range
                             (Monthly.month_start (inject_Z year) (inject_Z month))
                             (Monthly.month_end (inject_Z year) (inject_Z month)))
                     (rows db) = []).
  { apply filter_none. intros r Hr.
    destruct (Monthly.in_range _ _ r) eqn:E; [|reflexivity].
    exfalso. unfold Monthly.in_range in E. apply andb_true_iff in E.
    rewrite month_start_first_day, month_end_last_day in E by assumption.
    destruct Hnone as [Hnone|[Hvalid Hnone]]; apply (Hnone r Hr); [exact E|].
    apply within_month_in_month; auto. }
  unfold Monthly.getMonthlySummary.
  rewrite year_check_inject_Z, month_check_inject_Z.
  replace ((year =? 0) || (year <? 2000) || (year >? 2100)) with false
    by (symmetry; repeat (apply orb_false_iff; split); lia).
  replace ((month =? 0) || (month <? 1) || (month >? 12)) with false
    by (symmetry; repeat (apply orb_false_iff; split); lia).
  run.
  cbv [Monthly.sql_totals Monthly.sql_category_totals Monthly.sql_daily_totals
         bind get_rows ret].
  rewrite Hempty.
  eexists. split; [reflexivity|].
  repeat split.
Qed.

(** ** Doubles *)

Module DoubleFacts.
Import Double.

Lemma pow2_pos (e : Z) : (0 < pow2 e)%Q.
Proof. apply Qpower_0_lt. reflexivity. Qed.

Lemma pow2_add (a b : Z) : (pow2 (a + b) == pow2 a * pow2 b)%Q.
Proof. apply Qpower_plus. discriminate. Qed.

Lemma pow2_succ (a : Z) : (pow2 (a + 1) == 2 * pow2 a)%Q.
Proof. rewrite pow2_add. change (pow2 1) with 2%Q. ring. Qed.

Lemma pow2_le (a b : Z) : a <= b -> (pow2 a <= pow2 b)%Q.
Proof. intros H. apply Qpower_le_compat_l; [exact H | discriminate]. Qed.

Lemma pow2_lt (a b : Z) : a < b -> (pow2 a < pow2 b)%Q.
Proof. intros H. apply Qpower_lt_compat_l; [exact H | reflexivity]. Qed.

Lemma pow2_Z (n : Z) : 0 <= n -> (pow2 n == inject_Z (2 ^ n))%Q.
Proof. intros H. symmetry. apply (Zpower_Qpower 2 n H). Qed.

Lemma ilog2_spec (x : Q) :
  (0 < x)%Q -> (pow2 (ilog2 x) <= x < pow2 (ilog2 x + 1))%Q.
Proof.
  intros Hx. unfold ilog2.
  destruct x as [n d]. cbn [Qnum Qden].
  assert (Hn : 0 < n) by (unfold Qlt in Hx; cbn in Hx; lia).
  set (ln := Z.log2 n). set (ld := Z.log2 (Z.pos d)).
  pose proof (Z.log2_spec n Hn) as Hln. fold ln in Hln.
  pose proof (Z.log2_spec (Z.pos d) eq_refl) as Hld. fold ld in Hld.
  pose proof (Z.log2_nonneg n) as Hln0. fold ln in Hln0.
  pose proof (Z.log2_nonneg (Z.pos d)) as Hld0. fold ld in Hld0.
  set (e := ln - ld).
  assert (HA : (pow2 e * pow2 ld == pow2 ln)%Q).
  { rewrite <- pow2_add. unfold e. replace (ln - ld + ld) with ln by lia. reflexivity. }
  assert (HN1 : (pow2 ln <= inject_Z n)%Q).
  { rewrite pow2_Z by lia. rewrite <- Zle_Qle. lia. }
  assert (HN2 : (inject_Z n < 2 * pow2 ln)%Q).
  { rewrite <- pow2_succ. rewrite pow2_Z by lia. rewrite <- Zlt_Qlt.
    unfold Z.succ in Hln. lia. }
  assert (HD1 : (pow2 ld <= inject_Z (Z.pos d))%Q).
  { rewrite pow2_Z by lia. rewrite <- Zle_Qle. lia. }
  assert (HD2 : (inject_Z (Z.pos d) < 2 * pow2 ld)%Q).
  { rewrite <- pow2_succ. rewrite pow2_Z by lia. rewrite <- Zlt_Qlt.
    unfold Z.succ in Hld. lia. }
  assert (Hx' : (n # d == inject_Z n / inject_Z (Z.pos d))%Q) by apply Qmake_Qdiv.
  pose proof (pow2_pos e) as He. pose proof (pow2_pos ld) as Hld'.
  pose proof (pow2_pos (e - 1)) as He1.
  assert (HD0 : (0 < inject_Z (Z.pos d))%Q) by (rewrite <- (Zlt_Qlt 0); lia).
  assert (Hxd : ((n # d) * inject_Z (Z.pos d) == inject_Z n)%Q).
  { rewrite Hx'. field. intros H. rewrite H in HD0. discriminate HD0. }
  assert (Hhalf : (2 * pow2 (e - 1) == pow2 e)%Q).
  { rewrite <- pow2_succ. replace (e - 1 + 1) with e by lia. reflexivity. }
  set (X := (n # d)%Q) in *. set (D := inject_Z (Z.pos d)) in *.
  set (N := inject_Z n) in *.
  destruct (Qle_bool (pow2 e) X) eqn:E.
  - apply Qle_bool_iff in E. split; [exact E|].
    rewrite pow2_succ.
    apply (Qmult_lt_r _ _ D HD0). rewrite Hxd.
    apply (Qlt_le_trans _ (2 * pow2 ln)); [exact HN2|].
    rewrite <- HA. nra.
  - assert (E' : (X < pow2 e)%Q).
    { apply Qnot_le_lt. intros H. apply Qle_bool_iff in H. congruence. }
    replace (e - 1 + 1) with e by lia. split; [|exact E'].
    apply Qlt_le_weak.
    apply (Qmult_lt_r _ _ D HD0). rewrite Hxd.
    apply (Qlt_le_trans _ (pow2 ln)); [|exact HN1].
    rewrite <- HA. rewrite <- Hhalf. nra.
Qed.

Lemma ilog2_unique (x : Q) (e : Z) :
  (pow2 e <= x < pow2 (e + 1))%Q -> ilog2 x = e.
Proof.
  intros [H1 H2].
  assert (Hx : (0 < x)%Q) by (pose proof (pow2_pos e); lra).
  destruct (ilog2_spec x Hx) as [H3 H4].
  destruct (Z.lt_trichotomy (ilog2 x) e) as [H|[H|H]]; [|exact H|].
  - assert (L : (pow2 (ilog2 x + 1) <= pow2 e)%Q) by (apply pow2_le; lia). lra.
  - assert (L : (pow2 (e + 1) <= pow2 (ilog2 x))%Q) by (apply pow2_le; lia). lra.
Qed.

Lemma ilog2_proper (x y : Q) : (0 < x)%Q -> (x == y)%Q -> ilog2 x = ilog2 y.
Proof.
  intros Hx E. symmetry. apply ilog2_unique. rewrite <- E. apply ilog2_spec. exact Hx.
Qed.

Lemma ilog2_mono (x y : Q) : (0 < x)%Q -> (x <= y)%Q -> ilog2 x <= ilog2 y.
Proof.
  intros Hx Hxy.
  destruct (ilog2_spec x Hx) as [H1 H2].
  destruct (ilog2_spec y ltac:(lra)) as [H3 H4].
  destruct (Z_le_gt_dec (ilog2 x) (ilog2 y)) as [H|H]; [exact H|].
  assert (L : (pow2 (ilog2 y + 1) <= pow2 (ilog2 x))%Q) by (apply pow2_le; lia). lra.
Qed.


Lemma floor_bounds (x : Q) :
  (inject_Z (Qfloor x) <= x < inject_Z (Qfloor x) + 1)%Q.
Proof.
  split; [apply Qfloor_le|].
  pose proof (Qlt_floor x) as H. rewrite inject_Z_plus in H. exact H.
Qed.

Lemma inject_Z_succ (k : Z) : (inject_Z (k + 1) == inject_Z k + 1)%Q.
Proof. rewrite inject_Z_plus. reflexivity. Qed.

Lemma rhe_floor (x : Q) :
  Qfloor x <= round_half_even x <= Qfloor x + 1.
Proof.
  unfold round_half_even.
  destruct (x - inject_Z (Qfloor x) ?= 1 # 2)%Q; [destruct (Z.even _)| |]; lia.
Qed.

Lemma rhe_err (x : Q) : (Qabs (inject_Z (round_half_even x) - x) <= 1 # 2)%Q.
Proof.
  unfold round_half_even. destruct (floor_bounds x) as [H1 H2].
  apply Qabs_Qle_condition.
  destruct (Qcompare_spec (x - inject_Z (Qfloor x)) (1 # 2)) as [E|E|E].
  - destruct (Z.even (Qfloor x)); [|rewrite inject_Z_succ]; lra.
  - lra.
  - rewrite inject_Z_succ. lra.
Qed.

Lemma rhe_int (k : Z) : round_half_even (inject_Z k) = k.
Proof.
  unfold round_half_even. rewrite Qfloor_Z.
  destruct (Qcompare_spec (inject_Z k - inject_Z k) (1 # 2)) as [E|E|E];
    [lra | reflexivity | lra].
Qed.

Lemma rhe_proper (x y : Q) : (x == y)%Q -> round_half_even x = round_half_even y.
Proof.
  intros E. unfold round_half_even.
  rewrite (Qfloor_comp _ _ E).
  assert (E' : (x - inject_Z (Qfloor y) == y - inject_Z (Qfloor y))%Q)
    by (rewrite E; reflexivity).
  rewrite (Qcompare_comp _ _ E' (1 # 2) (1 # 2) (Qeq_refl _)). reflexivity.
Qed.

Lemma rhe_le_int (x : Q) (k : Z) : (x <= inject_Z k)%Q -> round_half_even x <= k.
Proof.
  intros H. pose proof (Qfloor_resp_le _ _ H) as Hf. rewrite Qfloor_Z in Hf.
  destruct (Z.eq_dec (Qfloor x) k) as [E|N].
  - assert (Ex : (x == inject_Z k)%Q).
    { destruct (floor_bounds x) as [H1 _]. rewrite E in H1. lra. }
    rewrite (rhe_proper _ _ Ex), rhe_int. lia.
  - pose proof (rhe_floor x). lia.
Qed.

Lemma rhe_ge_int (x : Q) (k : Z) : (inject_Z k <= x)%Q -> k <= round_half_even x.
Proof.
  intros H. pose proof (Qfloor_resp_le _ _ H) as Hf. rewrite Qfloor_Z in Hf.
  pose proof (rhe_floor x). lia.
Qed.

Lemma rhe_mono (x y : Q) : (x <= y)%Q -> round_half_even x <= round_half_even y.
Proof.
  intros H. pose proof (Qfloor_resp_le _ _ H) as Hf.
  destruct (Z.eq_dec (Qfloor x) (Qfloor y)) as [E|N].
  - unfold round_half_even. rewrite E.
    destruct (Qcompare_spec (x - inject_Z (Qfloor y)) (1 # 2)) as [E1|E1|E1];
      destruct (Qcompare_spec (y - inject_Z (Qfloor y)) (1 # 2)) as [E2|E2|E2];
      try destruct (Z.even (Qfloor y)); try lia; lra.
  - pose proof (rhe_floor x). pose proof (rhe_floor y). lia.
Qed.

(** ** The nearest double *)

Lemma Qabs_nonzero (x : Q) : ~ (x == 0)%Q -> (0 < Qabs x)%Q.
Proof.
  intros H. destruct (Qlt_le_dec 0 (Qabs x)) as [L|L]; [exact L|].
  exfalso. apply H. apply Qabs_Qle_condition in L. lra.
Qed.

Lemma ulp_exp_proper (x y : Q) : ~ (x == 0)%Q -> (x == y)%Q -> ulp_exp x = ulp_exp y.
Proof.
  intros Hx E. unfold ulp_exp. f_equal. f_equal.
  apply ilog2_proper; [apply Qabs_nonzero; exact Hx | rewrite E; reflexivity].
Qed.

Lemma nearest_proper (x y : Q) : (x == y)%Q -> (nearest x == nearest y)%Q.
Proof.
  intros E. unfold nearest.
  destruct (Qeq_bool x 0) eqn:Hx.
  - apply Qeq_bool_iff in Hx. rewrite E in Hx. apply Qeq_bool_iff in Hx.
    rewrite Hx. reflexivity.
  - assert (Hx' : ~ (x == 0)%Q) by (apply Qeq_bool_neq; exact Hx).
    assert (Hy : Qeq_bool y 0 = false).
    { destruct (Qeq_bool y 0) eqn:Hy; [|reflexivity].
      apply Qeq_bool_iff in Hy. rewrite <- E in Hy. contradiction. }
    rewrite Hy, (ulp_exp_proper x y Hx' E).
    rewrite (rhe_proper (x / pow2 (ulp_exp y)) (y / pow2 (ulp_exp y)))
      by (rewrite E; reflexivity).
    reflexivity.
Qed.

#[global] Instance nearest_morphism : Proper (Qeq ==> Qeq) nearest.
Proof. intros x y E. apply nearest_proper. exact E. Qed.

Lemma round64_nearest (x : Q) : (round64 x == nearest x)%Q.
Proof.
  unfold round64. rewrite Qred_correct. apply nearest_proper. apply Qred_correct.
Qed.

Lemma round64_proper (x y : Q) : (x == y)%Q -> round64 x = round64 y.
Proof. intros E. unfold round64. rewrite (Qred_complete _ _ E). reflexivity. Qed.

#[global] Instance round64_morphism : Proper (Qeq ==> Qeq) round64.
Proof. intros x y E. rewrite (round64_proper x y E). reflexivity. Qed.

Lemma nearest_pos_eq (x : Q) :
  (0 < x)%Q ->
  nearest x
  = (inject_Z (round_half_even (x / pow2 (ulp_exp x))) * pow2 (ulp_exp x))%Q.
Proof.
  intros H. unfold nearest.
  destruct (Qeq_bool x 0) eqn:E; [|reflexivity].
  apply Qeq_bool_iff in E. lra.
Qed.

Lemma ulp_exp_pos (x : Q) :
  (0 < x)%Q -> ulp_exp x = Z.max (ilog2 x - 52) (-1074).
Proof.
  intros H. unfold ulp_exp. f_equal. f_equal.
  apply ilog2_proper; [rewrite Qabs_pos; lra | apply Qabs_pos; lra].
Qed.

Lemma scaled (x : Q) (e : Z) : (x / pow2 e * pow2 e == x)%Q.
Proof. pose proof (pow2_pos e). field. lra. Qed.

(** The error of rounding is at most half a unit in the last place. *)
Lemma nearest_error (x : Q) :
  (0 < x)%Q -> (Qabs (nearest x - x) <= pow2 (ulp_exp x) * (1 # 2))%Q.
Proof.
  intros H. rewrite nearest_pos_eq by exact H.
  set (e := ulp_exp x). pose proof (pow2_pos e) as He.
  pose proof (rhe_err (x / pow2 e)) as Herr.
  apply Qabs_Qle_condition in Herr. apply Qabs_Qle_condition.
  pose proof (scaled x e) as Hs.
  set (m := inject_Z (round_half_even (x / pow2 e))) in *.
  set (y := (x / pow2 e)%Q) in *. set (p := pow2 e) in *.
  split; nra.
Qed.

(** A multiple of the unit in the last place bounds the rounded value
    as it bounds the argument. *)
Lemma nearest_le_grid (x : Q) (k : Z) :
  (0 < x)%Q -> (x <= inject_Z k * pow2 (ulp_exp x))%Q ->
  (nearest x <= inject_Z k * pow2 (ulp_exp x))%Q.
Proof.
  intros H Hk. rewrite nearest_pos_eq by exact H.
  set (e := ulp_exp x) in *. pose proof (pow2_pos e) as He.
  assert (L : round_half_even (x / pow2 e) <= k).
  { apply rhe_le_int. apply Qle_shift_div_r; [exact He | exact Hk]. }
  apply Qmult_le_compat_r; [|lra]. rewrite <- Zle_Qle. exact L.
Qed.

Lemma nearest_ge_grid (x : Q) (k : Z) :
  (0 < x)%Q -> (inject_Z k * pow2 (ulp_exp x) <= x)%Q ->
  (inject_Z k * pow2 (ulp_exp x) <= nearest x)%Q.
Proof.
  intros H Hk. rewrite nearest_pos_eq by exact H.
  set (e := ulp_exp x) in *. pose proof (pow2_pos e) as He.
  assert (L : k <= round_half_even (x / pow2 e)).
  { apply rhe_ge_int. apply Qle_shift_div_l; [exact He | exact Hk]. }
  apply Qmult_le_compat_r; [|lra]. rewrite <- Zle_Qle. exact L.
Qed.

Lemma pow2_split (a b : Z) :
  b <= a -> (pow2 a == inject_Z (2 ^ (a - b)) * pow2 b)%Q.
Proof.
  intros H. rewrite <- pow2_Z by lia. rewrite <- pow2_add.
  replace (a - b + b) with a by lia. reflexivity.
Qed.

Lemma nearest_nonneg (x : Q) : (0 <= x)%Q -> (0 <= nearest x)%Q.
Proof.
  intros H. apply Qle_lteq in H as [H|H].
  - pose proof (nearest_ge_grid x 0 H) as L.
    rewrite Qmult_0_l in L. apply L. lra.
  - rewrite <- (nearest_proper 0 x H). discriminate.
Qed.

Lemma nearest_mono (x y : Q) :
  (0 <= x)%Q -> (x <= y)%Q -> (nearest x <= nearest y)%Q.
Proof.
  intros Hx Hxy. apply Qle_lteq in Hx as [Hx|Hx].
  2:{ rewrite <- (nearest_proper 0 x Hx). apply nearest_nonneg. lra. }
  assert (Hy : (0 < y)%Q) by lra.
  pose proof (ilog2_mono x y Hx Hxy) as Hl.
  destruct (Z.eq_dec (ulp_exp x) (ulp_exp y)) as [E|N].
  - rewrite !nearest_pos_eq by assumption. rewrite E.
    pose proof (pow2_pos (ulp_exp y)) as He.
    apply Qmult_le_compat_r; [|lra]. rewrite <- Zle_Qle. apply rhe_mono.
    apply Qmult_le_compat_r; [exact Hxy|].
    apply Qlt_le_weak, Qinv_lt_0_compat. exact He.
  - rewrite (ulp_exp_pos x Hx), (ulp_exp_pos y Hy) in N.
    assert (Hlt : ilog2 x < ilog2 y) by lia.
    assert (Hey : ulp_exp y = ilog2 y - 52) by (rewrite ulp_exp_pos by exact Hy; lia).
    destruct (ilog2_spec x Hx) as [_ Hx2]. destruct (ilog2_spec y Hy) as [Hy1 _].
    apply (Qle_trans _ (pow2 (ilog2 y))).
    + assert (Hex : ulp_exp x <= ilog2 y) by (rewrite ulp_exp_pos by exact Hx; lia).
      rewrite (pow2_split (ilog2 y) (ulp_exp x) Hex).
      apply nearest_le_grid; [exact Hx|].
      rewrite <- (pow2_split (ilog2 y) (ulp_exp x) Hex).
      apply Qlt_le_weak. apply (Qlt_le_trans _ _ _ Hx2). apply pow2_le. lia.
    + assert (Hex : ulp_exp y <= ilog2 y) by lia.
      rewrite (pow2_split (ilog2 y) (ulp_exp y) Hex).
      apply nearest_ge_grid; [exact Hy|].
      rewrite <- (pow2_split (ilog2 y) (ulp_exp y) Hex). exact Hy1.
Qed.


(** ** Which numbers are doubles *)

Lemma ulp_exp_min (x : Q) : -1074 <= ulp_exp x.
Proof. unfold ulp_exp. lia. Qed.

Lemma nearest_on_grid (x : Q) : on_grid (nearest x).
Proof.
  unfold nearest. destruct (Qeq_bool x 0).
  - exists 0. rewrite Qmult_0_l. reflexivity.
  - pose proof (ulp_exp_min x) as H.
    exists (round_half_even (x / pow2 (ulp_exp x)) * 2 ^ (ulp_exp x - -1074)).
    pose proof (pow2_split (ulp_exp x) (-1074) H) as P.
    rewrite inject_Z_mult.
    transitivity (inject_Z (round_half_even (x / pow2 (ulp_exp x)))
                  * (inject_Z (2 ^ (ulp_exp x - -1074)) * pow2 (-1074)))%Q;
      [|ring].
    apply Qmult_comp; [reflexivity | exact P].
Qed.

Lemma on_grid_plus (x y : Q) : on_grid x -> on_grid y -> on_grid (x + y).
Proof.
  intros [k Hk] [j Hj]. exists (k + j). rewrite Hk, Hj, inject_Z_plus. ring.
Qed.

Lemma on_grid_proper (x y : Q) : (x == y)%Q -> on_grid x -> on_grid y.
Proof. intros E [k Hk]. exists k. rewrite <- E. exact Hk. Qed.

Lemma on_grid_0 : on_grid 0.
Proof. exists 0. rewrite Qmult_0_l. reflexivity. Qed.

Lemma is_double_on_grid (x : Q) : is_double x -> on_grid x.
Proof.
  intros H. apply (on_grid_proper (nearest x)).
  - rewrite <- round64_nearest. exact H.
  - apply nearest_on_grid.
Qed.

(** A value that sits on its own last place is not changed. *)
Lemma nearest_exact (x : Q) (k : Z) :
  (0 < x)%Q -> (x == inject_Z k * pow2 (ulp_exp x))%Q -> (nearest x == x)%Q.
Proof.
  intros Hx Hk. rewrite nearest_pos_eq by exact Hx.
  pose proof (pow2_pos (ulp_exp x)) as He.
  assert (E : (x / pow2 (ulp_exp x) == inject_Z k)%Q).
  { rewrite Hk at 1. field. lra. }
  rewrite (rhe_proper _ _ E), rhe_int. symmetry. exact Hk.
Qed.

Lemma ilog2_lt (x : Q) (e : Z) : (0 < x)%Q -> (x < pow2 e)%Q -> ilog2 x < e.
Proof.
  intros Hx H. destruct (ilog2_spec x Hx) as [H1 _].
  destruct (Z_lt_ge_dec (ilog2 x) e) as [L|L]; [exact L|].
  assert (P : (pow2 e <= pow2 (ilog2 x))%Q) by (apply pow2_le; lia). lra.
Qed.

Lemma nearest_fixed (m e : Z) :
  0 <= m <= 2 ^ 53 -> -1074 <= e ->
  (nearest (inject_Z m * pow2 e) == inject_Z m * pow2 e)%Q.
Proof.
  intros Hm He.
  destruct (Z.eq_dec m 0) as [->|Hm0].
  { change (inject_Z 0) with 0%Q. rewrite Qmult_0_l. reflexivity. }
  set (y := (inject_Z m * pow2 e)%Q).
  pose proof (pow2_pos e) as Pe.
  assert (Hm1 : (1 <= inject_Z m)%Q) by (rewrite <- (Zle_Qle 1); lia).
  assert (Hy : (0 < y)%Q) by (unfold y; nra).
  destruct (Z.eq_dec m (2 ^ 53)) as [E|N].
  - assert (Ey : (y == pow2 (53 + e))%Q).
    { unfold y. rewrite E, pow2_add. rewrite <- pow2_Z by lia. reflexivity. }
    assert (El : ilog2 y = 53 + e).
    { apply ilog2_unique. rewrite Ey. split; [lra|]. apply pow2_lt. lia. }
    assert (Eu : ulp_exp y = e + 1) by (rewrite ulp_exp_pos by exact Hy; lia).
    apply (nearest_exact y (2 ^ 52) Hy). rewrite Eu, Ey.
    rewrite <- pow2_Z by lia. rewrite <- pow2_add. replace (52 + (e + 1)) with (53 + e) by lia. reflexivity.
  - assert (Hlt : (y < pow2 (53 + e))%Q).
    { unfold y. rewrite pow2_add, (pow2_Z 53) by lia.
      apply Qmult_lt_compat_r; [exact Pe|]. rewrite <- Zlt_Qlt. lia. }
    pose proof (ilog2_lt y (53 + e) Hy Hlt) as Hl.
    assert (Hu : ulp_exp y <= e) by (rewrite ulp_exp_pos by exact Hy; lia).
    apply (nearest_exact y (m * 2 ^ (e - ulp_exp y)) Hy).
    pose proof (pow2_split e (ulp_exp y) Hu) as P.
    rewrite inject_Z_mult.
    transitivity (inject_Z m * (inject_Z (2 ^ (e - ulp_exp y)) * pow2 (ulp_exp y)))%Q;
      [|ring].
    unfold y at 1. apply Qmult_comp; [reflexivity | exact P].
Qed.


Lemma nearest_idempotent (x : Q) :
  (0 <= x)%Q -> (nearest (nearest x) == nearest x)%Q.
Proof.
  intros H. apply Qle_lteq in H as [H|H].
  2:{ rewrite <- H. reflexivity. }
  rewrite (nearest_pos_eq x H).
  set (e := ulp_exp x). pose proof (pow2_pos e) as Pe.
  apply nearest_fixed; [|apply ulp_exp_min].
  split.
  - apply rhe_ge_int. apply Qle_shift_div_l; [exact Pe|].
    change (inject_Z 0) with 0%Q. lra.
  - apply rhe_le_int. apply Qle_shift_div_r; [exact Pe|].
    destruct (ilog2_spec x H) as [_ H2].
    assert (Hle : ilog2 x + 1 <= 53 + e).
    { unfold e. rewrite ulp_exp_pos by exact H. lia. }
    rewrite <- pow2_Z by lia. rewrite <- pow2_add.
    apply Qlt_le_weak. apply (Qlt_le_trans _ _ _ H2). apply pow2_le. exact Hle.
Qed.

Lemma round64_is_double (x : Q) : (0 <= x)%Q -> is_double (round64 x).
Proof.
  intros H. unfold is_double. rewrite !round64_nearest. apply nearest_idempotent. exact H.
Qed.

Lemma round64_nonneg (x : Q) : (0 <= x)%Q -> (0 <= round64 x)%Q.
Proof. intros H. rewrite round64_nearest. apply nearest_nonneg. exact H. Qed.

Lemma round64_mono (x y : Q) : (0 <= x)%Q -> (x <= y)%Q -> (round64 x <= round64 y)%Q.
Proof. intros Hx H. rewrite !round64_nearest. apply nearest_mono; assumption. Qed.

(** A rounded value that is a multiple of [2^-1074] has a relative error
    of at most [u]: below [2^-1022] it is not changed at all. *)
Lemma round64_relative (x : Q) :
  (0 < x)%Q -> on_grid x -> (Qabs (round64 x - x) <= u * x)%Q.
Proof.
  intros Hx [k Hk]. rewrite round64_nearest.
  destruct (Z.eq_dec (ulp_exp x) (-1074)) as [E|N].
  - assert (Ex : (nearest x == x)%Q).
    { apply (nearest_exact x k Hx). rewrite E. exact Hk. }
    rewrite Ex. setoid_replace (x - x)%Q with 0%Q by ring.
    change (Qabs 0) with 0%Q. pose proof (pow2_pos (-53)). unfold u.
    apply Qmult_le_0_compat; lra.
  - pose proof (nearest_error x Hx) as Herr.
    assert (Eu : ulp_exp x = ilog2 x - 52).
    { rewrite ulp_exp_pos in * by exact Hx. lia. }
    rewrite Eu in Herr.
    destruct (ilog2_spec x Hx) as [H1 _].
    assert (P : (pow2 (ilog2 x - 52) * (1 # 2) == u * pow2 (ilog2 x))%Q).
    { unfold u. rewrite <- pow2_add.
      replace (-53 + ilog2 x) with (ilog2 x - 53) by lia.
      pose proof (pow2_succ (ilog2 x - 53)) as S.
      replace (ilog2 x - 53 + 1) with (ilog2 x - 52) in S by lia.
      rewrite S. field. }
    rewrite P in Herr. pose proof (pow2_pos (-53)) as U. fold u in U.
    apply (Qle_trans _ _ _ Herr). apply Qmult_le_l; [exact U | exact H1].
Qed.

Lemma u_pos : (0 < u)%Q.
Proof. apply pow2_pos. Qed.

Lemma u_lt_1 : (u < 1)%Q.
Proof. reflexivity. Qed.

Lemma add_bounds (s a : Q) :
  (0 <= s)%Q -> (0 < a)%Q -> on_grid s -> on_grid a ->
  ((1 - u) * (s + a) <= add s a <= (1 + u) * (s + a))%Q.
Proof.
  intros Hs Ha Gs Ga.
  assert (Hx : (0 < s + a)%Q) by lra.
  pose proof (round64_relative (s + a) Hx (on_grid_plus _ _ Gs Ga)) as H.
  apply Qabs_Qle_condition in H. unfold add. lra.
Qed.

Lemma add_is_double (s a : Q) : (0 <= s)%Q -> (0 <= a)%Q -> is_double (add s a).
Proof. intros Hs Ha. apply round64_is_double. lra. Qed.

Lemma add_ge_l (s a : Q) :
  (0 <= s)%Q -> (0 <= a)%Q -> is_double s -> (s <= add s a)%Q.
Proof.
  intros Hs Ha Ds. unfold is_double in Ds. rewrite <- Ds at 1.
  apply round64_mono; lra.
Qed.

Lemma add_ge_r (s a : Q) :
  (0 <= s)%Q -> (0 <= a)%Q -> is_double a -> (a <= add s a)%Q.
Proof.
  intros Hs Ha Da. unfold is_double in Da. rewrite <- Da at 1.
  apply round64_mono; lra.
Qed.

Lemma Qsum_nonneg (l : list Q) : Forall amount_ok l -> (0 <= Qsum l)%Q.
Proof.
  induction 1 as [|a l [Ha _] _ IH]; cbn [Qsum fold_right]; [lra|].
  fold (Qsum l). lra.
Qed.

Lemma qpow_succ (x : Q) (n : nat) :
  ~ (x == 0)%Q -> (x ^ Z.of_nat (S n) == x * x ^ Z.of_nat n)%Q.
Proof.
  intros H. rewrite Nat2Z.inj_succ. unfold Z.succ.
  rewrite Z.add_comm, Qpower_plus by exact H. reflexivity.
Qed.

Lemma fold_add_bounds (l : list Q) (s : Q) :
  Forall amount_ok l -> (0 <= s)%Q -> is_double s ->
  ((1 - u) ^ Z.of_nat (length l) * (s + Qsum l)
   <= fold_left add l s
   <= (1 + u) ^ Z.of_nat (length l) * (s + Qsum l))%Q /\
  (s <= fold_left add l s)%Q /\
  is_double (fold_left add l s) /\
  Forall (fun a => (a <= fold_left add l s)%Q) l.
Proof.
  intros Hl. revert s.
  induction Hl as [|a l [Ha Da] Hl IH]; intros s Hs Ds.
  - cbn [length fold_left Qsum fold_right Z.of_nat].
    change ((1 - u) ^ 0)%Q with 1%Q. change ((1 + u) ^ 0)%Q with 1%Q.
    repeat split; try lra; [exact Ds | constructor].
  - cbn [fold_left]. cbn [Qsum fold_right]. fold (Qsum l).
    pose proof (Qsum_nonneg l Hl) as HS.
    pose proof u_pos as U. pose proof u_lt_1 as U1.
    pose proof (add_bounds s a Hs Ha (is_double_on_grid s Ds)
                  (is_double_on_grid a Da)) as [B1 B2].
    pose proof (add_ge_l s a Hs (Qlt_le_weak _ _ Ha) Ds) as G1.
    pose proof (add_ge_r s a Hs (Qlt_le_weak _ _ Ha) Da) as G2.
    assert (Hs' : (0 <= add s a)%Q) by lra.
    destruct (IH (add s a) Hs' (add_is_double s a Hs (Qlt_le_weak _ _ Ha)))
      as ([I1 I2] & I3 & I4 & I5).
    replace (length (a :: l)) with (S (length l)) by reflexivity.
    rewrite !qpow_succ by (intros E; lra).
    assert (P1 : (0 <= (1 - u) ^ Z.of_nat (length l))%Q)
      by (apply Qpower_0_le; lra).
    assert (P2 : (0 <= (1 + u) ^ Z.of_nat (length l))%Q)
      by (apply Qpower_0_le; lra).
    set (p1 := ((1 - u) ^ Z.of_nat (length l))%Q) in *.
    set (p2 := ((1 + u) ^ Z.of_nat (length l))%Q) in *.
    set (r := fold_left add l (add s a)) in *.
    set (S := Qsum l) in *. set (t := add s a) in *.
    repeat split.
    + apply (Qle_trans _ (p1 * (t + S))); [|exact I1].
      setoid_replace ((1 - u) * p1 * (s + (a + S)))%Q
        with (p1 * ((1 - u) * (s + a) + (1 - u) * S))%Q by ring.
      assert (L : ((1 - u) * (s + a) + (1 - u) * S <= t + S)%Q) by nra.
      rewrite !(Qmult_comm p1). apply Qmult_le_compat_r; assumption.
    + apply (Qle_trans _ (p2 * (t + S))); [exact I2|].
      setoid_replace ((1 + u) * p2 * (s + (a + S)))%Q
        with (p2 * ((1 + u) * (s + a) + (1 + u) * S))%Q by ring.
      assert (L : (t + S <= (1 + u) * (s + a) + (1 + u) * S)%Q) by nra.
      rewrite !(Qmult_comm p2). apply Qmult_le_compat_r; assumption.
    + lra.
    + exact I4.
    + constructor; [lra | exact I5].
Qed.


Lemma round64_error_below (x : Q) (E : Z) :
  (0 < x)%Q -> (x < pow2 (E + 1))%Q -> -1022 <= E ->
  (Qabs (round64 x - x) <= pow2 (E - 53))%Q.
Proof.
  intros Hx Hlt HE. rewrite round64_nearest.
  pose proof (nearest_error x Hx) as Herr.
  pose proof (ilog2_lt x (E + 1) Hx Hlt) as Hl.
  assert (Hu : ulp_exp x <= E - 52) by (rewrite ulp_exp_pos by exact Hx; lia).
  apply (Qle_trans _ _ _ Herr).
  pose proof (pow2_le _ _ Hu) as P.
  pose proof (pow2_succ (E - 53)) as S.
  replace (E - 53 + 1) with (E - 52) in S by lia.
  pose proof (pow2_pos (E - 53)). lra.
Qed.

Lemma round64_1 : round64 1 = 1%Q.
Proof. reflexivity. Qed.

Lemma round64_100 : round64 100 = 100%Q.
Proof. reflexivity. Qed.

(** [(g / T) * 100] in doubles, for [0 < g <= T]: the result lies
    between 0 and 100 and within [2^-45] of the exact value. *)
Lemma percentage_bounds (g T : Q) :
  (0 < g)%Q -> (g <= T)%Q ->
  (0 <= mul (div g T) 100 <= 100)%Q /\
  (Qabs (mul (div g T) 100 - g / T * 100) <= pow2 (-45))%Q.
Proof.
  intros Hg HT. unfold mul, div.
  assert (Hq : (0 < g / T <= 1)%Q).
  { split; [apply Qlt_shift_div_l; lra | apply Qle_shift_div_r; lra]. }
  set (q := (g / T)%Q) in *. clearbody q.
  assert (Hq1 : (0 <= round64 q <= 1)%Q).
  { split; [apply round64_nonneg; lra|].
    apply (Qle_trans _ (round64 1)); [apply round64_mono; lra|].
    rewrite round64_1. lra. }
  assert (Eq1 : (Qabs (round64 q - q) <= pow2 (-53))%Q).
  { apply (round64_error_below q 0); [lra | | lia].
    change (pow2 (0 + 1)) with 2%Q. lra. }
  set (q' := round64 q) in *. clearbody q'.
  assert (Hp : (0 <= round64 (q' * 100) <= 100)%Q).
  { split; [apply round64_nonneg; lra|].
    apply (Qle_trans _ (round64 100)); [apply round64_mono; lra|].
    rewrite round64_100. lra. }
  split; [exact Hp|].
  assert (Eq2 : (Qabs (round64 (q' * 100) - q' * 100) <= pow2 (-47))%Q).
  { destruct Hq1 as [Hq0 Hq1]. apply Qle_lteq in Hq0 as [Hq0|Hq0].
    - apply (round64_error_below (q' * 100) 6); [lra | | lia].
      change (pow2 (6 + 1)) with 128%Q. lra.
    - assert (Z0 : (q' * 100 == 0)%Q) by (rewrite <- Hq0; ring).
      rewrite (round64_proper _ _ Z0). setoid_replace (round64 0 - q' * 100)%Q with 0%Q
        by (rewrite Z0; reflexivity).
      discriminate. }
  apply Qabs_Qle_condition in Eq1. apply Qabs_Qle_condition in Eq2.
  apply Qabs_Qle_condition.
  assert (P53 : (pow2 (-53) == 1 # 9007199254740992)%Q) by reflexivity.
  assert (P47 : (pow2 (-47) == 1 # 140737488355328)%Q) by reflexivity.
  assert (P45 : (pow2 (-45) == 1 # 35184372088832)%Q) by reflexivity.
  rewrite P53 in Eq1. rewrite P47 in Eq2. rewrite P45.
  set (p := round64 (q' * 100)) in *. clearbody p.
  lra.
Qed.

End DoubleFacts.

(** ** Sums *)

Lemma Qsum_perm (l l' : list Q) : Permutation l l' -> (Qsum l == Qsum l')%Q.
Proof.
  induction 1 as [|x l l' HP IH|x y l|l l' l'' HP1 IH1 HP2 IH2];
    cbn [Qsum fold_right].
  - reflexivity.
  - fold (Qsum l). fold (Qsum l'). rewrite IH. reflexivity.
  - fold (Qsum l). lra.
  - etransitivity; eassumption.
Qed.

Lemma Qsum_app (l1 l2 : list Q) : (Qsum (l1 ++ l2) == Qsum l1 + Qsum l2)%Q.
Proof.
  induction l1 as [|x l1 IH]; cbn [app Qsum fold_right].
  - fold (Qsum l2). lra.
  - fold (Qsum (l1 ++ l2)). fold (Qsum l1). rewrite IH. lra.
Qed.

Lemma or_zero_some (q : Q) : (or_zero (Some q) == q)%Q.
Proof.
  cbn [or_zero]. destruct (Qeq_bool q 0) eqn:E; [|reflexivity].
  apply Qeq_bool_eq in E. symmetry. exact E.
Qed.

Lemma Qsum_concat (ls : list (list Q)) :
  (Qsum (concat ls) == Qsum (map Qsum ls))%Q.
Proof.
  induction ls as [|l ls IH]; cbn [concat map]; [reflexivity|].
  rewrite Qsum_app, IH. reflexivity.
Qed.

(** ** [GROUP BY] *)

Section GroupFacts.
Context (key : expense -> string).

Lemma add_to_group_perm (r : expense) (gs : list (string * list expense)) :
  Permutation (concat (map snd (add_to_group key r gs)))
              (concat (map snd gs) ++ [r]).
Proof.
  induction gs as [|[k ms] gs IH]; cbn [add_to_group map concat snd app].
  - reflexivity.
  - destruct (String.eqb k (key r)); cbn [map concat snd].
    + rewrite <- !app_assoc. apply Permutation_app_head.
      apply Permutation_app_comm.
    + rewrite IH. rewrite app_assoc. reflexivity.
Qed.

Lemma group_fold_perm (l : list expense) (acc : list (string * list expense)) :
  Permutation
    (concat (map snd (fold_left (fun gs r => add_to_group key r gs) l acc)))
    (concat (map snd acc) ++ l).
Proof.
  revert acc. induction l as [|r l IH]; intros acc; cbn [fold_left].
  - rewrite app_nil_r. reflexivity.
  - rewrite IH, add_to_group_perm, <- app_assoc. reflexivity.
Qed.

Lemma group_by_perm (l : list expense) :
  Permutation (concat (map snd (group_by key l))) l.
Proof. unfold group_by. rewrite group_fold_perm. reflexivity. Qed.

Lemma members_snoc (k : string) (l : list expense) (r : expense) :
  members key k (l ++ [r])
  = members key k l ++ (if String.eqb k (key r) then [r] else []).
Proof.
  unfold members. rewrite filter_app. cbn [filter].
  destruct (String.eqb k (key r)); reflexivity.
Qed.

Lemma add_to_group_keys (r : expense) (gs : list (string * list expense)) (k : string) :
  In k (map fst (add_to_group key r gs)) <-> k = key r \/ In k (map fst gs).
Proof.
  induction gs as [|[k0 ms] gs IH]; cbn [add_to_group map fst In].
  - intuition.
  - destruct (String.eqb_spec k0 (key r)) as [E|E]; cbn [map fst In].
    + subst k0. intuition.
    + rewrite IH. intuition.
Qed.

Lemma add_to_group_NoDup (r : expense) (gs : list (string * list expense)) :
  NoDup (map fst gs) -> NoDup (map fst (add_to_group key r gs)).
Proof.
  induction gs as [|[k0 ms] gs IH]; cbn [add_to_group map fst]; intros ND.
  - repeat constructor. intros [].
  - inversion ND as [|? ? Hnot ND']; subst.
    destruct (String.eqb_spec k0 (key r)) as [E|E]; cbn [map fst].
    + constructor; assumption.
    + constructor; [|auto].
      rewrite add_to_group_keys. intros [H|H]; [congruence | contradiction].
Qed.

Lemma add_to_group_members (done : list expense) (r : expense)
      (gs : list (string * list expense)) :
  NoDup (map fst gs) ->
  Forall (fun g => snd g = members key (fst g) done) gs ->
  (~ In (key r) (map fst gs) -> members key (key r) done = []) ->
  Forall (fun g => snd g = members key (fst g) (done ++ [r]))
         (add_to_group key r gs).
Proof.
  induction gs as [|[k0 ms] gs IH]; cbn [add_to_group map fst];
    intros ND HF Hnew.
  - repeat constructor. cbn [fst snd]. rewrite members_snoc, String.eqb_refl.
    rewrite Hnew by (intros []). reflexivity.
  - inversion ND as [|? ? Hnot ND']; subst.
    inversion HF as [|? ? Hhd Htl]; subst. cbn [fst snd] in Hhd.
    destruct (String.eqb_spec k0 (key r)) as [E|E].
    + constructor.
      * cbn [fst snd]. rewrite members_snoc. subst k0.
        rewrite String.eqb_refl, Hhd. reflexivity.
      * rewrite Forall_forall in *. intros g Hg. rewrite members_snoc.
        destruct (String.eqb_spec (fst g) (key r)) as [E'|E'].
        -- exfalso. apply Hnot. rewrite E, <- E'. apply in_map. exact Hg.
        -- rewrite app_nil_r. apply Htl. exact Hg.
    + constructor.
      * cbn [fst snd]. rewrite members_snoc.
        destruct (String.eqb_spec k0 (key r)); [contradiction|].
        rewrite app_nil_r. exact Hhd.
      * apply IH; [exact ND' | exact Htl|].
        intros Hn. apply Hnew. cbn [In]. intros [H|H]; [congruence | contradiction].
Qed.

(** Each group holds the rows with its key, in their order. *)
Lemma group_fold_members (l done : list expense)
      (acc : list (string * list expense)) :
  NoDup (map fst acc) ->
  Forall (fun g => snd g = members key (fst g) done) acc ->
  (forall x, In x done -> In (key x) (map fst acc)) ->
  Forall (fun g => snd g = members key (fst g) (done ++ l))
         (fold_left (fun gs r => add_to_group key r gs) l acc).
Proof.
  revert done acc. induction l as [|r l IH]; intros done acc ND HF Hcov;
    cbn [fold_left].
  - rewrite app_nil_r. exact HF.
  - replace (done ++ r :: l) with ((done ++ [r]) ++ l)
      by (rewrite <- app_assoc; reflexivity).
    apply IH.
    + apply add_to_group_NoDup. exact ND.
    + apply add_to_group_members; [exact ND | exact HF|].
      intros Hn. apply filter_none. intros x Hx.
      apply String.eqb_neq. intros E. apply Hn. rewrite E. apply Hcov. exact Hx.
    + intros x Hx. apply add_to_group_keys.
      apply in_app_or in Hx as [Hx|[<-|[]]]; [right; apply Hcov; exact Hx | left; reflexivity].
Qed.

Lemma group_by_members (l : list expense) :
  Forall (fun g => snd g = members key (fst g) l) (group_by key l).
Proof.
  unfold group_by.
  apply (group_fold_members l [] []); [constructor | constructor | intros x []].
Qed.
End GroupFacts.

(** ** Keys of groups *)

Section GroupKeys.
Context (key : expense -> string).

Lemma group_fold_keys (l : list expense) (acc : list (string * list expense))
      (k : string) :
  In k (map fst (fold_left (fun gs r => add_to_group key r gs) l acc))
  <-> In k (map fst acc) \/ exists x, In x l /\ key x = k.
Proof.
  revert acc. induction l as [|r l IH]; intros acc; cbn [fold_left].
  - split; [auto | intros [H|(x & [] & _)]; exact H].
  - rewrite IH, add_to_group_keys. split.
    + intros [[->|H]|(x & Hx & E)].
      * right. exists r. split; [left; reflexivity | reflexivity].
      * left. exact H.
      * right. exists x. split; [right; exact Hx | exact E].
    + intros [H|(x & [<-|Hx] & E)].
      * left. right. exact H.
      * left. left. symmetry. exact E.
      * right. exists x. split; assumption.
Qed.

Lemma group_by_keys (l : list expense) (k : string) :
  In k (map fst (group_by key l)) <-> exists x, In x l /\ key x = k.
Proof.
  unfold group_by. rewrite group_fold_keys. cbn [map In]. tauto.
Qed.

Lemma group_fold_NoDup (l : list expense) (acc : list (string * list expense)) :
  NoDup (map fst acc) ->
  NoDup (map fst (fold_left (fun gs r => add_to_group key r gs) l acc)).
Proof.
  revert acc. induction l as [|r l IH]; intros acc ND; cbn [fold_left];
    [exact ND|].
  apply IH. apply add_to_group_NoDup. exact ND.
Qed.

Lemma group_by_NoDup (l : list expense) : NoDup (map fst (group_by key l)).
Proof. unfold group_by. apply group_fold_NoDup. constructor. Qed.

(** No group is empty. *)
Lemma group_by_nonempty (l : list expense) (g : string * list expense) :
  In g (group_by key l) -> snd g <> [].
Proof.
  intros Hg.
  pose proof (group_by_members key l) as Hmem.
  rewrite Forall_forall in Hmem. rewrite (Hmem g Hg).
  assert (Hk : In (fst g) (map fst (group_by key l))) by (apply in_map; exact Hg).
  apply group_by_keys in Hk as (x & Hx & E).
  intros Hempty.
  assert (Hin : In x (members key (fst g) l)).
  { unfold members. apply filter_In. split; [exact Hx|].
    rewrite E. apply String.eqb_refl. }
  rewrite Hempty in Hin. contradiction.
Qed.
End GroupKeys.

Section SqlGroupFacts.
Context (key : expense -> string).

Lemma sql_group_by_perm (l : list expense) :
  Permutation (sql_group_by key l) (group_by key l).
Proof. apply order_by_perm. Qed.

Lemma sql_group_by_rows (l : list expense) :
  Permutation (concat (map snd (sql_group_by key l))) l.
Proof.
  rewrite <- !flat_map_concat_map.
  rewrite (Permutation_flat_map snd (sql_group_by_perm l)).
  rewrite flat_map_concat_map. apply group_by_perm.
Qed.

Lemma sql_group_by_In (l : list expense) (g : string * list expense) :
  In g (sql_group_by key l) <-> In g (group_by key l).
Proof.
  split; apply Permutation_in;
    [apply sql_group_by_perm | apply Permutation_sym, sql_group_by_perm].
Qed.

Lemma sql_group_by_members (l : list expense) :
  Forall (fun g => snd g = members key (fst g) l) (sql_group_by key l).
Proof.
  pose proof (group_by_members key l) as H. rewrite Forall_forall in *.
  intros g Hg. apply H. apply sql_group_by_In. exact Hg.
Qed.

Lemma sql_group_by_keys (l : list expense) (k : string) :
  In k (map fst (sql_group_by key l)) <-> exists x, In x l /\ key x = k.
Proof.
  rewrite <- group_by_keys. split; apply Permutation_in;
    [apply Permutation_map, sql_group_by_perm
    | apply Permutation_map, Permutation_sym, sql_group_by_perm].
Qed.

Lemma sql_group_by_NoDup (l : list expense) :
  NoDup (map fst (sql_group_by key l)).
Proof.
  apply (Permutation_NoDup
           (Permutation_map fst (Permutation_sym (sql_group_by_perm l)))).
  apply group_by_NoDup.
Qed.

Lemma sql_group_by_nonempty (l : list expense) (g : string * list expense) :
  In g (sql_group_by key l) -> snd g <> [].
Proof. intros H. apply (group_by_nonempty key l). apply sql_group_by_In. exact H. Qed.

(** There are no more groups than rows. *)
Lemma sql_group_by_length (l : list expense) :
  (length (sql_group_by key l) <= length l)%nat.
Proof.
  rewrite <- (Permutation_length (sql_group_by_rows l)).
  pose proof (sql_group_by_nonempty l) as H.
  induction (sql_group_by key l) as [|g gs IH]; [cbn; lia|].
  cbn [map concat length]. rewrite length_app.
  assert (Hg : snd g <> []) by (apply H; left; reflexivity).
  assert (L : (length gs <= length (concat (map snd gs)))%nat)
    by (apply IH; intros g' Hg'; apply H; right; exact Hg').
  destruct (snd g); [contradiction | cbn [length]; lia].
Qed.
End SqlGroupFacts.

(** ** [getSpendingByCategory] *)

Lemma toFixed_rounds (x : Q) :
  (Qabs (inject_Z (toFixed_hundredths x) / 100 - Qabs x) <= 1 # 200)%Q.
Proof.
  unfold toFixed_hundredths.
  pose proof (Qfloor_le (Qabs x * 100 + (1 # 2))) as H1.
  pose proof (Qlt_floor (Qabs x * 100 + (1 # 2))) as H2.
  rewrite inject_Z_plus in H2.
  change (inject_Z 1) with 1%Q in H2.
  apply Qabs_Qle_condition.
  set (n := inject_Z (Qfloor (Qabs x * 100 + (1 # 2)))) in *.
  set (a := Qabs x) in *.
  unfold Qdiv. change (/ 100)%Q with (1 # 100)%Q.
  split; lra.
Qed.




Lemma filter_filter {A} (f g : A -> bool) (l : list A) :
  filter f (filter g l) = filter (fun x => f x && g x) l.
Proof.
  induction l as [|a l IH]; [reflexivity|]. cbn [filter].
  destruct (g a); cbn [filter]; rewrite IH, ?andb_true_r, ?andb_false_r;
    destruct (f a); reflexivity.
Qed.

(** *** Sums of doubles *)

Lemma u_bounds : (0 < Double.u < 1)%Q.
Proof. split; reflexivity. Qed.

Lemma pow_up_ge_1 (n : nat) : (1 <= (1 + Double.u) ^ Z.of_nat n)%Q.
Proof.
  pose proof u_bounds as U.
  induction n as [|n IH]; [discriminate|].
  rewrite DoubleFacts.qpow_succ by (intros E; lra). nra.
Qed.

Lemma pow_down_le_1 (n : nat) : (0 <= (1 - Double.u) ^ Z.of_nat n <= 1)%Q.
Proof.
  pose proof u_bounds as U.
  induction n as [|n IH]; [split; discriminate|].
  rewrite DoubleFacts.qpow_succ by (intros E; lra). nra.
Qed.

Lemma pow_up_mono (n m : nat) :
  (n <= m)%nat -> ((1 + Double.u) ^ Z.of_nat n <= (1 + Double.u) ^ Z.of_nat m)%Q.
Proof.
  intros H. pose proof u_bounds as U.
  replace m with (n + (m - n))%nat by lia.
  rewrite Nat2Z.inj_add, Qpower_plus by (intros E; lra).
  pose proof (pow_up_ge_1 n). pose proof (pow_up_ge_1 (m - n)). nra.
Qed.

Lemma pow_down_mono (n m : nat) :
  (n <= m)%nat -> ((1 - Double.u) ^ Z.of_nat m <= (1 - Double.u) ^ Z.of_nat n)%Q.
Proof.
  intros H. pose proof u_bounds as U.
  replace m with (n + (m - n))%nat by lia.
  rewrite Nat2Z.inj_add, Qpower_plus by (intros E; lra).
  pose proof (pow_down_le_1 n). pose proof (pow_down_le_1 (m - n)). nra.
Qed.

Lemma within_mono (n m : nat) (e a : Q) :
  (n <= m)%nat -> (0 <= e)%Q -> within n e a -> within m e a.
Proof.
  unfold within. intros H He [H1 H2].
  pose proof (pow_up_mono n m H). pose proof (pow_down_mono n m H).
  pose proof (pow_down_le_1 m). split; nra.
Qed.

Lemma within_plus (n : nat) (e1 a1 e2 a2 : Q) :
  within n e1 a1 -> within n e2 a2 -> within n (e1 + e2) (a1 + a2).
Proof. unfold within. intros [H1 H2] [H3 H4]. split; nra. Qed.

Lemma within_trans (n m : nat) (e a b : Q) :
  within n e a -> within m a b -> within (n + m) e b.
Proof.
  unfold within. intros [H1 H2] [H3 H4]. pose proof u_bounds as U.
  rewrite Nat2Z.inj_add, !Qpower_plus by (intros E; lra).
  pose proof (pow_up_ge_1 m). pose proof (pow_down_le_1 m). split; nra.
Qed.

Lemma within_proper (n : nat) (e e' a a' : Q) :
  (e == e')%Q -> (a == a')%Q -> within n e a -> within n e' a'.
Proof. unfold within. intros <- <-. tauto. Qed.

Lemma within_0 (n : nat) : within n 0 0.
Proof. unfold within. split; rewrite Qmult_0_r; discriminate. Qed.

Lemma is_double_0 : Double.is_double 0.
Proof. reflexivity. Qed.

(** [SUM] over positive doubles is the exact sum up to one rounding for
    each row; it is a positive double again, and not below any of the
    rows. *)
Lemma sql_sum_within (l : list Q) :
  Forall amount_ok l -> within (length l) (Qsum l) (sql_sum l).
Proof.
  intros H.
  destruct (DoubleFacts.fold_add_bounds l 0 H (Qle_refl 0) is_double_0)
    as (B & _).
  unfold within, sql_sum.
  setoid_replace (Qsum l) with (0 + Qsum l)%Q by ring. exact B.
Qed.

Lemma sql_sum_ok (l : list Q) :
  Forall amount_ok l -> l <> [] ->
  amount_ok (sql_sum l) /\ Forall (fun a => (a <= sql_sum l)%Q) l.
Proof.
  intros H Hne.
  destruct (DoubleFacts.fold_add_bounds l 0 H (Qle_refl 0) is_double_0)
    as (_ & _ & D & G).
  split; [|exact G]. split; [|exact D].
  destruct l as [|a l]; [contradiction|].
  inversion H as [|? ? [Ha _] _]; subst. inversion G; subst.
  unfold sql_sum. lra.
Qed.

(** The [reduce] of [getSpendingByCategory] over positive group sums
    adds them up in doubles. *)
Lemma reduce_total {A} (f : A -> Q) (l : list A) (acc : Q) :
  Forall (fun x => (0 < f x)%Q) l ->
  fold_left (fun sum cat => Double.add sum (or_zero (Some (f cat)))) l acc
  = fold_left Double.add (map f l) acc.
Proof.
  intros H. revert acc.
  induction H as [|x l Hx _ IH]; intros acc; cbn [fold_left map]; [reflexivity|].
  rewrite IH. cbn [or_zero].
  destruct (Qeq_bool (f x) 0) eqn:E; [|reflexivity].
  apply Qeq_bool_iff in E. lra.
Qed.

(** The sums of the groups, added up, are the sum of all rows up to one
    rounding for each row. *)
Lemma group_sums_within (gs : list (string * list expense)) (n : nat) :
  Forall (fun g => Forall amount_ok (map amount (snd g))) gs ->
  Forall (fun g => (length (snd g) <= n)%nat) gs ->
  within n (Qsum (map amount (concat (map snd gs))))
    (Qsum (map (fun g => sql_sum (map amount (snd g))) gs)).
Proof.
  induction gs as [|g gs IH]; intros Hok Hlen; cbn [map concat Qsum fold_right].
  - apply within_0.
  - inversion Hok as [|? ? Hg Hok']; subst. inversion Hlen as [|? ? Lg Hlen']; subst.
    fold (Qsum (map (fun g0 => sql_sum (map amount (snd g0))) gs)).
    eapply within_proper; [symmetry; rewrite map_app; apply Qsum_app | reflexivity|].
    apply within_plus; [|apply IH; assumption].
    apply (within_mono (length (map amount (snd g)))).
    + rewrite length_map. exact Lg.
    + apply DoubleFacts.Qsum_nonneg. exact Hg.
    + apply sql_sum_within. exact Hg.
Qed.

Lemma Qlt_bool_true (x y : Q) : (x < y)%Q -> Qlt_bool x y = true.
Proof.
  intros H. unfold Qlt_bool. apply negb_true_iff.
  destruct (Qle_bool y x) eqn:E; [|reflexivity].
  apply Qle_bool_iff in E. lra.
Qed.

Lemma Qlt_bool_false (x y : Q) : ~ (x < y)%Q -> Qlt_bool x y = false.
Proof.
  intros H. unfold Qlt_bool. apply negb_false_iff. apply Qle_bool_iff.
  apply Qnot_lt_le. exact H.
Qed.

(** *** Percentages *)

(** What [toFixed(2)] prints for a number between 0 and 100 reads back
    as its number of hundredths. *)
Lemma read_hundredths_render (n : Z) :
  0 <= n <= 10000 ->
  read_hundredths (string_of_Z (n / 100) +++ "." +++ JSDate.pad 2 (n mod 100))
  = Some n.
Proof.
  intros H.
  pose (f := fun n =>
              match read_hundredths
                      (string_of_Z (n / 100) +++ "." +++ JSDate.pad 2 (n mod 100))
              with
              | Some m => m =? n
              | None => false
              end).
  assert (E : f n = true).
  { apply (forallb_range f 10001); [vm_compute; reflexivity | lia]. }
  unfold f in E.
  destruct (read_hundredths _) as [m|]; [|discriminate E].
  apply Z.eqb_eq in E. congruence.
Qed.

Lemma toFixed2_percentage (p : Q) :
  (0 <= p <= 100)%Q ->
  0 <= toFixed_hundredths p <= 10000 /\
  read_hundredths (toFixed2 p) = Some (toFixed_hundredths p) /\
  (Qabs (inject_Z (toFixed_hundredths p) / 100 - p) <= 1 # 200)%Q.
Proof.
  intros [H0 H100].
  assert (Ha : (Qabs p == p)%Q) by (apply Qabs_pos; exact H0).
  assert (Hh : 0 <= toFixed_hundredths p <= 10000).
  { unfold toFixed_hundredths. rewrite Ha. split.
    - apply (Qfloor_resp_le 0). lra.
    - assert (L : (p * 100 + (1 # 2) <= inject_Z 10000 + (1 # 2))%Q).
      { change (inject_Z 10000) with 10000%Q. lra. }
      apply Qfloor_resp_le in L.
      assert (F : Qfloor (inject_Z 10000 + (1 # 2)) = 10000) by reflexivity.
      lia. }
  split; [exact Hh|]. split.
  - unfold toFixed2.
    assert (E1 : Qle_bool (inject_Z (10 ^ 21)) (Qabs p) = false).
    { destruct (Qle_bool _ _) eqn:E; [|reflexivity].
      apply Qle_bool_iff in E. rewrite Ha in E.
      assert (B : (100 < inject_Z (10 ^ 21))%Q) by reflexivity. lra. }
    rewrite E1, (Qlt_bool_false p 0) by lra.
    apply read_hundredths_render. exact Hh.
  - pose proof (toFixed_rounds p) as R. rewrite Ha in R. exact R.
Qed.

(** *** The breakdown *)

Lemma getSpendingByCategory_valid_run (db : Db) (startDate endDate : jsval) :
  valid_date_filter startDate ->
  valid_date_filter endDate ->
  let sorted :=
    order_by total_desc
      (map stats_of_group
         (sql_group_by category
            (filter (in_period startDate endDate) (rows db)))) in
  let total :=
    fold_left (fun sum cat => Double.add sum (or_zero (Some (total_amount cat))))
      sorted 0%Q in
  getSpendingByCategory startDate endDate db
  = (db,
     inr {| total_spending := total;
            categories :=
              map (fun cat =>
                     {| stats := cat;
                        percentage :=
                          if Qlt_bool 0 total
                          then JStr (toFixed2
                                       (Double.mul
                                          (Double.div (total_amount cat) total)
                                          100))
                          else JNum (Fin 0) |})
                  sorted |}).
Proof.
  intros Hs He. cbv zeta.
  unfold getSpendingByCategory. cbv zeta.
  rewrite (bind_ok _ _ _ _ _ (date_filter_valid DateGe startDate _ db Hs)).
  rewrite (bind_ok _ _ _ _ _ (date_filter_valid DateLe endDate _ db He)).
  cbv [sql_category_stats bind get_rows ret].
  rewrite as_array_first_result.
  assert (Hq : forall r,
             where_holds
               (match startDate with JStr s => [DateGe s] | _ => [] end
                ++ match endDate with JStr s => [DateLe s] | _ => [] end) r
             = in_period startDate endDate r).
  { intros r. unfold in_period.
    rewrite <- (where_holds_matches startDate endDate JUndefined r).
    rewrite app_nil_r. reflexivity. }
  rewrite (filter_ext _ _ Hq). reflexivity.
Qed.

(** The groups of a breakdown, before they are ordered. *)
Lemma breakdown_group (startDate endDate : jsval) (db : Db) (cat : category_stats) :
  In cat (order_by total_desc
            (map stats_of_group
               (sql_group_by category
                  (filter (in_period startDate endDate) (rows db))))) ->
  exists rs,
    rs = filter (in_category startDate endDate (cs_category cat)) (rows db) /\
    rs <> [] /\
    cat = stats_of_group (cs_category cat, rs).
Proof.
  intros Hcat.
  apply (Permutation_in _ (order_by_perm total_desc _)) in Hcat.
  apply in_map_iff in Hcat as ([k ms] & <- & Hgrp).
  pose proof (sql_group_by_members category
                (filter (in_period startDate endDate) (rows db))) as Hmem.
  rewrite Forall_forall in Hmem. specialize (Hmem _ Hgrp). cbn [fst snd] in Hmem.
  pose proof (sql_group_by_nonempty category _ _ Hgrp) as Hne. cbn [snd] in Hne.
  exists ms. unfold stats_of_group at 1 2. cbn [cs_category fst snd].
  split; [|split; [exact Hne | reflexivity]].
  rewrite Hmem. unfold members. rewrite filter_filter. reflexivity.
Qed.

Lemma amounts_ok_filter (db : Db) (f : expense -> bool) :
  amounts_ok db -> Forall amount_ok (map amount (filter f (rows db))).
Proof.
  intros H. apply Forall_map. apply Forall_forall. intros r Hr.
  apply filter_In in Hr as [Hr _].
  unfold amounts_ok in H. rewrite Forall_forall in H. apply H. exact Hr.
Qed.

(** With positive doubles in the table, the sum of a group of the
    breakdown is a positive double, and the sum of its rows up to one
    rounding for each row. *)
Lemma breakdown_group_sum (startDate endDate : jsval) (db : Db)
      (cat : category_stats) :
  amounts_ok db ->
  In cat (order_by total_desc
            (map stats_of_group
               (sql_group_by category
                  (filter (in_period startDate endDate) (rows db))))) ->
  let rg := filter (in_category startDate endDate (cs_category cat)) (rows db) in
  amount_ok (total_amount cat) /\
  within (length rg) (Qsum (map amount rg)) (total_amount cat).
Proof.
  intros Hok Hcat. cbv zeta.
  destruct (breakdown_group startDate endDate db cat Hcat)
    as (rs & Ers & Hne & Ecat).
  rewrite <- Ers.
  assert (Et : total_amount cat = sql_sum (map amount rs))
    by (rewrite Ecat; reflexivity).
  rewrite Et.
  assert (Hrs : Forall amount_ok (map amount rs)).
  { rewrite Ers. apply amounts_ok_filter. exact Hok. }
  split.
  - apply sql_sum_ok; [exact Hrs|]. destruct rs; [contradiction | discriminate].
  - rewrite <- (length_map amount rs). apply sql_sum_within. exact Hrs.
Qed.

(** With positive doubles in the table, the total of a breakdown is the
    sums of the groups added one after the other, in the order of the
    groups; it is not below any of them, and it is the sum of all rows
    of the period up to two roundings for each row. *)
Lemma breakdown_total (startDate endDate : jsval) (db : Db) :
  amounts_ok db ->
  let matched := filter (in_period startDate endDate) (rows db) in
  let sorted :=
    order_by total_desc (map stats_of_group (sql_group_by category matched)) in
  let total :=
    fold_left (fun sum cat => Double.add sum (or_zero (Some (total_amount cat))))
      sorted 0%Q in
  total = fold_left Double.add (map total_amount sorted) 0%Q /\
  (forall cat, In cat sorted -> (total_amount cat <= total)%Q) /\
  within (2 * length matched) (Qsum (map amount matched)) total.
Proof.
  intros Hok. cbv zeta.
  set (matched := filter (in_period startDate endDate) (rows db)).
  set (groups := sql_group_by category matched).
  set (sorted := order_by total_desc (map stats_of_group groups)).
  assert (Hperm : Permutation sorted (map stats_of_group groups))
    by apply order_by_perm.
  assert (Hg : forall cat, In cat sorted -> amount_ok (total_amount cat)).
  { intros cat Hcat.
    apply (breakdown_group_sum startDate endDate db cat Hok Hcat). }
  assert (E : fold_left
                (fun sum cat => Double.add sum (or_zero (Some (total_amount cat))))
                sorted 0%Q
              = fold_left Double.add (map total_amount sorted) 0%Q).
  { apply reduce_total. apply Forall_forall. intros cat Hcat.
    apply (Hg cat Hcat). }
  rewrite E.
  assert (Hall : Forall amount_ok (map total_amount sorted)).
  { apply Forall_map. apply Forall_forall. exact Hg. }
  destruct (DoubleFacts.fold_add_bounds _ 0 Hall (Qle_refl 0) is_double_0)
    as (B & _ & _ & G).
  split; [reflexivity|]. split.
  { intros cat Hcat. rewrite Forall_forall in G. apply G.
    apply in_map. exact Hcat. }
  assert (Hm : Forall amount_ok (map amount matched))
    by (apply amounts_ok_filter; exact Hok).
  assert (Hmem : Forall (fun g => snd g = members category (fst g) matched) groups)
    by apply sql_group_by_members.
  assert (W1 : within (length matched) (Qsum (map amount matched))
                 (Qsum (map total_amount sorted))).
  { eapply within_proper.
    3: apply (group_sums_within groups (length matched)).
    - apply Qsum_perm. apply Permutation_map. apply sql_group_by_rows.
    - rewrite (Qsum_perm _ _ (Permutation_map total_amount Hperm)).
      rewrite map_map. reflexivity.
    - rewrite Forall_forall in Hmem |- *. intros g Hin.
      rewrite (Hmem g Hin). unfold members.
      apply Forall_map. apply Forall_forall. intros r Hr.
      apply filter_In in Hr as [Hr _].
      rewrite Forall_map, Forall_forall in Hm. apply Hm. exact Hr.
    - rewrite Forall_forall in Hmem |- *. intros g Hin.
      rewrite (Hmem g Hin). unfold members. apply filter_length_le. }
  assert (W2 : within (length sorted) (Qsum (map total_amount sorted))
                 (fold_left Double.add (map total_amount sorted) 0%Q)).
  { unfold within. rewrite length_map in B.
    setoid_replace (Qsum (map total_amount sorted))
      with (0 + Qsum (map total_amount sorted))%Q by ring.
    exact B. }
  apply (within_mono (length matched + length sorted)).
  - rewrite (Permutation_length Hperm), length_map.
    pose proof (sql_group_by_length category matched). fold groups in H. lia.
  - apply DoubleFacts.Qsum_nonneg. exact Hm.
  - eapply within_trans; eassumption.
Qed.


(* ================================================================== *)
(** * The theorems at work on a small table *)
(* ================================================================== *)

Lemma wf_sample_db : wf sample_db.
Proof.
  split.
  - unfold ids. cbn. repeat constructor; cbn; intuition discriminate.
  - unfold ids. cbn. repeat constructor; lia.
Qed.

Lemma wf_empty_db : wf empty_db.
Proof. split; constructor. Qed.

Lemma valid_add_sample :
  valid_add (JNum (Fin 25)) (JStr "Food") (JStr "  coffee ") (JStr "2024-11-05").
Proof.
  repeat split. exists "  coffee "%string. split; [reflexivity | discriminate].
Qed.

Lemma date_in_month_inv (y m y' m' d' : Z) :
  0 <= y' < 10000 -> 0 <= m' < 100 -> 0 <= d' < 100 ->
  date_in_month y m (DateSpec.canonical_form y' m' d') -> y = y' /\ m = m'.
Proof.
  intros Hy' Hm' Hd' (d & (Hy & Hm & Hd) & E).
  pose proof (days_in_month_bounds y m).
  apply canonical_form_inj in E; lia.
Qed.

Lemma dates_valid_sample_db : dates_valid sample_db.
Proof.
  intros r [<-|[<-|[<-|[]]]]; apply isValidDateString_sound; reflexivity.
Qed.

Lemma february_empty_in_sample_db :
  forall r, In r (rows sample_db) -> ~ date_in_month 2024 2 (date r).
Proof.
  intros r [<-|[<-|[<-|[]]]] H; cbn [date] in H.
  - change "2024-11-03"%string with (DateSpec.canonical_form 2024 11 3) in H.
    apply date_in_month_inv in H; lia.
  - change "2024-11-03"%string with (DateSpec.canonical_form 2024 11 3) in H.
    apply date_in_month_inv in H; lia.
  - change "2024-11-04"%string with (DateSpec.canonical_form 2024 11 4) in H.
    apply date_in_month_inv in H; lia.
Qed.

Lemma addExpense_roundtrip_witness :
  wf sample_db /\
  valid_add (JNum (Fin 25)) (JStr "Food") (JStr "  coffee ") (JStr "2024-11-05") /\
  exists db' r,
    addExpense "2024-11-05 09:00:00" (JNum (Fin 25)) (JStr "Food")
      (JStr "  coffee ") (JStr "2024-11-05") sample_db
    = (db', inr (added r)) /\
    category r = "food"%string /\
    description r = "coffee"%string /\
    read_by_id (id r) db' = (db', inr (ROne r)).
Proof.
  split; [exact wf_sample_db|]. split; [exact valid_add_sample|].
  destruct (addExpense_roundtrip "2024-11-05 09:00:00" (JNum (Fin 25))
              (JStr "Food") (JStr "  coffee ") (JStr "2024-11-05") sample_db
              wf_sample_db valid_add_sample)
    as (db' & r & q & sc & sd & sdt & _ & Ec & Ed & _ & Hrun & _ & _ & Hcat & _
        & _ & Hdesc & _ & _ & _ & _ & Hread).
  injection Ec as <-. injection Ed as <-.
  exists db', r. split; [exact Hrun|].
  split; [exact Hcat|]. split; [exact Hdesc | exact Hread].
Defined.

(** A description of white space only, here a no-break space and an
    ideographic space between two blanks, is refused, and one that is
    wrapped in such white space is stored without it. *)
Lemma addExpense_unicode_white_space :
  addExpense "2024-11-05 09:00:00" (JNum (Fin 25)) (JStr "food")
    (JStr (" " +++ utf8 160 +++ utf8 12288 +++ " ")) (JStr "2024-11-05")
    sample_db
  = (sample_db, inl (Error "Description cannot be empty")) /\
  exists db' r,
    addExpense "2024-11-05 09:00:00" (JNum (Fin 25)) (JStr "food")
      (JStr (utf8 160 +++ "tea" +++ utf8 8239 +++ utf8 65279))
      (JStr "2024-11-05") sample_db
    = (db', inr (added r)) /\
    description r = "tea"%string.
Proof.
  split; [reflexivity|].
  eexists. eexists. split; reflexivity.
Qed.

Lemma updateExpense_frame_witness :
  wf sample_db /\
  exists db' res r',
    updateExpense 1 (JNum (Fin 30)) JUndefined JUndefined JUndefined sample_db
    = (db', res) /\
    In r' (rows db') /\
    id r' = 1 /\
    category r' = "food"%string /\
    description r' = "lunch"%string /\
    date r' = "2024-11-03"%string /\
    created_at r' = "2024-11-03 12:00:00"%string.
Proof.
  split; [exact wf_sample_db|].
  destruct (updateExpense_frame sample_db 1 (JNum (Fin 30)) JUndefined
              JUndefined JUndefined wf_sample_db) as [_ H].
  destruct (H (mkExpense 1 10 "food" "lunch" "2024-11-03" "2024-11-03 12:00:00")
              (or_introl eq_refl) eq_refl)
    as (_ & _ & db' & res & r' & l1 & l2 & Hrun & _ & Hrows & _
        & (Hid & Hcr & _ & Hc & Hd & Hdt) & _).
  exists db', res, r'.
  split; [exact Hrun|].
  split; [rewrite Hrows; apply in_or_app; right; left; reflexivity|].
  split; [exact Hid|].
  split; [exact (Hc eq_refl)|].
  split; [exact (Hd eq_refl)|].
  split; [exact (Hdt eq_refl) | exact Hcr].
Defined.

Lemma getExpenses_filters_orders_limits_witness :
  valid_date_filter (JStr "2024-11-01") /\
  valid_date_filter JUndefined /\
  valid_category_filter (JStr "Food") /\
  0 <= limit_of (Some 1) /\
  exists full,
    Permutation full
      (filter (matches_filter (JStr "2024-11-01") JUndefined (JStr "Food"))
         (rows sample_db)) /\
    StronglySorted newest_first full /\
    getExpenses (JStr "2024-11-01") JUndefined (JStr "Food") (Some 1) sample_db
    = (sample_db, inr {| count := length (firstn 1 full);
                         expenses := firstn 1 full |}).
Proof.
  assert (H1 : valid_date_filter (JStr "2024-11-01"))
    by (right; right; reflexivity).
  assert (H2 : valid_date_filter JUndefined) by (left; reflexivity).
  assert (H3 : valid_category_filter (JStr "Food"))
    by (right; right; reflexivity).
  assert (H4 : 0 <= limit_of (Some 1)) by (cbn; lia).
  repeat (split; [assumption|]).
  exact (getExpenses_filters_orders_limits sample_db (JStr "2024-11-01")
           JUndefined (JStr "Food") (Some 1) H1 H2 H3 H4).
Defined.

Lemma amounts_ok_sample_db : amounts_ok sample_db.
Proof. repeat constructor. Qed.

Lemma amounts_ok_cents_db : amounts_ok cents_db.
Proof. repeat constructor. Qed.




Lemma add_assigns_fresh_id_witness :
  wf empty_db /\
  valid_add (JNum (Fin 25)) (JStr "Food") (JStr "  coffee ") (JStr "2024-11-05") /\
  exists db2 r,
    handle "t3"
      (add_expense (JNum (Fin 25)) (JStr "Food") (JStr "  coffee ")
         (JStr "2024-11-05"))
      (fst (serve [("t1"%string,
                    add_expense (JNum (Fin 9)) (JStr "bills") (JStr "power")
                      (JStr "2024-10-31"));
                   ("t2"%string, delete_expense 1)] empty_db))
    = (db2, Success (Added (added r))) /\
    1 < id r /\
    NoDup (ids db2).
Proof.
  split; [exact wf_empty_db|]. split; [exact valid_add_sample|].
  destruct (add_assigns_fresh_id empty_db
              [("t1"%string,
                add_expense (JNum (Fin 9)) (JStr "bills") (JStr "power")
                  (JStr "2024-10-31"));
               ("t2"%string, delete_expense 1)]
              "t3" (JNum (Fin 25)) (JStr "Food") (JStr "  coffee ")
              (JStr "2024-11-05") wf_empty_db valid_add_sample)
    as (db2 & r & Hrun & _ & Hold & _ & _ & ND).
  exists db2, r. split; [exact Hrun|]. split; [|exact ND].
  exact (Forall_inv Hold).
Defined.

Lemma deleteExpense_spec_witness :
  wf sample_db /\
  ~ In 7 (ids sample_db) /\
  deleteExpense 7 sample_db = (sample_db, inl (Error (not_found_message 7))) /\
  exists db',
    deleteExpense 2 sample_db
    = (db', inr {| delete_message := "Expense deleted successfully";
                   deleted_expense :=
                     ROne (mkExpense 2 20 "food" "dinner" "2024-11-03"
                             "2024-11-03 20:00:00") |}) /\
    ~ In 2 (ids db').
Proof.
  assert (Hnot : ~ In 7 (ids sample_db)) by (cbn; intuition discriminate).
  split; [exact wf_sample_db|]. split; [exact Hnot|].
  split.
  - exact (proj1 (proj1 (deleteExpense_spec sample_db 7 wf_sample_db) Hnot)).
  - destruct (proj2 (deleteExpense_spec sample_db 2 wf_sample_db)
                (mkExpense 2 20 "food" "dinner" "2024-11-03" "2024-11-03 20:00:00")
                (or_intror (or_introl eq_refl)) eq_refl)
      as (db' & l1 & l2 & Hrun & _ & _ & Hgone & _).
    exists db'. split; [exact Hrun | exact Hgone].
Defined.

Lemma getMonthlySummary_empty_month_witness :
  2000 <= 2024 <= 2100 /\
  1 <= 2 <= 12 /\
  no_date_in_month sample_db 2024 2 /\
  exists res,
    Monthly.getMonthlySummary (inject_Z 2024) (inject_Z 2) sample_db
    = (sample_db, inr res) /\
    Monthly.total_transactions (Monthly.summary_of res) = 0 /\
    Monthly.total_spending (Monthly.summary_of res) = 0%Q /\
    Monthly.category_breakdown res = [] /\
    Monthly.daily_spending res = [].
Proof.
  assert (H1 : 2000 <= 2024 <= 2100) by lia.
  assert (H2 : 1 <= 2 <= 12) by lia.
  assert (H3 : no_date_in_month sample_db 2024 2).
  { right. split; [exact dates_valid_sample_db | exact february_empty_in_sample_db]. }
  split; [exact H1|]. split; [exact H2|]. split; [exact H3|].
  exact (getMonthlySummary_empty_month sample_db 2024 2 H1 H2 H3).
Defined.

Lemma non_string_category_raises_TypeError_witness :
  is_string (JNum (Fin 5)) = false /\
  isValidAmount (JNum (Fin 25)) = true /\
  exists m,
    addExpense "2024-11-05 09:00:00" (JNum (Fin 25)) (JNum (Fin 5))
      (JStr "coffee") (JStr "2024-11-05") sample_db
    = (sample_db, inl (TypeError m)) /\
    m <> invalid_category_message.
Proof.
  split; [reflexivity|]. split; [reflexivity|].
  exact (proj1 (proj2 non_string_category_raises_TypeError)
           "2024-11-05 09:00:00"%string (JNum (Fin 25)) (JNum (Fin 5))
           (JStr "coffee") (JStr "2024-11-05") sample_db eq_refl eq_refl).
Defined.

(* ================================================================== *)
(** * Further properties of the tools *)
(* ================================================================== *)

(** ** Tools that only read *)

Lemma readonly_ret {A} (a : A) : readonly (ret a).
Proof. intros db. reflexivity. Qed.

Lemma readonly_throw {A} (e : exn) : readonly (@throw A e).
Proof. intros db. reflexivity. Qed.

Lemma readonly_bind {A B} (c : M A) (k : A -> M B) :
  readonly c -> (forall a, readonly (k a)) -> readonly (bind c k).
Proof.
  intros Hc Hk db. unfold bind. specialize (Hc db).
  destruct (c db) as [db' [e|a]]; cbn [fst] in *; [exact Hc|].
  rewrite (Hk a db'). exact Hc.
Qed.

Lemma readonly_throw_if (b : bool) (e : exn) : readonly (throw_if b e).
Proof. destruct b; [apply readonly_throw | apply readonly_ret]. Qed.

Lemma readonly_lift {A} (r : exn + A) : readonly (lift r).
Proof. destruct r; [apply readonly_throw | apply readonly_ret]. Qed.

Lemma readonly_get_rows : readonly get_rows.
Proof. intros db. reflexivity. Qed.

Lemma readonly_bind_text (v : jsval) : readonly (bind_text v).
Proof. destruct v; (apply readonly_throw || apply readonly_ret). Qed.

Create HintDb readonly.
#[local] Hint Resolve readonly_ret readonly_throw readonly_throw_if
  readonly_lift readonly_get_rows readonly_bind_text : readonly.

Ltac readonly_tac :=
  repeat first
    [ apply readonly_bind; [|intro]
    | solve [auto with readonly]
    | match goal with
      | |- readonly (if ?b then _ else _) => destruct b
      | |- readonly (match ?x with _ => _ end) => destruct x
      end ].

Lemma readonly_getExpenses (s e c : jsval) (limit : option Z) :
  readonly (getExpenses s e c limit).
Proof.
  cbv [getExpenses date_filter category_filter sql_select_where]. readonly_tac.
Qed.

Lemma readonly_getSpendingByCategory (s e : jsval) :
  readonly (getSpendingByCategory s e).
Proof.
  cbv [getSpendingByCategory date_filter sql_category_stats]. readonly_tac.
Qed.

Lemma readonly_getMonthlySummary (year month : Q) :
  readonly (Monthly.getMonthlySummary year month).
Proof.
  cbv [Monthly.getMonthlySummary Monthly.sql_totals Monthly.sql_category_totals
         Monthly.sql_daily_totals].
  readonly_tac.
Qed.

(** X1. The three reporting tools and the export never change the
    database, whatever their arguments and whether they succeed or
    throw. *)
Theorem reads_leave_database_alone
        (number_to_string : Q -> string) (db : Db) :
  (forall s e c limit, fst (getExpenses s e c limit db) = db) /\
  (forall s e, fst (getSpendingByCategory s e db) = db) /\
  (forall year month, fst (Monthly.getMonthlySummary year month db) = db) /\
  (forall s e c, fst (Utils.exportToCSV number_to_string s e c db) = db).
Proof.
  split; [|split; [|split]].
  - intros. apply readonly_getExpenses.
  - intros. apply readonly_getSpendingByCategory.
  - intros. apply readonly_getMonthlySummary.
  - intros s e c.
    assert (H : readonly (Utils.exportToCSV number_to_string s e c)).
    { unfold Utils.exportToCSV. cbv zeta. apply readonly_bind.
      - apply readonly_getExpenses.
      - intros r. apply readonly_ret. }
    apply H.
Qed.

(** ** What a run of a writing tool can do to the database *)

Lemma includes_In (l : list string) (x : string) :
  includes l x = true -> In x l.
Proof.
  unfold includes. intros H. apply existsb_exists in H as (y & Hy & E).
  apply String.eqb_eq in E. subst y. exact Hy.
Qed.

Lemma check_assignments_ok (us : list assignment) :
  Forall assignment_ok us -> forallb check_assignment us = true.
Proof.
  induction 1 as [|u us Hu _ IH]; [reflexivity|]. cbn [forallb].
  rewrite IH, andb_true_r. destruct u; cbn in *; auto.
Qed.

Lemma amount_assignment_pure (v : jsval) :
  exists r, (forall db, amount_assignment v db = (db, r)) /\
            match r with inl _ => True | inr us => Forall assignment_ok us end.
Proof.
  unfold amount_assignment.
  destruct v as [| |b|[|n|q]|s|l|f]; cbn [is_null negb isValidAmount];
    try (eexists; split; [intros db; reflexivity | cbn; auto]).
  destruct (Qlt_bool 0 q) eqn:E.
  - exists (inr [SetAmount q]). split; [intros db; reflexivity|].
    constructor; [exact E | constructor].
  - eexists; split; [intros db; reflexivity | exact I].
Qed.

Lemma category_assignment_pure (v : jsval) :
  exists r, (forall db, category_assignment v db = (db, r)) /\
            match r with inl _ => True | inr us => Forall assignment_ok us end.
Proof.
  unfold category_assignment.
  destruct v as [| |b|n|s|l|f]; cbn [is_null negb isValidCategory];
    try (eexists; split; [intros db; reflexivity | cbn; auto]).
  destruct (includes VALID_CATEGORIES (toLowerCase s)) eqn:E.
  - exists (inr [SetCategory (toLowerCase s)]). split; [intros db; reflexivity|].
    constructor; [|constructor]. cbn [assignment_ok]. apply includes_In. exact E.
  - eexists; split; [intros db; reflexivity | exact I].
Qed.

Lemma description_assignment_pure (v : jsval) :
  exists r, (forall db, description_assignment v db = (db, r)) /\
            match r with inl _ => True | inr us => Forall assignment_ok us end.
Proof.
  unfold description_assignment.
  destruct v as [| |b|n|s|l|f]; cbn [is_null negb];
    try (eexists; split; [intros db; reflexivity | cbn; auto]).
  cbv [bind lift ret throw_if method_trim].
  destruct (Nat.eqb (String.length (trim s)) 0) eqn:E.
  - eexists; split; [intros db; reflexivity | exact I].
  - exists (inr [SetDescription (trim s)]). split; [intros db; reflexivity|].
    constructor; [|constructor]. split.
    + intros Hempty. rewrite Hempty in E. discriminate.
    + apply trim_idempotent.
Qed.

Lemma date_assignment_pure (v : jsval) :
  exists r, (forall db, date_assignment v db = (db, r)) /\
            match r with inl _ => True | inr us => Forall assignment_ok us end.
Proof.
  unfold date_assignment.
  destruct v as [| |b|n|s|l|f]; cbn [is_null negb isValidDate];
    try (eexists; split; [intros db; reflexivity | cbn; auto]).
  destruct (isValidDateString s) eqn:E.
  - exists (inr [SetDate s]). split; [intros db; reflexivity|].
    constructor; [exact E | constructor].
  - eexists; split; [intros db; reflexivity | exact I].
Qed.

Lemma has_id_select (i : Z) (db : Db) :
  is_RNull (first_result (filter (fun r => id r =? i) (rows db)) RNull)
  = negb (has_id i db).
Proof.
  unfold has_id. induction (rows db) as [|r l IH]; [reflexivity|].
  cbn [filter existsb]. destruct (id r =? i); cbn [orb]; [|exact IH].
  destruct (filter (fun r0 => id r0 =? i) l); reflexivity.
Qed.

Lemma has_id_In (i : Z) (db : Db) : has_id i db = true <-> In i (ids db).
Proof.
  unfold has_id, ids. rewrite existsb_exists, in_map_iff.
  split; intros (r & H1 & H2).
  - exists r. apply Z.eqb_eq in H2. auto.
  - exists r. rewrite Z.eqb_eq. auto.
Qed.

(** Every run of [updateExpense] follows a plan that the arguments
    alone decide: an exception, or a list of validated assignments that
    is not empty.  On a table without the key it throws not-found. *)
Lemma updateExpense_plan (i : Z) (a c d dt : jsval) :
  exists plan : exn + list assignment,
    match plan with
    | inl _ => True
    | inr us => us <> [] /\ Forall assignment_ok us
    end /\
    forall db,
      updateExpense i a c d dt db
      = if has_id i db then
          match plan with
          | inl e => (db, inl e)
          | inr us => (updated_db us i db, inr (update_answer us i db))
          end
        else (db, inl (Error (not_found_message i))).
Proof.
  destruct (amount_assignment_pure (default_null a)) as (r1 & E1 & O1).
  destruct (category_assignment_pure (default_null c)) as (r2 & E2 & O2).
  destruct (description_assignment_pure (default_null d)) as (r3 & E3 & O3).
  destruct (date_assignment_pure (default_null dt)) as (r4 & E4 & O4).
  assert (Hrun : forall plan,
             (forall db, has_id i db = true ->
                (u1 <- amount_assignment (default_null a) ;;
                 u2 <- category_assignment (default_null c) ;;
                 u3 <- description_assignment (default_null d) ;;
                 u4 <- date_assignment (default_null dt) ;;
                 throw_if (Nat.eqb (length (u1 ++ u2 ++ u3 ++ u4)) 0)
                   (Error no_fields_message) ;;;
                 sql_update (u1 ++ u2 ++ u3 ++ u4) i ;;;
                 saveDatabase ;;;
                 updatedResult <- sql_select_by_id i ;;
                 ret {| update_message := "Expense updated successfully";
                        updated_expense := first_result updatedResult RNull |}) db
                = match plan with
                  | inl e => (db, inl e)
                  | inr us => (updated_db us i db, inr (update_answer us i db))
                  end) ->
             forall db,
               updateExpense i a c d dt db
               = if has_id i db then
                   match plan with
                   | inl e => (db, inl e)
                   | inr us => (updated_db us i db, inr (update_answer us i db))
                   end
                 else (db, inl (Error (not_found_message i)))).
  { intros plan H db. unfold updateExpense. cbv zeta.
    rewrite (bind_ok _ _ _ _ _ (sql_select_by_id_eq _ _)).
    rewrite has_id_select.
    destruct (has_id i db) eqn:Hid; cbn [negb].
    - rewrite throw_if_false. apply H. exact Hid.
    - reflexivity. }
  destruct r1 as [e1|u1].
  { exists (inl e1). split; [exact I|]. apply (Hrun (inl e1)). intros db _.
    rewrite (bind_err _ _ _ _ _ (E1 db)). reflexivity. }
  destruct r2 as [e2|u2].
  { exists (inl e2). split; [exact I|]. apply (Hrun (inl e2)). intros db _.
    rewrite (bind_ok _ _ _ _ _ (E1 db)), (bind_err _ _ _ _ _ (E2 db)). reflexivity. }
  destruct r3 as [e3|u3].
  { exists (inl e3). split; [exact I|]. apply (Hrun (inl e3)). intros db _.
    rewrite (bind_ok _ _ _ _ _ (E1 db)), (bind_ok _ _ _ _ _ (E2 db)),
      (bind_err _ _ _ _ _ (E3 db)). reflexivity. }
  destruct r4 as [e4|u4].
  { exists (inl e4). split; [exact I|]. apply (Hrun (inl e4)). intros db _.
    rewrite (bind_ok _ _ _ _ _ (E1 db)), (bind_ok _ _ _ _ _ (E2 db)),
      (bind_ok _ _ _ _ _ (E3 db)), (bind_err _ _ _ _ _ (E4 db)). reflexivity. }
  destruct (Nat.eqb (length (u1 ++ u2 ++ u3 ++ u4)) 0) eqn:Hlen.
  { exists (inl (Error no_fields_message)). split; [exact I|].
    apply (Hrun (inl (Error no_fields_message))). intros db _.
    rewrite (bind_ok _ _ _ _ _ (E1 db)), (bind_ok _ _ _ _ _ (E2 db)),
      (bind_ok _ _ _ _ _ (E3 db)), (bind_ok _ _ _ _ _ (E4 db)).
    rewrite Hlen. reflexivity. }
  assert (Hok : Forall assignment_ok (u1 ++ u2 ++ u3 ++ u4)).
  { repeat (apply Forall_app; split); assumption. }
  exists (inr (u1 ++ u2 ++ u3 ++ u4)). split.
  { split; [|exact Hok]. intros E. rewrite E in Hlen. discriminate. }
  apply (Hrun (inr (u1 ++ u2 ++ u3 ++ u4))). intros db Hid.
  rewrite (bind_ok _ _ _ _ _ (E1 db)), (bind_ok _ _ _ _ _ (E2 db)),
    (bind_ok _ _ _ _ _ (E3 db)), (bind_ok _ _ _ _ _ (E4 db)).
  rewrite Hlen, throw_if_false.
  assert (Hupd : sql_update (u1 ++ u2 ++ u3 ++ u4) i db
                 = (updated_db (u1 ++ u2 ++ u3 ++ u4) i db, inr tt)).
  { unfold sql_update. rewrite (check_assignments_ok _ Hok).
    cbn [negb]. rewrite andb_false_r. reflexivity. }
  rewrite (bind_ok _ _ _ _ _ Hupd).
  unfold saveDatabase. rewrite bind_ret.
  rewrite (bind_ok _ _ _ _ _ (sql_select_by_id_eq _ _)).
  reflexivity.
Qed.

Lemma deleteExpense_outcome (i : Z) (db : Db) :
  deleteExpense i db
  = if has_id i db then
      (deleted_db i db,
       inr {| delete_message := "Expense deleted successfully";
              deleted_expense :=
                first_result (filter (fun r => id r =? i) (rows db)) RNull |})
    else (db, inl (Error (not_found_message i))).
Proof.
  unfold deleteExpense.
  rewrite (bind_ok _ _ _ _ _ (sql_select_by_id_eq _ _)).
  rewrite has_id_select.
  destruct (has_id i db); reflexivity.
Qed.

(** X2. A request that the handler answers with a failure has not
    changed the database. *)
Theorem failure_changes_nothing (now : string) (req : request) (db db' : Db)
        (msg : string) :
  handle now req db = (db', Failure msg) -> db' = db.
Proof.
  unfold handle. destruct req as [a c d dt|s e c l|s e|y m|i a c d dt|i];
    cbn [run_tool].
  - destruct (addExpense_cases now a c d dt db)
      as [(_ & e & E)|(_ & q & sc & sd & sdt & _ & _ & _ & _ & E)].
    + rewrite (bind_err _ _ _ _ _ E). intros H. injection H as <- _. reflexivity.
    + cbv zeta in E. rewrite (bind_ok _ _ _ _ _ E). discriminate.
  - pose proof (readonly_getExpenses s e c l db) as R. unfold bind.
    destruct (getExpenses s e c l db) as [db1 [e1|r]]; cbn [fst] in R; subst db1.
    + intros H. injection H as <- _. reflexivity.
    + discriminate.
  - pose proof (readonly_getSpendingByCategory s e db) as R. unfold bind.
    destruct (getSpendingByCategory s e db) as [db1 [e1|r]]; cbn [fst] in R; subst db1.
    + intros H. injection H as <- _. reflexivity.
    + discriminate.
  - pose proof (readonly_getMonthlySummary y m db) as R. unfold bind.
    destruct (Monthly.getMonthlySummary y m db) as [db1 [e1|r]];
      cbn [fst] in R; subst db1.
    + intros H. injection H as <- _. reflexivity.
    + discriminate.
  - destruct (updateExpense_plan i a c d dt) as (plan & _ & E).
    unfold bind. rewrite E.
    destruct (has_id i db); [destruct plan as [e|us]|].
    + intros H. injection H as <- _. reflexivity.
    + discriminate.
    + intros H. injection H as <- _. reflexivity.
  - unfold bind. rewrite deleteExpense_outcome.
    destruct (has_id i db).
    + discriminate.
    + intros H. injection H as <- _. reflexivity.
Qed.

(** ** What is stored has been validated *)

Lemma Qlt_bool_iff (x y : Q) : Qlt_bool x y = true <-> (x < y)%Q.
Proof.
  unfold Qlt_bool. rewrite negb_true_iff. split.
  - intros H. apply Qnot_le_lt. intros Hle.
    apply Qle_bool_iff in Hle. congruence.
  - intros H. destruct (Qle_bool y x) eqn:E; [|reflexivity].
    apply Qle_bool_iff in E. exfalso. apply (Qlt_not_le _ _ H). exact E.
Qed.

Lemma assign_ok (u : assignment) (r : expense) :
  assignment_ok u -> row_ok r -> row_ok (assign r u).
Proof.
  intros Hu (Ha & Hc & Hd & Ht & Hdt).
  destruct u; cbn [assignment_ok] in Hu; unfold row_ok;
    cbn [assign amount category description date].
  - apply Qlt_bool_iff in Hu. auto.
  - auto.
  - destruct Hu. auto.
  - auto.
Qed.

Lemma assign_all_ok (us : list assignment) (r : expense) :
  Forall assignment_ok us -> row_ok r -> row_ok (assign_all us r).
Proof.
  unfold assign_all. intros H. revert r.
  induction H as [|u us Hu _ IH]; intros r Hr; [exact Hr|].
  cbn [fold_left]. apply IH. apply assign_ok; assumption.
Qed.

Lemma valid_add_row_ok (n : Z) (q : Q) (sc sd sdt now : string) :
  valid_add (JNum (Fin q)) (JStr sc) (JStr sd) (JStr sdt) ->
  row_ok (mkExpense n q (toLowerCase sc) (trim sd) sdt now).
Proof.
  intros (Ha & Hc & (s & Hs & Hne) & Hdt). injection Hs as <-.
  unfold row_ok. cbn [amount category description date].
  split; [apply Qlt_bool_iff; exact Ha|].
  split; [apply includes_In; cbn [isValidCategory] in Hc; congruence|].
  split; [exact Hne|].
  split; [apply trim_idempotent | exact Hdt].
Qed.

Lemma handle_rows_ok (now : string) (req : request) (db : Db) :
  rows_ok db -> rows_ok (fst (handle now req db)).
Proof.
  intros Hok. unfold handle.
  destruct req as [a c d dt|s e c l|s e|y m|i a c d dt|i]; cbn [run_tool].
  - destruct (addExpense_cases now a c d dt db)
      as [(_ & e & E)|(Hv & q & sc & sd & sdt & -> & -> & -> & -> & E)].
    + rewrite (bind_err _ _ _ _ _ E). exact Hok.
    + cbv zeta in E. rewrite (bind_ok _ _ _ _ _ E). cbn [ret fst].
      unfold rows_ok. cbn [rows]. apply Forall_app. split; [exact Hok|].
      constructor; [|constructor]. apply valid_add_row_ok. exact Hv.
  - pose proof (readonly_getExpenses s e c l db) as R. unfold bind.
    destruct (getExpenses s e c l db) as [db1 [e1|r]]; cbn [fst] in *;
      subst db1; exact Hok.
  - pose proof (readonly_getSpendingByCategory s e db) as R. unfold bind.
    destruct (getSpendingByCategory s e db) as [db1 [e1|r]]; cbn [fst] in *;
      subst db1; exact Hok.
  - pose proof (readonly_getMonthlySummary y m db) as R. unfold bind.
    destruct (Monthly.getMonthlySummary y m db) as [db1 [e1|r]]; cbn [fst] in *;
      subst db1; exact Hok.
  - destruct (updateExpense_plan i a c d dt) as (plan & Hplan & E).
    unfold bind. rewrite E.
    destruct (has_id i db); [destruct plan as [e|us]|]; cbn [fst ret];
      try exact Hok.
    destruct Hplan as [_ Hus].
    unfold rows_ok, updated_db. cbn [rows]. apply Forall_map.
    eapply Forall_impl; [|exact Hok]. cbn beta. intros r Hr.
    destruct (id r =? i); [apply assign_all_ok; assumption | exact Hr].
  - unfold bind. rewrite deleteExpense_outcome.
    destruct (has_id i db); cbn [fst ret]; [|exact Hok].
    unfold rows_ok, deleted_db. cbn [rows].
    apply Forall_forall. intros r Hr. apply filter_In in Hr as [Hr _].
    unfold rows_ok in Hok. rewrite Forall_forall in Hok. apply Hok. exact Hr.
Qed.

Lemma toLowerCase_valid_category (c : string) :
  In c VALID_CATEGORIES -> toLowerCase c = c.
Proof.
  intros H. cbn in H.
  repeat (destruct H as [<-|H]; [reflexivity|]). contradiction.
Qed.

Lemma In_includes (l : list string) (x : string) :
  In x l -> includes l x = true.
Proof.
  intros H. unfold includes. apply existsb_exists.
  exists x. split; [exact H | apply String.eqb_refl].
Qed.

(** X3. When every row of the table has been validated, so has every
    row after any sequence of requests: its amount is positive, its
    category is one of the ten and in lower case, its description is
    not empty and is trimmed, its date is a valid date; each field
    would pass its validation again. *)
Theorem stored_rows_stay_valid (reqs : list (string * request)) (db : Db) :
  rows_ok db ->
  forall r, In r (rows (fst (serve reqs db))) ->
    row_ok r /\
    isValidAmount (JNum (Fin (amount r))) = true /\
    isValidCategory (JStr (category r)) = inr true /\
    toLowerCase (category r) = category r /\
    isValidDate (JStr (date r)) = true.
Proof.
  intros Hok.
  assert (H : rows_ok (fst (serve reqs db))).
  { revert db Hok. induction reqs as [|[now req] rest IH]; intros db Hok.
    - exact Hok.
    - rewrite serve_cons. cbn [fst]. apply IH. apply handle_rows_ok. exact Hok. }
  intros r Hr. unfold rows_ok in H. rewrite Forall_forall in H.
  specialize (H r Hr). split; [exact H|].
  destruct H as (Ha & Hc & _ & _ & Hdt).
  split; [apply Qlt_bool_iff; exact Ha|].
  split.
  - cbn [isValidCategory]. rewrite (toLowerCase_valid_category _ Hc).
    rewrite (In_includes _ _ Hc). reflexivity.
  - split; [apply toLowerCase_valid_category; exact Hc | exact Hdt].
Qed.

(** ** The first check that fails decides the error *)



(** ** Listings *)

Lemma readonly_eq {A} (c : M A) (db : Db) :
  readonly c -> c db = (db, snd (c db)).
Proof.
  intros H. specialize (H db). destruct (c db) as [db' r]. cbn in *. congruence.
Qed.

Lemma readonly_date_filter (mk : string -> where_term) (v : jsval) (err : string) :
  readonly (date_filter mk v err).
Proof. cbv [date_filter]. readonly_tac. Qed.

Lemma readonly_category_filter (v : jsval) : readonly (category_filter v).
Proof. cbv [category_filter]. readonly_tac. Qed.

(** Every run of [getExpenses]: an exception, or the rows that pass some
    list of filter terms, ordered and cut at the limit. *)
Lemma getExpenses_outcome (s e c : jsval) (limit : option Z) (db : Db) :
  (exists err, getExpenses s e c limit db = (db, inl err)) \/
  (exists q,
     let listing :=
       sql_limit (limit_of limit)
         (order_by date_desc_id_desc (filter (where_holds q) (rows db))) in
     getExpenses s e c limit db
     = (db, inr {| count := length listing; expenses := listing |})).
Proof.
  unfold getExpenses. cbv zeta.
  pose proof (readonly_eq _ db
                (readonly_date_filter DateGe (default_null s)
                   "Invalid start date format. Use YYYY-MM-DD")) as E1.
  destruct (snd (date_filter DateGe (default_null s) _ db)) as [e1|q1].
  { left. exists e1. rewrite (bind_err _ _ _ _ _ E1). reflexivity. }
  rewrite (bind_ok _ _ _ _ _ E1).
  pose proof (readonly_eq _ db
                (readonly_date_filter DateLe (default_null e)
                   "Invalid end date format. Use YYYY-MM-DD")) as E2.
  destruct (snd (date_filter DateLe (default_null e) _ db)) as [e2|q2].
  { left. exists e2. rewrite (bind_err _ _ _ _ _ E2). reflexivity. }
  rewrite (bind_ok _ _ _ _ _ E2).
  pose proof (readonly_eq _ db (readonly_category_filter (default_null c))) as E3.
  destruct (snd (category_filter (default_null c) db)) as [e3|q3].
  { left. exists e3. rewrite (bind_err _ _ _ _ _ E3). reflexivity. }
  rewrite (bind_ok _ _ _ _ _ E3).
  right. exists (q1 ++ q2 ++ q3).
  cbv [sql_select_where bind get_rows ret].
  rewrite as_array_first_result, count_first_result.
  unfold limit_of, default_limit. destruct limit; reflexivity.
Qed.

Lemma string_leb_trans (a b c : string) :
  String.leb a b = true -> String.leb b c = true -> String.leb a c = true.
Proof.
  unfold String.leb. intros H1 H2.
  destruct (String.compare a c) eqn:Eac; try reflexivity. exfalso.
  destruct (String.compare a b) eqn:Eab; try discriminate;
    destruct (String.compare b c) eqn:Ebc; try discriminate.
  - apply String.compare_eq_iff in Eab, Ebc. subst.
    rewrite string_compare_refl in Eac. discriminate.
  - apply String.compare_eq_iff in Eab. subst. congruence.
  - apply String.compare_eq_iff in Ebc. subst. congruence.
  - rewrite String.compare_antisym in Eab, Ebc.
    destruct (String.compare b a) eqn:Eba; try discriminate.
    destruct (String.compare c b) eqn:Ecb; try discriminate.
    pose proof (string_compare_gt_trans _ _ _ Ecb Eba) as H.
    rewrite String.compare_antisym, Eac in H. discriminate.
Qed.

Lemma sql_limit_prefix {A} (n : Z) (l : list A) :
  exists rest, l = sql_limit n l ++ rest.
Proof.
  unfold sql_limit. destruct (n <? 0).
  - exists []. rewrite app_nil_r. reflexivity.
  - exists (skipn (Z.to_nat n) l). symmetry. apply firstn_skipn.
Qed.

Lemma StronglySorted_app_l {A} (R : A -> A -> Prop) (l1 l2 : list A) :
  StronglySorted R (l1 ++ l2) -> StronglySorted R l1.
Proof.
  induction l1 as [|x l1 IH]; cbn [app]; intros H; [constructor|].
  inversion H as [|? ? Hs Hx]; subst. constructor; [auto|].
  apply Forall_app in Hx. tauto.
Qed.

(** X6. Whenever [getExpenses] succeeds, whatever the arguments, the
    database is unchanged, [count] is the number of rows returned, every
    row returned is a row of the table, the rows come newest first, a
    limit that is not negative bounds their number, and rows with
    distinct keys in the table give rows with distinct keys in the
    listing. *)
Theorem getExpenses_listing_is_sound
        (s e c : jsval) (limit : option Z) (db db' : Db) (res : list_result) :
  getExpenses s e c limit db = (db', inr res) ->
  db' = db /\
  count res = length (expenses res) /\
  incl (expenses res) (rows db) /\
  StronglySorted newest_first (expenses res) /\
  (0 <= limit_of limit ->
     (length (expenses res) <= Z.to_nat (limit_of limit))%nat) /\
  (NoDup (ids db) -> NoDup (map id (expenses res))).
Proof.
  intros H.
  destruct (getExpenses_outcome s e c limit db) as [[err E]|[q E]];
    rewrite E in H; [discriminate|].
  cbv zeta in H. injection H as <- <-. cbn [count expenses].
  set (matching := filter (where_holds q) (rows db)).
  set (sorted := order_by date_desc_id_desc matching).
  destruct (sql_limit_prefix (limit_of limit) sorted) as [rest Hrest].
  assert (Hperm : Permutation sorted matching) by apply order_by_perm.
  assert (Hsorted : StronglySorted newest_first sorted).
  { eapply StronglySorted_impl.
    2: apply (order_by_sorted date_desc_id_desc date_desc_id_desc_total
                date_desc_id_desc_trans).
    intros x y Hxy. apply date_desc_id_desc_iff. exact Hxy. }
  split; [reflexivity|]. split; [reflexivity|].
  split; [|split; [|split]].
  - intros r Hr.
    assert (Hin : In r sorted) by (rewrite Hrest; apply in_or_app; left; exact Hr).
    apply (Permutation_in _ Hperm) in Hin.
    apply filter_In in Hin. tauto.
  - rewrite Hrest in Hsorted. apply StronglySorted_app_l in Hsorted. exact Hsorted.
  - intros Hl. unfold sql_limit. destruct (Z.ltb_spec (limit_of limit) 0); [lia|].
    apply firstn_le_length.
  - intros ND.
    assert (ND' : NoDup (map id sorted)).
    { apply (Permutation_NoDup (Permutation_map id (Permutation_sym Hperm))).
      apply keys_distinct_after_filter. exact ND. }
    rewrite Hrest, map_app in ND'. apply NoDup_app_remove_r in ND'. exact ND'.
Qed.

Lemma getExpenses_valid_run
      (db : Db) (startDate endDate cat : jsval) (limit : option Z) :
  valid_date_filter startDate ->
  valid_date_filter endDate ->
  valid_category_filter cat ->
  let listing :=
    sql_limit (limit_of limit)
      (order_by date_desc_id_desc
         (filter (matches_filter startDate endDate cat) (rows db))) in
  getExpenses startDate endDate cat limit db
  = (db, inr {| count := length listing; expenses := listing |}).
Proof.
  intros Hs He Hc. unfold getExpenses. cbv zeta.
  rewrite (bind_ok _ _ _ _ _ (date_filter_valid DateGe startDate _ db Hs)).
  rewrite (bind_ok _ _ _ _ _ (date_filter_valid DateLe endDate _ db He)).
  rewrite (bind_ok _ _ _ _ _ (category_filter_valid cat db Hc)).
  cbv [sql_select_where bind get_rows ret].
  rewrite as_array_first_result, count_first_result.
  rewrite (filter_ext _ _ (where_holds_matches startDate endDate cat)).
  unfold limit_of, default_limit. destruct limit; reflexivity.
Qed.

(** X7. Edge cases of a listing with acceptable filters: the limit 0
    gives an empty listing; a negative limit gives every matching row;
    and a start date that is after the end date gives an empty listing,
    not an error. *)
Theorem getExpenses_edge_cases
        (db : Db) (startDate endDate cat : jsval) :
  valid_date_filter startDate ->
  valid_date_filter endDate ->
  valid_category_filter cat ->
  getExpenses startDate endDate cat (Some 0) db
  = (db, inr {| count := 0; expenses := [] |}) /\
  (forall n, n < 0 ->
     exists all,
       Permutation all
         (filter (matches_filter startDate endDate cat) (rows db)) /\
       getExpenses startDate endDate cat (Some n) db
       = (db, inr {| count := length all; expenses := all |})) /\
  (forall s e limit,
     startDate = JStr s -> endDate = JStr e ->
     String.ltb e s = true ->
     getExpenses startDate endDate cat limit db
     = (db, inr {| count := 0; expenses := [] |})).
Proof.
  intros Hs He Hc. split; [|split].
  - rewrite getExpenses_valid_run by assumption. reflexivity.
  - intros n Hn. eexists. split; [|rewrite getExpenses_valid_run by assumption].
    2:{ cbv zeta. unfold sql_limit, limit_of.
        destruct (Z.ltb_spec n 0); [reflexivity | lia]. }
    apply order_by_perm.
  - intros s e limit -> -> Hlt.
    rewrite getExpenses_valid_run by assumption. cbv zeta.
    rewrite filter_none; [unfold sql_limit; destruct (limit_of limit <? 0);
                          [reflexivity | rewrite firstn_nil; reflexivity]|].
    intros r _. unfold matches_filter.
    destruct (String.leb s (date r)) eqn:E1; [|reflexivity].
    destruct (String.leb (date r) e) eqn:E2; [|reflexivity].
    exfalso. pose proof (string_leb_trans _ _ _ E1 E2) as H.
    unfold String.leb in H. unfold String.ltb in Hlt.
    rewrite String.compare_antisym in H.
    destruct (String.compare e s); discriminate.
Qed.

(** ** CSV *)

Lemma read_field_escape (d rest : string) :
  match rest with
  | String c _ => Ascii.eqb c Utils.dquote = false
  | EmptyString => True
  end ->
  read_field (Utils.escape_quotes d +++ String Utils.dquote rest)
  = Some (d, rest).
Proof.
  intros Hrest. induction d as [|c d IH].
  - cbn [Utils.escape_quotes String.append read_field].
    rewrite Ascii.eqb_refl. destruct rest as [|c2 r]; [reflexivity|].
    rewrite Hrest. reflexivity.
  - cbn [Utils.escape_quotes]. destruct (Ascii.eqb c Utils.dquote) eqn:E.
    + cbn [String.append read_field]. rewrite Ascii.eqb_refl.
      change (read_field (Utils.escape_quotes d +++ String Utils.dquote rest))
        with (read_field (Utils.escape_quotes d +++ String Utils.dquote rest)).
      rewrite IH. apply Ascii.eqb_eq in E. subst c. reflexivity.
    + cbn [String.append read_field]. rewrite E, IH. reflexivity.
Qed.

(** X8. The description survives the CSV encoding: every row is some
    text followed by the quoted description field, and a reader that
    takes doubled quotes for one quote gets back the description as
    stored and is left with the comma, the date and the creation time.
    An empty list of rows gives the header line alone. *)
Theorem csv_description_round_trip (number_to_string : Q -> string) :
  (forall e,
     exists pre field,
       Utils.csv_row number_to_string e = pre +++ field /\
       read_quoted field
       = Some (description e, "," +++ date e +++ "," +++ created_at e)) /\
  (forall d, unescape_quotes (Utils.escape_quotes d) = d) /\
  Utils.convertToCSV number_to_string [] = Utils.csv_header.
Proof.
  split; [|split; [|reflexivity]].
  - intros e.
    exists (string_of_Z (id e) +++ "," +++ number_to_string (amount e) +++ ","
            +++ category e +++ ","),
      (String Utils.dquote
         (Utils.escape_quotes (description e)
          +++ String Utils.dquote ("," +++ date e +++ "," +++ created_at e))).
    split.
    + unfold Utils.csv_row. cbn [join].
      rewrite !append_assoc. cbn [String.append].
      rewrite ?append_assoc. cbn [String.append]. reflexivity.
    + cbn [read_quoted]. rewrite Ascii.eqb_refl.
      apply read_field_escape. reflexivity.
  - induction d as [|c d IH]; [reflexivity|].
    cbn [Utils.escape_quotes]. destruct (Ascii.eqb c Utils.dquote) eqn:E.
    + cbn [unescape_quotes]. rewrite Ascii.eqb_refl, IH.
      apply Ascii.eqb_eq in E. subst c. reflexivity.
    + cbn [unescape_quotes]. rewrite E, IH. reflexivity.
Qed.

Lemma getExpenses_success_facts
      (s e c : jsval) (limit : option Z) (db db' : Db) (res : list_result) :
  getExpenses s e c limit db = (db', inr res) ->
  db' = db /\
  count res = length (expenses res) /\
  (0 <= limit_of limit ->
     (length (expenses res) <= Z.to_nat (limit_of limit))%nat).
Proof.
  intros H.
  destruct (getExpenses_outcome s e c limit db) as [[err E]|[q E]];
    rewrite E in H; [discriminate|].
  cbv zeta in H. injection H as <- <-. cbn [count expenses].
  split; [reflexivity|]. split; [reflexivity|].
  intros Hl. unfold sql_limit. destruct (Z.ltb_spec (limit_of limit) 0); [lia|].
  apply firstn_le_length.
Qed.

Lemma default_null_idempotent (v : jsval) :
  default_null (default_null v) = default_null v.
Proof. destruct v; reflexivity. Qed.

(** X9. The export is the listing with the limit 10000 put into CSV: it
    throws exactly what [getExpenses] throws for the same filters, and
    otherwise its count is the number of rows listed, never more than
    10000, and its text is the CSV of those rows. *)
Theorem exportToCSV_follows_listing
        (number_to_string : Q -> string) (s e c : jsval) (db : Db) :
  match getExpenses s e c (Some 10000) db with
  | (_, inl err) =>
      Utils.exportToCSV number_to_string s e c db = (db, inl err)
  | (_, inr r) =>
      Z.of_nat (count r) <= 10000 /\
      Utils.exportToCSV number_to_string s e c db
      = (db, inr {| Utils.export_count := count r;
                    Utils.csv := Utils.convertToCSV number_to_string (expenses r);
                    Utils.export_message :=
                      "Exported " +++ string_of_Z (Z.of_nat (count r))
                        +++ " expenses to CSV format" |})
  end.
Proof.
  assert (Hsame : getExpenses (default_null s) (default_null e) (default_null c)
                    (Some 10000) db
                  = getExpenses s e c (Some 10000) db).
  { unfold getExpenses. cbv zeta. rewrite !default_null_idempotent. reflexivity. }
  pose proof (readonly_getExpenses s e c (Some 10000) db) as R.
  destruct (getExpenses s e c (Some 10000) db) as [db1 [err|r]] eqn:E;
    cbn [fst] in R; subst db1.
  - unfold Utils.exportToCSV. cbv zeta.
    rewrite (bind_err _ _ _ _ _ Hsame). reflexivity.
  - destruct (getExpenses_success_facts s e c (Some 10000) db db r E)
      as (_ & Hcount & Hlen).
    split.
    + rewrite Hcount. cbn [limit_of] in Hlen. lia.
    + unfold Utils.exportToCSV. cbv zeta.
      rewrite (bind_ok _ _ _ _ _ Hsame). reflexivity.
Qed.

Lemma Zsum_perm (l l' : list Z) : Permutation l l' -> Zsum l = Zsum l'.
Proof.
  induction 1 as [|x l l' HP IH|x y l|l l' l'' HP1 IH1 HP2 IH2];
    cbn [Zsum fold_right]; fold Zsum in *.
  - reflexivity.
  - fold (Zsum l). fold (Zsum l'). lia.
  - fold (Zsum l). lia.
  - congruence.
Qed.

Lemma Zsum_lengths {A} (ls : list (list A)) :
  Zsum (map (fun l => Z.of_nat (length l)) ls) = Z.of_nat (length (concat ls)).
Proof.
  induction ls as [|l ls IH]; cbn [map concat Zsum fold_right]; [reflexivity|].
  fold (Zsum (map (fun l0 => Z.of_nat (length l0)) ls)).
  rewrite IH, length_app. lia.
Qed.

(** ** The monthly summary *)

Lemma canonical_form_valid (y m d : Z) :
  DateSpec.real_calendar_date y m d ->
  isValidDateString (DateSpec.canonical_form y m d) = true.
Proof.
  intros Hreal. apply isValidDateString_complete. split.
  - destruct Hreal as (Hy & Hm & Hd).
    pose proof (days_in_month_bounds y m).
    eexists _, _, _, _, _, _, _, _. split; [|reflexivity].
    repeat (constructor; [apply is_digit_char; Z.div_mod_to_equations; lia|]).
    constructor.
  - exists y, m, d. split; [exact Hreal | reflexivity].
Qed.

Lemma getMonthlySummary_valid_run (db : Db) (year month : Z) :
  2000 <= year <= 2100 -> 1 <= month <= 12 ->
  let amounts := map amount (month_rows db year month) in
  Monthly.getMonthlySummary (inject_Z year) (inject_Z month) db
  = (db,
     inr {| Monthly.month := Monthly.getMonthName (inject_Z month);
            Monthly.year := inject_Z year;
            Monthly.period :=
              first_day year month +++ " to " +++ last_day year month;
            Monthly.summary_of :=
              {| Monthly.total_transactions := Z.of_nat (length amounts);
                 Monthly.total_spending :=
                   or_zero match amounts with
                           | [] => None
                           | _ => Some (sql_sum amounts)
                           end;
                 Monthly.average_transaction :=
                   or_zero match amounts with
                           | [] => None
                           | _ => Some (sql_avg amounts)
                           end |};
            Monthly.category_breakdown :=
              order_by Monthly.gt_total_desc
                (map Monthly.total_of_group
                   (sql_group_by category (month_rows db year month)));
            Monthly.daily_spending :=
              order_by Monthly.gt_key_asc
                (map Monthly.total_of_group
                   (sql_group_by date (month_rows db year month))) |}).
Proof.
  intros Hy Hm. cbv zeta. unfold Monthly.getMonthlySummary.
  rewrite year_check_inject_Z, month_check_inject_Z.
  replace ((year =? 0) || (year <? 2000) || (year >? 2100)) with false
    by (symmetry; repeat (apply orb_false_iff; split); lia).
  replace ((month =? 0) || (month <? 1) || (month >? 12)) with false
    by (symmetry; repeat (apply orb_false_iff; split); lia).
  run.
  cbv [Monthly.sql_totals Monthly.sql_category_totals Monthly.sql_daily_totals
         bind get_rows ret].
  rewrite !as_array_first_result.
  rewrite month_start_first_day, month_end_last_day by assumption.
  reflexivity.
Qed.

Lemma Qeq_bool_false (x y : Q) : ~ (x == y)%Q -> Qeq_bool x y = false.
Proof.
  intros H. destruct (Qeq_bool x y) eqn:E; [|reflexivity].
  apply Qeq_bool_iff in E. contradiction.
Qed.

(** Any numbers that pass the two checks give a summary. *)
Lemma getMonthlySummary_runs (db : Db) (year month : Q) :
  (2000 <= year <= 2100)%Q -> (1 <= month <= 12)%Q ->
  exists res,
    Monthly.getMonthlySummary year month db = (db, inr res) /\
    Monthly.year res = year /\
    Monthly.month res = Monthly.getMonthName month /\
    Monthly.period res
    = Monthly.month_start year month +++ " to " +++ Monthly.month_end year month.
Proof.
  intros Hy Hm. unfold Monthly.getMonthlySummary.
  rewrite (Qeq_bool_false year 0), (Qlt_bool_false year 2000),
    (Qlt_bool_false 2100 year) by lra.
  rewrite (Qeq_bool_false month 0), (Qlt_bool_false month 1),
    (Qlt_bool_false 12 month) by lra.
  run.
  cbv [Monthly.sql_totals Monthly.sql_category_totals Monthly.sql_daily_totals
         bind get_rows ret].
  eexists. split; [reflexivity|].
  cbn [Monthly.year Monthly.month Monthly.period]. repeat split.
Qed.

(** X10. [getMonthlySummary] takes any numbers.  It refuses a year
    below 2000 or above 2100 with the year message and, for a year in
    between, a month below 1 or above 12 with the month message; all
    other numbers, whole or not, give a summary for the very year
    passed.  For whole numbers the summary names the month and reports
    as its period the first and the last day of the month, both of them
    dates that [isValidDate] accepts, the last one being the last day
    the month has in that year.  A month that is not a whole number is
    not refused: for the month 11.5 of 2024 the name is Unknown and the
    period runs from 2024-11.5-01 to 2024-11.5-30. *)
Theorem getMonthlySummary_validates (db : Db) :
  (forall year month : Q,
     (year < 2000)%Q \/ (2100 < year)%Q ->
     Monthly.getMonthlySummary year month db
     = (db, inl (Error "Invalid year. Must be between 2000 and 2100"))) /\
  (forall year month : Q,
     (2000 <= year <= 2100)%Q -> (month < 1)%Q \/ (12 < month)%Q ->
     Monthly.getMonthlySummary year month db
     = (db, inl (Error "Invalid month. Must be between 1 and 12"))) /\
  (forall year month : Q,
     (2000 <= year <= 2100)%Q -> (1 <= month <= 12)%Q ->
     exists res,
       Monthly.getMonthlySummary year month db = (db, inr res) /\
       Monthly.year res = year) /\
  (forall year month : Z,
     2000 <= year <= 2100 -> 1 <= month <= 12 ->
     exists res,
       Monthly.getMonthlySummary (inject_Z year) (inject_Z month) db
       = (db, inr res) /\
       Monthly.year res = inject_Z year /\
       Monthly.month res <> "Unknown"%string /\
       Monthly.period res
       = DateSpec.canonical_form year month 1 +++ " to "
           +++ DateSpec.canonical_form year month
                 (JSDate.days_in_month year month) /\
       isValidDate (JStr (DateSpec.canonical_form year month 1)) = true /\
       isValidDate (JStr (DateSpec.canonical_form year month
                            (JSDate.days_in_month year month))) = true /\
       isValidDate (JStr (DateSpec.canonical_form year month
                            (JSDate.days_in_month year month + 1))) = false) /\
  (exists res,
     Monthly.getMonthlySummary 2024 (23 # 2) db = (db, inr res) /\
     Monthly.month res = "Unknown"%string /\
     Monthly.period res = "2024-11.5-01 to 2024-11.5-30"%string).
Proof.
  split; [|split; [|split; [|split]]].
  - intros year month Hy. unfold Monthly.getMonthlySummary.
    replace (Qeq_bool year 0 || Qlt_bool year 2000 || Qlt_bool 2100 year)
      with true; [reflexivity|].
    symmetry. apply orb_true_iff. destruct Hy as [Hy|Hy].
    + left. apply orb_true_iff. right. apply Qlt_bool_true. exact Hy.
    + right. apply Qlt_bool_true. exact Hy.
  - intros year month Hy Hm. unfold Monthly.getMonthlySummary.
    rewrite (Qeq_bool_false year 0), (Qlt_bool_false year 2000),
      (Qlt_bool_false 2100 year) by lra.
    replace (Qeq_bool month 0 || Qlt_bool month 1 || Qlt_bool 12 month)
      with true; [reflexivity|].
    symmetry. apply orb_true_iff. destruct Hm as [Hm|Hm].
    + left. apply orb_true_iff. right. apply Qlt_bool_true. exact Hm.
    + right. apply Qlt_bool_true. exact Hm.
  - intros year month Hy Hm.
    destruct (getMonthlySummary_runs db year month Hy Hm)
      as (res & Hrun & Hyear & _).
    exists res. split; assumption.
  - intros year month Hy Hm.
    pose proof (days_in_month_bounds year month) as Hdim.
    eexists. split; [apply getMonthlySummary_valid_run; assumption|].
    cbn [Monthly.year Monthly.month Monthly.period].
    split; [reflexivity|]. split.
    { rewrite getMonthName_inject_Z by exact Hm.
      assert (H : (month <? 1)
                  || negb (String.eqb
                             (nth (Z.to_nat (month - 1))
                                ["January"; "February"; "March"; "April"; "May";
                                 "June"; "July"; "August"; "September";
                                 "October"; "November"; "December"]%string
                                "Unknown"%string)
                             "Unknown")
                  = true).
      { apply (forallb_range
                 (fun m => (m <? 1)
                           || negb (String.eqb
                                      (nth (Z.to_nat (m - 1))
                                         ["January"; "February"; "March";
                                          "April"; "May"; "June"; "July";
                                          "August"; "September"; "October";
                                          "November"; "December"]%string
                                         "Unknown"%string)
                                      "Unknown"))
                 13); [vm_compute; reflexivity | lia]. }
      apply orb_true_iff in H as [H|H]; [lia|].
      apply negb_true_iff in H. apply String.eqb_neq. exact H. }
    split; [reflexivity|].
    cbn [isValidDate].
    split; [apply canonical_form_valid; repeat split; lia|].
    split; [apply canonical_form_valid; repeat split; lia|].
    destruct (isValidDateString
                (DateSpec.canonical_form year month
                   (JSDate.days_in_month year month + 1))) eqn:E; [|reflexivity].
    exfalso. apply isValidDateString_sound in E.
    destruct E as (_ & y' & m' & d' & (Hy' & Hm' & Hd') & Hc).
    pose proof (days_in_month_bounds y' m').
    apply canonical_form_inj in Hc; try lia.
    destruct Hc as (-> & -> & ->). lia.
  - assert (Hy : (2000 <= 2024 <= 2100)%Q) by (split; discriminate).
    assert (Hm : (1 <= 23 # 2 <= 12)%Q) by (split; discriminate).
    destruct (getMonthlySummary_runs db 2024 (23 # 2) Hy Hm)
      as (res & Hrun & _ & Hname & Hperiod).
    exists res. split; [exact Hrun|].
    split; [rewrite Hname | rewrite Hperiod]; vm_compute; reflexivity.
Qed.

Lemma or_zero_round64 (x : Q) :
  or_zero (Some (Double.round64 x)) = Double.round64 x.
Proof.
  cbn [or_zero]. destruct (Qeq_bool (Double.round64 x) 0) eqn:E; [|reflexivity].
  apply Qeq_bool_iff in E. unfold Double.round64 in *.
  apply Qred_complete in E.
  rewrite (Qred_complete _ _ (Qred_correct _)) in E. rewrite E. reflexivity.
Qed.

Lemma or_zero_sql_sum (amounts : list Q) :
  Forall amount_ok amounts ->
  or_zero match amounts with [] => None | _ => Some (sql_sum amounts) end
  = sql_sum amounts.
Proof.
  intros H. destruct amounts as [|a l]; [reflexivity|].
  destruct (sql_sum_ok (a :: l) H) as [[Hpos _] _]; [discriminate|].
  cbn [or_zero]. rewrite Qeq_bool_false; [reflexivity|]. lra.
Qed.

Lemma or_zero_sql_avg (amounts : list Q) :
  amounts <> [] ->
  or_zero match amounts with [] => None | _ => Some (sql_avg amounts) end
  = Double.div (sql_sum amounts) (inject_Z (Z.of_nat (length amounts))).
Proof.
  intros H. destruct amounts as [|a l]; [contradiction|].
  unfold sql_avg, Double.div. apply or_zero_round64.
Qed.

(** Rounding a positive number to a double changes it by at most the
    fraction [2^-53] of itself, or by [2^-1075] where doubles are
    spaced [2^-1074] apart. *)
Lemma round64_error (x : Q) :
  (0 < x)%Q ->
  (Qabs (Double.round64 x - x) <= Double.u * x + Double.pow2 (-1075))%Q.
Proof.
  intros Hx.
  pose proof (DoubleFacts.ilog2_spec x Hx) as [Hlo Hhi].
  pose proof (DoubleFacts.pow2_pos (-1075)) as P.
  destruct (Z_le_gt_dec (-1022) (Double.ilog2 x)) as [Hn|Hs].
  - pose proof (DoubleFacts.round64_error_below x (Double.ilog2 x) Hx Hhi Hn) as E.
    pose proof (DoubleFacts.pow2_add (Double.ilog2 x) (-53)) as A.
    replace (Double.ilog2 x + -53) with (Double.ilog2 x - 53) in A by lia.
    unfold Double.u.
    set (a := Double.pow2 (Double.ilog2 x)) in *.
    set (b := Double.pow2 (-53)) in *.
    assert (Hb : (0 < b)%Q) by apply DoubleFacts.pow2_pos.
    set (c := Double.pow2 (Double.ilog2 x - 53)) in *.
    set (d := Double.pow2 (-1075)) in *.
    set (r := Qabs (Double.round64 x - x)) in *.
    clearbody a b c d r. nra.
  - assert (Hlt : (x < Double.pow2 (-1022 + 1))%Q).
    { eapply Qlt_le_trans; [exact Hhi|]. apply DoubleFacts.pow2_le. lia. }
    pose proof (DoubleFacts.round64_error_below x (-1022) Hx Hlt (Z.le_refl _)) as E.
    change (-1022 - 53) with (-1075) in E.
    pose proof DoubleFacts.u_pos as U.
    set (d := Double.pow2 (-1075)) in *.
    set (r := Qabs (Double.round64 x - x)) in *.
    set (v := Double.u) in *.
    clearbody d r v. nra.
Qed.

Section MonthlyGroups.
Context (key : expense -> string) (leb : Monthly.group_total -> Monthly.group_total -> bool).

Lemma group_totals_perm (l : list expense) :
  Permutation (order_by leb (map Monthly.total_of_group (sql_group_by key l)))
              (map Monthly.total_of_group (group_by key l)).
Proof.
  etransitivity; [apply order_by_perm|].
  apply Permutation_map. apply sql_group_by_perm.
Qed.

(** The totals of the groups add up to the sum of all rows up to one
    rounding for each row. *)
Lemma group_totals_within (l : list expense) :
  Forall amount_ok (map amount l) ->
  within (length l) (Qsum (map amount l))
    (Qsum (map Monthly.gt_total
             (order_by leb (map Monthly.total_of_group (sql_group_by key l))))).
Proof.
  intros Hok.
  pose proof (group_by_members key l) as Hmem.
  eapply within_proper.
  3: apply (group_sums_within (group_by key l) (length l)).
  - apply Qsum_perm. apply Permutation_map. apply group_by_perm.
  - rewrite (Qsum_perm _ _ (Permutation_map Monthly.gt_total (group_totals_perm l))).
    rewrite map_map. reflexivity.
  - rewrite Forall_forall in Hmem |- *. intros g Hin.
    rewrite (Hmem g Hin). unfold members.
    apply Forall_map. apply Forall_forall. intros r Hr.
    apply filter_In in Hr as [Hr _].
    rewrite Forall_map, Forall_forall in Hok. apply Hok. exact Hr.
  - rewrite Forall_forall in Hmem |- *. intros g Hin.
    rewrite (Hmem g Hin). unfold members. apply filter_length_le.
Qed.

Lemma group_totals_count (l : list expense) :
  Zsum (map Monthly.gt_count
          (order_by leb (map Monthly.total_of_group (sql_group_by key l))))
  = Z.of_nat (length l).
Proof.
  rewrite (Zsum_perm _ _ (Permutation_map Monthly.gt_count (group_totals_perm l))).
  rewrite map_map. cbn [Monthly.total_of_group Monthly.gt_count].
  rewrite <- (Permutation_length (group_by_perm key l)).
  rewrite <- Zsum_lengths, map_map. reflexivity.
Qed.

Lemma group_totals_keys (l : list expense) (g : Monthly.group_total) :
  In g (order_by leb (map Monthly.total_of_group (sql_group_by key l))) ->
  1 <= Monthly.gt_count g /\ exists x, In x l /\ key x = Monthly.gt_key g.
Proof.
  intros Hg. apply (Permutation_in _ (group_totals_perm l)) in Hg.
  apply in_map_iff in Hg as (grp & <- & Hgrp).
  cbn [Monthly.total_of_group Monthly.gt_count Monthly.gt_key]. split.
  - pose proof (group_by_nonempty key l grp Hgrp) as Hne.
    destruct (snd grp); [contradiction | cbn [length]; lia].
  - apply group_by_keys. apply in_map. exact Hgrp.
Qed.

Lemma group_totals_NoDup (l : list expense) :
  NoDup (map Monthly.gt_key
           (order_by leb (map Monthly.total_of_group (sql_group_by key l)))).
Proof.
  apply (Permutation_NoDup
           (Permutation_map Monthly.gt_key (Permutation_sym (group_totals_perm l)))).
  rewrite map_map. cbn [Monthly.total_of_group Monthly.gt_key].
  apply group_by_NoDup.
Qed.
End MonthlyGroups.

Lemma gt_total_desc_total (a b : Monthly.group_total) :
  Monthly.gt_total_desc a b = true \/ Monthly.gt_total_desc b a = true.
Proof.
  unfold Monthly.gt_total_desc. rewrite !Qle_bool_iff.
  destruct (Qlt_le_dec (Monthly.gt_total a) (Monthly.gt_total b)) as [H|H];
    [right; apply Qlt_le_weak; exact H | left; exact H].
Qed.

Lemma gt_total_desc_trans (a b c : Monthly.group_total) :
  Monthly.gt_total_desc a b = true -> Monthly.gt_total_desc b c = true ->
  Monthly.gt_total_desc a c = true.
Proof.
  unfold Monthly.gt_total_desc. rewrite !Qle_bool_iff. intros H1 H2.
  eapply Qle_trans; eassumption.
Qed.

(** X11. In a monthly summary the figures agree with one another.  The
    number of transactions is the number of rows of the month, and the
    category breakdown and the daily breakdown each add up to that
    number; categories come with the larger total first and days in
    the order of their dates, each day once, each within the month and
    with at least one transaction.  The amounts are added as doubles:
    with positive doubles in the table, and as long as the total stays
    below [2^1024], the total, the totals of the categories taken
    together and the totals of the days taken together are each the
    sum of the amounts of the month up to one rounding for each row,
    and the average is the total divided by the number of rows, rounded
    to a double. *)
Theorem getMonthlySummary_figures_agree (db : Db) (year month : Z) :
  2000 <= year <= 2100 -> 1 <= month <= 12 ->
  exists res,
    Monthly.getMonthlySummary (inject_Z year) (inject_Z month) db
    = (db, inr res) /\
    let rs := month_rows db year month in
    let s := Monthly.summary_of res in
    Monthly.total_transactions s = Z.of_nat (length rs) /\
    Zsum (map Monthly.gt_count (Monthly.category_breakdown res))
    = Monthly.total_transactions s /\
    Zsum (map Monthly.gt_count (Monthly.daily_spending res))
    = Monthly.total_transactions s /\
    StronglySorted larger_total_first (Monthly.category_breakdown res) /\
    StronglySorted earlier_day_first (Monthly.daily_spending res) /\
    NoDup (map Monthly.gt_key (Monthly.daily_spending res)) /\
    (forall g, In g (Monthly.daily_spending res) ->
       within_month year month (Monthly.gt_key g) /\ 1 <= Monthly.gt_count g) /\
    (amounts_ok db ->
     (Monthly.total_spending s < Double.pow2 1024)%Q ->
     let exact := Qsum (map amount rs) in
     within (length rs) exact (Monthly.total_spending s) /\
     within (length rs) exact
       (Qsum (map Monthly.gt_total (Monthly.category_breakdown res))) /\
     within (length rs) exact
       (Qsum (map Monthly.gt_total (Monthly.daily_spending res))) /\
     (rs <> [] ->
        let q := (Monthly.total_spending s / inject_Z (Z.of_nat (length rs)))%Q in
        Monthly.average_transaction s = Double.round64 q /\
        (Qabs (Monthly.average_transaction s - q)
         <= Double.u * q + Double.pow2 (-1075))%Q)).
Proof.
  intros Hy Hm.
  eexists. split; [apply getMonthlySummary_valid_run; assumption|].
  cbv zeta.
  cbn [Monthly.summary_of Monthly.total_transactions Monthly.total_spending
         Monthly.average_transaction Monthly.category_breakdown
         Monthly.daily_spending].
  set (rs := month_rows db year month).
  rewrite !length_map.
  split; [reflexivity|].
  split; [apply group_totals_count|].
  split; [apply group_totals_count|].
  split.
  { eapply StronglySorted_impl.
    2: apply (order_by_sorted Monthly.gt_total_desc gt_total_desc_total
                gt_total_desc_trans).
    cbn beta. intros a b H. unfold larger_total_first.
    apply Qle_bool_iff. exact H. }
  split.
  { apply (order_by_sorted Monthly.gt_key_asc).
    - intros a b. apply String.leb_total.
    - intros a b c. apply string_leb_trans. }
  split; [apply group_totals_NoDup|].
  split.
  { intros g Hg. apply group_totals_keys in Hg as (Hcount & x & Hx & E).
    split; [|exact Hcount].
    unfold rs, month_rows in Hx. apply filter_In in Hx as [_ Hx].
    unfold Monthly.in_range in Hx. apply andb_true_iff in Hx.
    rewrite <- E. exact Hx. }
  intros Hok _.
  assert (Hrs : Forall amount_ok (map amount rs))
    by (apply amounts_ok_filter; exact Hok).
  rewrite (or_zero_sql_sum _ Hrs).
  split.
  { rewrite <- (length_map amount rs). apply sql_sum_within. exact Hrs. }
  split; [apply group_totals_within; exact Hrs|].
  split; [apply group_totals_within; exact Hrs|].
  intros Hne.
  assert (Hne' : map amount rs <> [])
    by (destruct rs; [contradiction | discriminate]).
  rewrite (or_zero_sql_avg _ Hne'), length_map.
  split; [reflexivity|].
  apply round64_error.
  destruct (sql_sum_ok _ Hrs Hne') as [[Hpos _] _].
  apply Qlt_shift_div_l; [|lra].
  change 0%Q with (inject_Z 0). rewrite <- Zlt_Qlt.
  destruct rs; [contradiction | cbn [length]; lia].
Qed.

(** ** Statistics of the category breakdown *)

Lemma Qmin_list_le (l : list Q) (a : Q) :
  (Qmin_list a l <= a)%Q /\ Forall (fun x => (Qmin_list a l <= x)%Q) l.
Proof.
  unfold Qmin_list. revert a. induction l as [|x l IH]; intros a; cbn [fold_left].
  - split; [apply Qle_refl | constructor].
  - destruct (IH (Qmin a x)) as [H1 H2].
    assert (Hmin : (Qmin a x <= a /\ Qmin a x <= x)%Q).
    { unfold Qmin. destruct (Qle_bool a x) eqn:E.
      - apply Qle_bool_iff in E. split; [apply Qle_refl | exact E].
      - split; [|apply Qle_refl].
        destruct (Qlt_le_dec x a) as [H|H]; [apply Qlt_le_weak; exact H|].
        apply Qle_bool_iff in H. congruence. }
    split; [eapply Qle_trans; [exact H1 | tauto]|].
    constructor; [eapply Qle_trans; [exact H1 | tauto] | exact H2].
Qed.

Lemma Qmax_list_ge (l : list Q) (a : Q) :
  (a <= Qmax_list a l)%Q /\ Forall (fun x => (x <= Qmax_list a l)%Q) l.
Proof.
  unfold Qmax_list. revert a. induction l as [|x l IH]; intros a; cbn [fold_left].
  - split; [apply Qle_refl | constructor].
  - destruct (IH (Qmax a x)) as [H1 H2].
    assert (Hmax : (a <= Qmax a x /\ x <= Qmax a x)%Q).
    { unfold Qmax. destruct (Qle_bool a x) eqn:E.
      - apply Qle_bool_iff in E. split; [exact E | apply Qle_refl].
      - split; [apply Qle_refl|].
        destruct (Qlt_le_dec x a) as [H|H]; [apply Qlt_le_weak; exact H|].
        apply Qle_bool_iff in H. congruence. }
    split; [eapply Qle_trans; [|exact H1]; tauto|].
    constructor; [eapply Qle_trans; [|exact H1]; tauto | exact H2].
Qed.

Lemma Qmin_list_In (l : list Q) (a : Q) : In (Qmin_list a l) (a :: l).
Proof.
  unfold Qmin_list. revert a. induction l as [|x l IH]; intros a; cbn [fold_left].
  - left. reflexivity.
  - destruct (IH (Qmin a x)) as [H|H].
    + rewrite <- H. unfold Qmin. destruct (Qle_bool a x);
        [left; reflexivity | right; left; reflexivity].
    + right. right. exact H.
Qed.

Lemma Qmax_list_In (l : list Q) (a : Q) : In (Qmax_list a l) (a :: l).
Proof.
  unfold Qmax_list. revert a. induction l as [|x l IH]; intros a; cbn [fold_left].
  - left. reflexivity.
  - destruct (IH (Qmax a x)) as [H|H].
    + rewrite <- H. unfold Qmax. destruct (Qle_bool a x);
        [right; left; reflexivity | left; reflexivity].
    + right. right. exact H.
Qed.

Lemma hd_In {A} (d : A) (l : list A) : l <> [] -> In (hd d l) l.
Proof. destruct l; [contradiction | left; reflexivity]. Qed.

(** X12. In a category breakdown with acceptable dates each category
    of the period appears once and only categories of the period
    appear; for each group the count is the number of its rows, which is
    at least one, the average is the sum divided by the count, as
    doubles are divided, the minimum and the maximum are amounts of rows
    of the group and bound all of them; and the counts add up to the
    number of rows of the period. *)
Theorem getSpendingByCategory_statistics
        (db : Db) (startDate endDate : jsval) :
  valid_date_filter startDate ->
  valid_date_filter endDate ->
  exists res,
    getSpendingByCategory startDate endDate db = (db, inr res) /\
    NoDup (map (fun g => cs_category (stats g)) (categories res)) /\
    (forall r, In r (rows db) -> in_period startDate endDate r = true ->
       exists g, In g (categories res) /\ cs_category (stats g) = category r) /\
    (forall g, In g (categories res) ->
       let rs := filter (in_category startDate endDate (cs_category (stats g)))
                   (rows db) in
       rs <> [] /\
       transaction_count (stats g) = Z.of_nat (length rs) /\
       average_amount (stats g)
       = Double.div (total_amount (stats g))
           (inject_Z (transaction_count (stats g))) /\
       (forall r, In r rs ->
          (min_amount (stats g) <= amount r <= max_amount (stats g))%Q) /\
       (exists r, In r rs /\ min_amount (stats g) = amount r) /\
       (exists r, In r rs /\ max_amount (stats g) = amount r)) /\
    Zsum (map (fun g => transaction_count (stats g)) (categories res))
    = Z.of_nat (length (filter (in_period startDate endDate) (rows db))).
Proof.
  intros Hs He.
  eexists. split; [apply getSpendingByCategory_valid_run; assumption|].
  cbv zeta. cbn [categories].
  set (matched := filter (in_period startDate endDate) (rows db)).
  set (groups := sql_group_by category matched).
  set (sorted := order_by total_desc (map stats_of_group groups)).
  assert (Hperm : Permutation sorted (map stats_of_group groups))
    by apply order_by_perm.
  rewrite !map_map. cbn [stats].
  split; [|split; [|split]].
  - apply (Permutation_NoDup
             (Permutation_map cs_category (Permutation_sym Hperm))).
    rewrite map_map. cbn [stats_of_group cs_category].
    apply sql_group_by_NoDup.
  - intros r Hr Hin.
    assert (Hk : In (category r) (map fst groups)).
    { apply sql_group_by_keys. exists r. split; [|reflexivity].
      apply filter_In. split; assumption. }
    apply in_map_iff in Hk as (grp & E & Hgrp).
    eexists. split.
    + apply in_map. apply (Permutation_in _ (Permutation_sym Hperm)).
      apply in_map. exact Hgrp.
    + cbn [stats stats_of_group cs_category]. exact E.
  - intros g Hg. apply in_map_iff in Hg as (cat & <- & Hcat). cbn [stats].
    destruct (breakdown_group startDate endDate db cat Hcat)
      as (rs & Ers & Hne & Ecat).
    rewrite <- Ers. cbv zeta. rewrite Ecat.
    unfold stats_of_group.
    cbn [transaction_count total_amount average_amount min_amount max_amount
           fst snd].
    rewrite length_map.
    assert (Hamts : map amount rs <> []).
    { destruct rs; [contradiction | discriminate]. }
    split; [exact Hne|]. split; [reflexivity|].
    split; [unfold sql_avg; rewrite length_map; reflexivity|].
    split; [|split].
    + intros r Hr.
      destruct (Qmin_list_le (map amount rs) (hd 0%Q (map amount rs))) as [_ Hmin].
      destruct (Qmax_list_ge (map amount rs) (hd 0%Q (map amount rs))) as [_ Hmax].
      rewrite Forall_forall in Hmin, Hmax.
      split; [apply Hmin | apply Hmax]; apply in_map; exact Hr.
    + destruct (Qmin_list_In (map amount rs) (hd 0%Q (map amount rs))) as [H|H].
      * pose proof (hd_In 0%Q _ Hamts) as Hhd. rewrite H in Hhd.
        apply in_map_iff in Hhd as (r & E & Hr). exists r. auto.
      * apply in_map_iff in H as (r & E & Hr). exists r. auto.
    + destruct (Qmax_list_In (map amount rs) (hd 0%Q (map amount rs))) as [H|H].
      * pose proof (hd_In 0%Q _ Hamts) as Hhd. rewrite H in Hhd.
        apply in_map_iff in Hhd as (r & E & Hr). exists r. auto.
      * apply in_map_iff in H as (r & E & Hr). exists r. auto.
  - etransitivity;
      [apply (Zsum_perm _ _ (Permutation_map transaction_count Hperm))|].
    rewrite map_map. cbn [stats_of_group transaction_count].
    rewrite <- (Permutation_length (sql_group_by_rows category matched)).
    rewrite <- Zsum_lengths, map_map.
    f_equal. apply map_ext. intros grp. rewrite length_map. reflexivity.
Qed.

(** X13. With positive doubles in the table, and as long as the total
    stays below [2^1024], the sum of every group of a category
    breakdown is positive and not larger than the total, and the
    percentage of the group is never the number 0 but a text: a decimal
    with two places that denotes a number from 0.00 to 100.00. *)
Theorem getSpendingByCategory_percentage_range
        (db : Db) (startDate endDate : jsval) :
  valid_date_filter startDate ->
  valid_date_filter endDate ->
  amounts_ok db ->
  exists res,
    getSpendingByCategory startDate endDate db = (db, inr res) /\
    ((total_spending res < Double.pow2 1024)%Q ->
     forall g, In g (categories res) ->
       (0 < total_amount (stats g) <= total_spending res)%Q /\
       exists s h,
         percentage g = JStr s /\
         read_hundredths s = Some h /\
         0 <= h <= 10000).
Proof.
  intros Hs He Hok.
  eexists. split; [apply getSpendingByCategory_valid_run; assumption|].
  cbv zeta. cbn [categories total_spending].
  destruct (breakdown_total startDate endDate db Hok) as (_ & Hle & _).
  cbv zeta in Hle.
  set (sorted := order_by total_desc
                   (map stats_of_group
                      (sql_group_by category
                         (filter (in_period startDate endDate) (rows db))))) in *.
  set (total := fold_left
                  (fun sum cat =>
                     Double.add sum (or_zero (Some (total_amount cat))))
                  sorted 0%Q) in *.
  intros _ g Hg. apply in_map_iff in Hg as (cat & <- & Hcat).
  cbn [stats percentage].
  destruct (breakdown_group_sum startDate endDate db cat Hok Hcat)
    as ([Hpos _] & _).
  pose proof (Hle cat Hcat) as Hcl.
  split; [split; assumption|].
  assert (Htpos : (0 < total)%Q) by lra.
  rewrite (Qlt_bool_true _ _ Htpos).
  destruct (DoubleFacts.percentage_bounds _ _ Hpos Hcl) as [Hp _].
  destruct (toFixed2_percentage _ Hp) as (Hh & Hr & _).
  eexists. eexists. split; [reflexivity|]. split; [exact Hr | exact Hh].
Qed.

(** ** How the writing tools compose *)

(** X14. Adding a row and deleting it at once gives back the rows the
    table had, and the delete returns the row that the add returned;
    the counter is not taken back, so the next row gets the following
    key. *)
Theorem add_then_delete_restores_rows
        (now : string) (a c d dt : jsval) (db : Db) :
  wf db ->
  valid_add a c d dt ->
  exists db1 r db2,
    addExpense now a c d dt db = (db1, inr (added r)) /\
    deleteExpense (id r) db1
    = (db2, inr {| delete_message := "Expense deleted successfully";
                   deleted_expense := ROne r |}) /\
    rows db2 = rows db /\
    seq db < seq db2 /\
    seq db2 = id r /\
    next_rowid db2 = id r + 1.
Proof.
  intros Hwf Hvalid.
  destruct (addExpense_cases now a c d dt db)
    as [(Hnot & _)|(_ & q & sc & sd & sdt & _ & _ & _ & _ & E)];
    [contradiction|].
  cbv zeta in E.
  set (r := mkExpense (next_rowid db) q (toLowerCase sc) (trim sd) sdt now) in *.
  set (db1 := {| rows := rows db ++ [r]; seq := id r |}) in *.
  destruct (next_rowid_fresh db) as [Hlt Hall].
  destruct (wf_insert db r Hwf eq_refl) as [ND1 _]. fold db1 in ND1.
  assert (Hin : In r (rows db1)) by (apply in_or_app; right; left; reflexivity).
  assert (Hhas : has_id (id r) db1 = true).
  { apply has_id_In. unfold ids. apply in_map. exact Hin. }
  assert (Hnotin : ~ In (id r) (map id (rows db))).
  { intros H. rewrite Forall_forall in Hall. specialize (Hall _ H).
    cbn [id r] in Hall. lia. }
  assert (Hrows : filter (fun x => negb (id x =? id r)) (rows db1) = rows db).
  { cbn [rows db1]. rewrite filter_app, (delete_by_id_absent _ _ Hnotin).
    cbn [filter]. rewrite Z.eqb_refl. cbn [negb]. apply app_nil_r. }
  exists db1, r, (deleted_db (id r) db1).
  split; [exact E|]. split.
  { rewrite deleteExpense_outcome, Hhas.
    rewrite (select_by_id_present _ r ND1 Hin). reflexivity. }
  unfold deleted_db. cbn [rows seq]. rewrite Hrows.
  split; [reflexivity|]. split; [cbn [db1 seq id r]; lia|].
  split; [reflexivity|].
  unfold next_rowid. cbn [rows seq db1 id r].
  fold (next_rowid db). unfold next_rowid. lia.
Qed.

Lemma deleted_db_ids (i : Z) (db : Db) : ~ In i (ids (deleted_db i db)).
Proof.
  unfold ids, deleted_db. cbn [rows]. intros H.
  apply in_map_iff in H as (r & E & Hr). apply filter_In in Hr as [_ Hr].
  apply negb_true_iff, Z.eqb_neq in Hr. contradiction.
Qed.

Lemma has_id_false (i : Z) (db : Db) : ~ In i (ids db) -> has_id i db = false.
Proof.
  intros H. destruct (has_id i db) eqn:E; [|reflexivity].
  apply has_id_In in E. contradiction.
Qed.

(** X15. After a successful delete the key is gone: a second delete
    and any update of that key fail with the not-found error, and the
    rows with other keys are the ones the table had. *)
Theorem delete_then_not_found (i : Z) (db : Db) :
  In i (ids db) ->
  exists db1 u,
    deleteExpense i db = (db1, inr u) /\
    ~ In i (ids db1) /\
    deleteExpense i db1 = (db1, inl (Error (not_found_message i))) /\
    (forall a c d dt,
       updateExpense i a c d dt db1
       = (db1, inl (Error (not_found_message i)))) /\
    (forall r, id r <> i -> (In r (rows db1) <-> In r (rows db))).
Proof.
  intros Hin. apply has_id_In in Hin.
  eexists (deleted_db i db), _.
  split; [rewrite deleteExpense_outcome, Hin; reflexivity|].
  pose proof (deleted_db_ids i db) as Hgone.
  split; [exact Hgone|]. split; [|split].
  - rewrite deleteExpense_outcome, (has_id_false _ _ Hgone). reflexivity.
  - intros a c d dt. destruct (updateExpense_plan i a c d dt) as (plan & _ & E).
    rewrite E, (has_id_false _ _ Hgone). reflexivity.
  - intros r Hr. unfold deleted_db. cbn [rows]. rewrite filter_In.
    split; [tauto|]. intros H. split; [exact H|].
    apply negb_true_iff, Z.eqb_neq. exact Hr.
Qed.

Lemma last_set_shape {T} (pick : assignment -> option T) (us : list assignment) :
  (forall x, last_set pick us x = x) \/ (exists k, forall x, last_set pick us x = k).
Proof.
  unfold last_set. induction us as [|u us IH]; cbn [fold_left].
  - left. reflexivity.
  - destruct IH as [IH|[k IH]].
    + destruct (pick u) as [v|]; [right; exists v | left]; intros x; apply IH.
    + right. exists k. intros x. apply IH.
Qed.

Lemma last_set_idempotent {T} (pick : assignment -> option T)
      (us : list assignment) (x : T) :
  last_set pick us (last_set pick us x) = last_set pick us x.
Proof.
  destruct (last_set_shape pick us) as [H|[k H]]; rewrite !H; reflexivity.
Qed.

Lemma assign_all_last_set (us : list assignment) (r : expense) :
  assign_all us r
  = mkExpense (id r)
      (last_set pick_amount us (amount r))
      (last_set pick_category us (category r))
      (last_set pick_description us (description r))
      (last_set pick_date us (date r))
      (created_at r).
Proof.
  unfold assign_all, last_set. revert r.
  induction us as [|u us IH]; intros r; cbn [fold_left].
  - destruct r; reflexivity.
  - rewrite IH. destruct u; reflexivity.
Qed.

Lemma assign_all_idempotent (us : list assignment) (r : expense) :
  assign_all us (assign_all us r) = assign_all us r.
Proof.
  rewrite (assign_all_last_set us (assign_all us r)).
  rewrite (assign_all_last_set us r).
  cbn [id amount category description date created_at].
  rewrite !last_set_idempotent. reflexivity.
Qed.

Lemma updated_db_idempotent (us : list assignment) (i : Z) (db : Db) :
  updated_db us i (updated_db us i db) = updated_db us i db.
Proof.
  unfold updated_db. cbn [rows seq]. f_equal.
  rewrite map_map. apply map_ext. intros r.
  destruct (id r =? i) eqn:E; [|rewrite E; reflexivity].
  rewrite id_assign_all, E. apply assign_all_idempotent.
Qed.

Lemma has_id_updated_db (us : list assignment) (i j : Z) (db : Db) :
  has_id j (updated_db us i db) = has_id j db.
Proof.
  unfold has_id, updated_db. cbn [rows].
  induction (rows db) as [|r l IH]; [reflexivity|].
  cbn [map existsb]. rewrite IH. f_equal.
  destruct (id r =? i); [rewrite id_assign_all|]; reflexivity.
Qed.

(** X16. An update that has succeeded can be repeated without effect:
    the same request on the resulting table succeeds again, leaves the
    table as it is and returns the same answer. *)
Theorem updateExpense_idempotent
        (i : Z) (a c d dt : jsval) (db db1 : Db) (u : update_result) :
  updateExpense i a c d dt db = (db1, inr u) ->
  updateExpense i a c d dt db1 = (db1, inr u).
Proof.
  destruct (updateExpense_plan i a c d dt) as (plan & _ & E).
  rewrite !E. destruct (has_id i db) eqn:Hid; [|discriminate].
  destruct plan as [e|us]; [discriminate|].
  intros H. injection H as <- <-.
  rewrite has_id_updated_db, Hid.
  unfold update_answer. rewrite !updated_db_idempotent. reflexivity.
Qed.

(** ** Where the keys of the table come from *)

Lemma handle_ids (now : string) (req : request) (db : Db) :
  incl (ids (fst (handle now req db)))
       (ids db ++ added_id (snd (handle now req db))).
Proof.
  unfold handle.
  destruct req as [a c d dt|s e c l|s e|y m|i a c d dt|i]; cbn [run_tool].
  - destruct (addExpense_cases now a c d dt db)
      as [(_ & e & E)|(_ & q & sc & sd & sdt & _ & _ & _ & _ & E)].
    + rewrite (bind_err _ _ _ _ _ E). cbn [fst]. apply incl_appl, incl_refl.
    + cbv zeta in E. rewrite (bind_ok _ _ _ _ _ E).
      cbn [ret fst snd added_id added new_expense id].
      unfold ids. cbn [rows]. rewrite map_app. apply incl_refl.
  - pose proof (readonly_getExpenses s e c l db) as R. unfold bind.
    destruct (getExpenses s e c l db) as [db1 [e1|r]]; cbn [fst] in *;
      subst db1; apply incl_appl, incl_refl.
  - pose proof (readonly_getSpendingByCategory s e db) as R. unfold bind.
    destruct (getSpendingByCategory s e db) as [db1 [e1|r]]; cbn [fst] in *;
      subst db1; apply incl_appl, incl_refl.
  - pose proof (readonly_getMonthlySummary y m db) as R. unfold bind.
    destruct (Monthly.getMonthlySummary y m db) as [db1 [e1|r]]; cbn [fst] in *;
      subst db1; apply incl_appl, incl_refl.
  - destruct (updateExpense_plan i a c d dt) as (plan & _ & E).
    unfold bind. rewrite E.
    destruct (has_id i db); [destruct plan as [e1|us]|]; cbn [fst ret];
      try (apply incl_appl, incl_refl).
    unfold ids, updated_db. cbn [rows]. rewrite map_id_update.
    apply incl_appl, incl_refl.
  - unfold bind. rewrite deleteExpense_outcome.
    destruct (has_id i db); cbn [fst ret]; [|apply incl_appl, incl_refl].
    apply incl_appl. unfold ids, deleted_db. cbn [rows].
    intros x Hx. apply in_map_iff in Hx as (r & <- & Hr).
    apply filter_In in Hr as [Hr _]. apply in_map. exact Hr.
Qed.

(** X17. Keys enter the table only through [add_expense]: after any
    session every key in the table was in the table before or is the
    key some add of the session has answered with.  No tool changes a
    key, and none brings a deleted key back. *)
Theorem keys_come_from_adds (reqs : list (string * request)) (db : Db) :
  incl (ids (fst (serve reqs db)))
       (ids db ++ assigned_ids (snd (serve reqs db))).
Proof.
  revert db. induction reqs as [|[now req] rest IH]; intros db.
  - cbn. rewrite app_nil_r. apply incl_refl.
  - rewrite serve_cons. cbn [fst snd assigned_ids flat_map].
    fold (assigned_ids (snd (serve rest (fst (handle now req db))))).
    intros x Hx. apply IH in Hx. apply in_app_or in Hx as [Hx|Hx].
    + apply handle_ids in Hx. apply in_app_or in Hx as [Hx|Hx].
      * apply in_or_app. left. exact Hx.
      * apply in_or_app. right. apply in_or_app. left. exact Hx.
    + apply in_or_app. right. apply in_or_app. right. exact Hx.
Qed.

(** ** Categories are compared without regard to case *)

Lemma toLowerCase_empty (c1 c2 : string) :
  toLowerCase c1 = toLowerCase c2 ->
  String.eqb c1 "" = String.eqb c2 "".
Proof.
  destruct c1, c2; cbn [toLowerCase]; intros H;
    try discriminate H; reflexivity.
Qed.

(** X18. Two category arguments that differ only in the case of their
    letters are the same argument to every tool that takes one: adding,
    listing and updating give the same table and the same answer. *)
Theorem category_case_is_ignored (c1 c2 : string) :
  toLowerCase c1 = toLowerCase c2 ->
  (forall now a d dt db,
     addExpense now a (JStr c1) d dt db = addExpense now a (JStr c2) d dt db) /\
  (forall s e limit db,
     getExpenses s e (JStr c1) limit db = getExpenses s e (JStr c2) limit db) /\
  (forall i a d dt db,
     updateExpense i a (JStr c1) d dt db = updateExpense i a (JStr c2) d dt db).
Proof.
  intros H. split; [|split].
  - intros now a d dt db. unfold addExpense.
    cbn [isValidCategory method_toLowerCase]. rewrite H. reflexivity.
  - intros s e limit db. unfold getExpenses, category_filter.
    cbn [default_null truthy isValidCategory method_toLowerCase].
    rewrite H, (toLowerCase_empty _ _ H). reflexivity.
  - intros i a d dt db. unfold updateExpense, category_assignment.
    cbn [default_null is_null isValidCategory method_toLowerCase].
    rewrite H. reflexivity.
Qed.


(** ** The order of dates as text *)

Lemma ascii_compare_digit (a b : Z) :
  0 <= a <= 9 -> 0 <= b <= 9 ->
  Ascii.compare (DateSpec.digit_char a) (DateSpec.digit_char b) = (a ?= b).
Proof.
  intros Ha Hb. unfold Ascii.compare, DateSpec.digit_char.
  rewrite !N_ascii_embedding by lia.
  rewrite Z2N.inj_compare by lia.
  apply Z.add_compare_mono_l.
Qed.

Ltac order_leaf :=
  cbv iota;
  split;
  [ intros Hx; try discriminate Hx; unfold not_after; lia
  | intros Hx; try reflexivity; exfalso; unfold not_after in Hx; lia ].

Ltac order_step a b :=
  destruct (Z.compare_spec a b); cbv iota; [subst | order_leaf | order_leaf].

Lemma digits_order (a1 a2 a3 a4 a5 a6 a7 a8 b1 b2 b3 b4 b5 b6 b7 b8 : Z) :
  Forall (fun k => 0 <= k <= 9)
    [a1; a2; a3; a4; a5; a6; a7; a8; b1; b2; b3; b4; b5; b6; b7; b8] ->
  String.leb
    (string_of_list_ascii
       [DateSpec.digit_char a1; DateSpec.digit_char a2; DateSpec.digit_char a3;
        DateSpec.digit_char a4; "-"%char; DateSpec.digit_char a5;
        DateSpec.digit_char a6; "-"%char; DateSpec.digit_char a7;
        DateSpec.digit_char a8])
    (string_of_list_ascii
       [DateSpec.digit_char b1; DateSpec.digit_char b2; DateSpec.digit_char b3;
        DateSpec.digit_char b4; "-"%char; DateSpec.digit_char b5;
        DateSpec.digit_char b6; "-"%char; DateSpec.digit_char b7;
        DateSpec.digit_char b8]) = true
  <-> not_after (1000 * a1 + 100 * a2 + 10 * a3 + a4) (10 * a5 + a6) (10 * a7 + a8)
                (1000 * b1 + 100 * b2 + 10 * b3 + b4) (10 * b5 + b6) (10 * b7 + b8).
Proof.
  intros HF.
  repeat match goal with
         | H : Forall _ (_ :: _) |- _ =>
             apply Forall_cons_iff in H; destruct H as [? H]
         end.
  clear HF.
  unfold String.leb. cbn [string_of_list_ascii String.compare].
  rewrite !ascii_compare_digit by assumption.
  change (Ascii.compare "-" "-") with Eq.
  order_step a1 b1. order_step a2 b2. order_step a3 b3. order_step a4 b4.
  order_step a5 b5. order_step a6 b6. order_step a7 b7. order_step a8 b8.
  order_leaf.
Qed.

Lemma canonical_order (y1 m1 d1 y2 m2 d2 : Z) :
  0 <= y1 <= 9999 -> 0 <= m1 <= 99 -> 0 <= d1 <= 99 ->
  0 <= y2 <= 9999 -> 0 <= m2 <= 99 -> 0 <= d2 <= 99 ->
  String.leb (DateSpec.canonical_form y1 m1 d1) (DateSpec.canonical_form y2 m2 d2)
  = true
  <-> not_after y1 m1 d1 y2 m2 d2.
Proof.
  intros Hy1 Hm1 Hd1 Hy2 Hm2 Hd2. unfold DateSpec.canonical_form.
  rewrite digits_order.
  - replace (1000 * (y1 / 1000) + 100 * ((y1 / 100) mod 10)
             + 10 * ((y1 / 10) mod 10) + y1 mod 10) with y1
      by (Z.div_mod_to_equations; lia).
    replace (1000 * (y2 / 1000) + 100 * ((y2 / 100) mod 10)
             + 10 * ((y2 / 10) mod 10) + y2 mod 10) with y2
      by (Z.div_mod_to_equations; lia).
    replace (10 * (m1 / 10) + m1 mod 10) with m1 by (Z.div_mod_to_equations; lia).
    replace (10 * (m2 / 10) + m2 mod 10) with m2 by (Z.div_mod_to_equations; lia).
    replace (10 * (d1 / 10) + d1 mod 10) with d1 by (Z.div_mod_to_equations; lia).
    replace (10 * (d2 / 10) + d2 mod 10) with d2 by (Z.div_mod_to_equations; lia).
    reflexivity.
  - repeat (constructor; [Z.div_mod_to_equations; lia|]). constructor.
Qed.

Lemma real_calendar_date_range (y m d : Z) :
  DateSpec.real_calendar_date y m d ->
  0 <= y <= 9999 /\ 0 <= m <= 99 /\ 0 <= d <= 99.
Proof.
  intros (Hy & Hm & Hd). pose proof (days_in_month_bounds y m). lia.
Qed.

(** X20. A listing between two dates is the listing of the calendar:
    with a real start and a real end date as filters and no limit,
    [getExpenses] returns a stored row that carries a real date exactly
    when that day is not before the start and not after the end.  The
    table compares the dates as text, and on dates that [isValidDate]
    accepts the order of the text is the order of the days. *)
Theorem getExpenses_date_range_is_calendar_range
        (db : Db) (ys ms ds ye me de : Z) :
  DateSpec.real_calendar_date ys ms ds ->
  DateSpec.real_calendar_date ye me de ->
  exists res,
    getExpenses (JStr (DateSpec.canonical_form ys ms ds))
                (JStr (DateSpec.canonical_form ye me de))
                JUndefined (Some (-1)) db
    = (db, inr res) /\
    forall r y m d,
      In r (rows db) ->
      DateSpec.real_calendar_date y m d ->
      date r = DateSpec.canonical_form y m d ->
      (In r (expenses res)
       <-> not_after ys ms ds y m d /\ not_after y m d ye me de).
Proof.
  intros Hs He.
  eexists. split.
  { apply getExpenses_valid_run.
    - right; right. cbn [isValidDate]. apply canonical_form_valid. exact Hs.
    - right; right. cbn [isValidDate]. apply canonical_form_valid. exact He.
    - left. reflexivity. }
  cbn [expenses limit_of]. unfold sql_limit. cbn [Z.ltb Z.compare].
  intros r y m d Hin Hr Hd.
  destruct (real_calendar_date_range _ _ _ Hs) as (? & ? & ?).
  destruct (real_calendar_date_range _ _ _ He) as (? & ? & ?).
  destruct (real_calendar_date_range _ _ _ Hr) as (? & ? & ?).
  rewrite <- (canonical_order ys ms ds y m d) by assumption.
  rewrite <- (canonical_order y m d ye me de) by assumption.
  rewrite <- Hd.
  split.
  - intros Hl. apply (Permutation_in _ (order_by_perm _ _)) in Hl.
    apply filter_In in Hl as [_ Hl]. unfold matches_filter in Hl.
    apply andb_true_iff in Hl as [Hl _]. apply andb_true_iff in Hl. exact Hl.
  - intros [Hge Hle].
    apply (Permutation_in _ (Permutation_sym (order_by_perm _ _))).
    apply filter_In. split; [exact Hin|].
    unfold matches_filter. rewrite Hge, Hle. reflexivity.
Qed.

(** ** [parseDateRange] *)

Lemma day_zero_date_month (y m : Z) :
  100 <= y -> 1 <= m <= 12 ->
  Utils.day_zero_date y m = JSDate.days_in_month y m.
Proof.
  intros Hy Hm. unfold Utils.day_zero_date.
  replace ((0 <=? y) && (y <=? 99)) with false
    by (symmetry; apply andb_false_iff; right; lia).
  destruct (Z.eq_dec m 12) as [->|Hne]; [reflexivity|].
  replace (m / 12) with 0 by (Z.div_mod_to_equations; lia).
  replace (m mod 12) with m by (Z.div_mod_to_equations; lia).
  replace (m =? 0) with false by (symmetry; lia).
  rewrite Z.add_0_r. reflexivity.
Qed.

Lemma parseDateRange_digits (y m : Z) :
  0 <= y <= 9999 -> 0 <= m <= 99 ->
  Utils.parseDateRange (JSDate.pad 4 y +++ "-" +++ JSDate.pad 2 m)
  = Some (string_of_Z y +++ "-" +++ JSDate.pad 2 m +++ "-01",
          string_of_Z y +++ "-" +++ JSDate.pad 2 m +++ "-"
            +++ JSDate.pad 2 (Utils.day_zero_date y m)).
Proof.
  intros Hy Hm.
  rewrite pad4_digits, (pad2_digits m) by lia.
  cbn [String.append]. unfold Utils.parseDateRange, Utils.month_regex_test.
  cbn [String.eqb list_ascii_of_string].
  rewrite !is_digit_char by (Z.div_mod_to_equations; lia).
  rewrite !digit_val_char by (Z.div_mod_to_equations; lia).
  cbn [andb Ascii.eqb Bool.eqb].
  replace (1000 * (y / 1000) + 100 * ((y / 100) mod 10)
           + 10 * ((y / 10) mod 10) + y mod 10) with y
    by (Z.div_mod_to_equations; lia).
  replace (10 * (m / 10) + m mod 10) with m by (Z.div_mod_to_equations; lia).
  fold (JSDate.pad 2 m). fold (JSDate.pad 2 (Utils.day_zero_date y m)).
  rewrite (pad2_digits m) by lia. reflexivity.
Qed.

(** X21. [parseDateRange] on the text [YYYY-MM] of a month 1..12 of a
    year 1000..9999 gives the first and the last day of that month,
    two dates that [isValidDate] accepts and in that order; they are the
    bounds [getMonthlySummary] reports as its period. *)
Theorem parseDateRange_month_bounds (y m : Z) :
  1000 <= y <= 9999 -> 1 <= m <= 12 ->
  Utils.parseDateRange (JSDate.pad 4 y +++ "-" +++ JSDate.pad 2 m)
  = Some (first_day y m, last_day y m) /\
  isValidDate (JStr (first_day y m)) = true /\
  isValidDate (JStr (last_day y m)) = true /\
  String.leb (first_day y m) (last_day y m) = true.
Proof.
  intros Hy Hm. pose proof (days_in_month_bounds y m) as Hdim.
  split; [|split; [|split]].
  - rewrite parseDateRange_digits by lia.
    rewrite day_zero_date_month by lia.
    rewrite string_of_year by lia.
    unfold first_day, last_day.
    rewrite <- !iso_date_canonical by lia.
    reflexivity.
  - cbn [isValidDate]. apply canonical_form_valid. repeat split; lia.
  - cbn [isValidDate]. apply canonical_form_valid. repeat split; lia.
  - apply canonical_order; try lia. unfold not_after. lia.
Qed.

Lemma regex_test_length (s : string) :
  JSDate.regex_test s = true -> String.length s = 10%nat.
Proof.
  intros H.
  destruct (regex_test_shape s H)
    as (y1 & y2 & y3 & y4 & m1 & m2 & d1 & d2 & _ & ->).
  reflexivity.
Qed.

Lemma short_year (y : Z) :
  0 <= y < 1000 -> (String.length (string_of_Z y) <= 3)%nat.
Proof.
  intros H. apply Nat.leb_le.
  apply (forallb_range (fun y => (String.length (string_of_Z y) <=? 3)%nat) 1000);
    [vm_compute; reflexivity | lia].
Qed.

(** X22. [parseDateRange] checks the shape of its argument and nothing
    else.  It returns null exactly when the argument is not four
    digits, a hyphen and two digits; for a text of that shape it
    returns a range even when there is no such month or the year has a
    leading zero, and then the start of the range is not a date that
    [isValidDate] accepts. *)
Theorem parseDateRange_checks_shape_only :
  (forall s, Utils.parseDateRange s = None <-> Utils.month_regex_test s = false) /\
  (forall y m,
     0 <= y <= 9999 -> 0 <= m <= 99 ->
     y < 1000 \/ m = 0 \/ 12 < m ->
     exists a b,
       Utils.parseDateRange (JSDate.pad 4 y +++ "-" +++ JSDate.pad 2 m)
       = Some (a, b) /\
       isValidDate (JStr a) = false).
Proof.
  split.
  - intros s. unfold Utils.parseDateRange.
    destruct (String.eqb_spec s "") as [->|_]; [split; reflexivity|].
    unfold Utils.month_regex_test.
    destruct (list_ascii_of_string s)
      as [|y1 [|y2 [|y3 [|y4 [|h [|m1 [|m2 [|x l]]]]]]]];
      try (split; reflexivity).
    destruct (is_digit y1 && is_digit y2 && is_digit y3 && is_digit y4
              && Ascii.eqb h "-" && is_digit m1 && is_digit m2);
      split; intros H; (discriminate H || reflexivity).
  - intros y m Hy Hm Hbad.
    eexists _, _. split; [apply parseDateRange_digits; assumption|].
    cbn [isValidDate].
    destruct (Z_lt_ge_dec y 1000) as [Hshort|Hlong].
    + unfold isValidDateString.
      destruct (JSDate.regex_test _) eqn:E; [|reflexivity].
      apply regex_test_length in E. rewrite !length_append in E.
      pose proof (short_year y ltac:(lia)) as Hlen.
      rewrite (pad2_digits m) in E by lia. cbn [String.length] in E. lia.
    + destruct (isValidDateString _) eqn:E; [|reflexivity]. exfalso.
      apply isValidDateString_sound in E as (_ & y' & m' & d' & Hreal & Hc).
      rewrite string_of_year in Hc by lia.
      change "-01"%string with ("-" +++ JSDate.pad 2 1) in Hc.
      change (JSDate.pad 4 y +++ "-" +++ JSDate.pad 2 m +++ "-" +++ JSDate.pad 2 1)
        with (JSDate.iso_date y m 1) in Hc.
      rewrite iso_date_canonical in Hc by lia.
      destruct (real_calendar_date_range _ _ _ Hreal) as (? & ? & ?).
      apply canonical_form_inj in Hc; try lia.
      destruct Hreal as (_ & Hm' & _). lia.
Qed.

(* ================================================================== *)
(** * The further properties at work on the small table *)
(* ================================================================== *)

Lemma rows_ok_sample_db : rows_ok sample_db.
Proof.
  unfold rows_ok, sample_db. cbn [rows].
  repeat (constructor;
          [unfold row_ok; cbn [amount category description date];
           split; [reflexivity|];
           split; [cbn; tauto|];
           split; [discriminate|];
           split; reflexivity|]).
  constructor.
Qed.

Lemma real_2024_11_03 : DateSpec.real_calendar_date 2024 11 3.
Proof. unfold DateSpec.real_calendar_date. cbn. lia. Qed.

Lemma real_2024_11_04 : DateSpec.real_calendar_date 2024 11 4.
Proof. unfold DateSpec.real_calendar_date. cbn. lia. Qed.

Lemma failure_changes_nothing_witness :
  handle "2024-11-05 09:00:00" (delete_expense 7) sample_db
  = (fst (handle "2024-11-05 09:00:00" (delete_expense 7) sample_db),
     Failure "Expense with ID 7 not found") /\
  fst (handle "2024-11-05 09:00:00" (delete_expense 7) sample_db) = sample_db.
Proof.
  assert (H : handle "2024-11-05 09:00:00" (delete_expense 7) sample_db
              = (fst (handle "2024-11-05 09:00:00" (delete_expense 7) sample_db),
                 Failure "Expense with ID 7 not found")) by reflexivity.
  split; [exact H|].
  exact (failure_changes_nothing _ _ _ _ _ H).
Defined.

Lemma stored_rows_stay_valid_witness :
  rows_ok sample_db /\
  In (mkExpense 4 5 "food" "tea" "2024-11-05" "2024-11-05 09:00:00")
     (rows (fst (serve [("2024-11-05 09:00:00"%string,
                         add_expense (JNum (Fin 5)) (JStr "Food")
                           (JStr " tea ") (JStr "2024-11-05"));
                        ("2024-11-05 09:01:00"%string, delete_expense 1)]
                   sample_db))) /\
  row_ok (mkExpense 4 5 "food" "tea" "2024-11-05" "2024-11-05 09:00:00").
Proof.
  assert (Hin : In (mkExpense 4 5 "food" "tea" "2024-11-05" "2024-11-05 09:00:00")
                  (rows (fst (serve [("2024-11-05 09:00:00"%string,
                                      add_expense (JNum (Fin 5)) (JStr "Food")
                                        (JStr " tea ") (JStr "2024-11-05"));
                                     ("2024-11-05 09:01:00"%string, delete_expense 1)]
                                sample_db)))).
  { vm_compute. right. right. left. reflexivity. }
  split; [exact rows_ok_sample_db|]. split; [exact Hin|].
  exact (proj1 (stored_rows_stay_valid _ sample_db rows_ok_sample_db _ Hin)).
Defined.


Lemma getExpenses_listing_is_sound_witness :
  getExpenses JUndefined JUndefined JUndefined None sample_db
  = (sample_db, inr sample_listing) /\
  StronglySorted newest_first (expenses sample_listing) /\
  incl (expenses sample_listing) (rows sample_db).
Proof.
  assert (H : getExpenses JUndefined JUndefined JUndefined None sample_db
              = (sample_db, inr sample_listing)) by reflexivity.
  split; [exact H|].
  destruct (getExpenses_listing_is_sound _ _ _ _ _ _ _ H)
    as (_ & _ & Hincl & Hsorted & _).
  split; [exact Hsorted | exact Hincl].
Defined.

Lemma getExpenses_edge_cases_witness :
  valid_date_filter (JStr "2024-11-04") /\
  valid_date_filter (JStr "2024-11-03") /\
  valid_category_filter JUndefined /\
  getExpenses (JStr "2024-11-04") (JStr "2024-11-03") JUndefined None sample_db
  = (sample_db, inr {| count := 0; expenses := [] |}).
Proof.
  assert (H1 : valid_date_filter (JStr "2024-11-04"))
    by (right; right; reflexivity).
  assert (H2 : valid_date_filter (JStr "2024-11-03"))
    by (right; right; reflexivity).
  assert (H3 : valid_category_filter JUndefined) by (left; reflexivity).
  repeat (split; [assumption|]).
  exact (proj2 (proj2 (getExpenses_edge_cases sample_db _ _ _ H1 H2 H3))
           "2024-11-04"%string "2024-11-03"%string None eq_refl eq_refl eq_refl).
Defined.

Lemma getMonthlySummary_figures_agree_witness :
  2000 <= 2024 <= 2100 /\
  1 <= 11 <= 12 /\
  amounts_ok sample_db /\
  exists res,
    Monthly.getMonthlySummary (inject_Z 2024) (inject_Z 11) sample_db
    = (sample_db, inr res) /\
    Monthly.total_transactions (Monthly.summary_of res) = 3 /\
    Monthly.total_spending (Monthly.summary_of res) = 60%Q /\
    Monthly.average_transaction (Monthly.summary_of res) = 20%Q /\
    map Monthly.gt_total (Monthly.daily_spending res) = [30%Q; 30%Q] /\
    Zsum (map Monthly.gt_count (Monthly.daily_spending res))
    = Monthly.total_transactions (Monthly.summary_of res) /\
    within (length (month_rows sample_db 2024 11))
      (Qsum (map amount (month_rows sample_db 2024 11)))
      (Monthly.total_spending (Monthly.summary_of res)).
Proof.
  assert (H1 : 2000 <= 2024 <= 2100) by lia.
  assert (H2 : 1 <= 11 <= 12) by lia.
  split; [exact H1|]. split; [exact H2|].
  split; [exact amounts_ok_sample_db|].
  destruct (getMonthlySummary_figures_agree sample_db 2024 11 H1 H2)
    as (res & Hrun & Hcount & _ & Hdays & _ & _ & _ & _ & Hsums).
  exists res.
  assert (E : fst (Monthly.getMonthlySummary (inject_Z 2024) (inject_Z 11)
                     sample_db) = sample_db /\
              option_map Monthly.summary_of
                (match snd (Monthly.getMonthlySummary (inject_Z 2024)
                              (inject_Z 11) sample_db) with
                 | inr r => Some r
                 | inl _ => None
                 end)
              = Some {| Monthly.total_transactions := 3;
                        Monthly.total_spending := 60;
                        Monthly.average_transaction := 20 |} /\
              option_map (fun r => map Monthly.gt_total (Monthly.daily_spending r))
                (match snd (Monthly.getMonthlySummary (inject_Z 2024)
                              (inject_Z 11) sample_db) with
                 | inr r => Some r
                 | inl _ => None
                 end)
              = Some [30%Q; 30%Q])
    by (vm_compute; repeat split).
  rewrite Hrun in E. cbn [fst snd option_map] in E.
  destruct E as (_ & Es & Ed).
  injection Es as Es. injection Ed as Ed.
  assert (Hno : (Monthly.total_spending (Monthly.summary_of res)
                 < Double.pow2 1024)%Q) by (rewrite Es; reflexivity).
  split; [exact Hrun|].
  split; [rewrite Es; reflexivity|].
  split; [rewrite Es; reflexivity|].
  split; [rewrite Es; reflexivity|].
  split; [exact Ed|].
  split; [exact Hdays|].
  exact (proj1 (Hsums amounts_ok_sample_db Hno)).
Defined.

Lemma getSpendingByCategory_statistics_witness :
  valid_date_filter (JStr "2024-11-03") /\
  valid_date_filter JUndefined /\
  exists res,
    getSpendingByCategory (JStr "2024-11-03") JUndefined sample_db
    = (sample_db, inr res) /\
    NoDup (map (fun g => cs_category (stats g)) (categories res)) /\
    Zsum (map (fun g => transaction_count (stats g)) (categories res))
    = Z.of_nat (length (filter (in_period (JStr "2024-11-03") JUndefined)
                          (rows sample_db))).
Proof.
  assert (H1 : valid_date_filter (JStr "2024-11-03"))
    by (right; right; reflexivity).
  assert (H2 : valid_date_filter JUndefined) by (left; reflexivity).
  split; [exact H1|]. split; [exact H2|].
  destruct (getSpendingByCategory_statistics sample_db _ _ H1 H2)
    as (res & Hrun & Hkeys & _ & _ & Hcount).
  exists res. split; [exact Hrun|]. split; [exact Hkeys | exact Hcount].
Defined.

Lemma getSpendingByCategory_percentage_range_witness :
  valid_date_filter JUndefined /\
  valid_date_filter JNull /\
  amounts_ok sample_db /\
  exists res,
    getSpendingByCategory JUndefined JNull sample_db = (sample_db, inr res) /\
    (total_spending res < Double.pow2 1024)%Q /\
    map percentage (categories res) = [JStr "50.00"; JStr "50.00"] /\
    forall g, In g (categories res) ->
      exists s h,
        percentage g = JStr s /\ read_hundredths s = Some h /\ 0 <= h <= 10000.
Proof.
  assert (H1 : valid_date_filter JUndefined) by (left; reflexivity).
  assert (H2 : valid_date_filter JNull) by (right; left; reflexivity).
  split; [exact H1|]. split; [exact H2|].
  split; [exact amounts_ok_sample_db|].
  destruct (getSpendingByCategory_percentage_range sample_db _ _ H1 H2
              amounts_ok_sample_db) as (res & Hrun & Hall).
  exists res.
  assert (E : option_map
                (fun r => (total_spending r, map percentage (categories r)))
                (match snd (getSpendingByCategory JUndefined JNull sample_db) with
                 | inr r => Some r
                 | inl _ => None
                 end)
              = Some (60%Q, [JStr "50.00"; JStr "50.00"]))
    by (vm_compute; reflexivity).
  rewrite Hrun in E. cbn [snd option_map] in E. injection E as Et Ep.
  assert (Hno : (total_spending res < Double.pow2 1024)%Q)
    by (rewrite Et; reflexivity).
  split; [exact Hrun|]. split; [exact Hno|]. split; [exact Ep|].
  intros g Hg. exact (proj2 (Hall Hno g Hg)).
Defined.

Lemma add_then_delete_restores_rows_witness :
  wf sample_db /\
  valid_add (JNum (Fin 25)) (JStr "Food") (JStr "  coffee ") (JStr "2024-11-05") /\
  exists db1 r db2,
    addExpense "2024-11-05 09:00:00" (JNum (Fin 25)) (JStr "Food")
      (JStr "  coffee ") (JStr "2024-11-05") sample_db
    = (db1, inr (added r)) /\
    fst (deleteExpense (id r) db1) = db2 /\
    rows db2 = rows sample_db /\
    seq sample_db < seq db2.
Proof.
  split; [exact wf_sample_db|]. split; [exact valid_add_sample|].
  destruct (add_then_delete_restores_rows "2024-11-05 09:00:00" (JNum (Fin 25))
              (JStr "Food") (JStr "  coffee ") (JStr "2024-11-05") sample_db
              wf_sample_db valid_add_sample)
    as (db1 & r & db2 & Hadd & Hdel & Hrows & Hseq & _).
  exists db1, r, db2. split; [exact Hadd|].
  split; [rewrite Hdel; reflexivity|]. split; [exact Hrows | exact Hseq].
Defined.

Lemma delete_then_not_found_witness :
  In 2 (ids sample_db) /\
  exists db1 u,
    deleteExpense 2 sample_db = (db1, inr u) /\
    deleteExpense 2 db1 = (db1, inl (Error (not_found_message 2))).
Proof.
  assert (H : In 2 (ids sample_db)) by (right; left; reflexivity).
  split; [exact H|].
  destruct (delete_then_not_found 2 sample_db H)
    as (db1 & u & Hrun & _ & Hagain & _).
  exists db1, u. split; [exact Hrun | exact Hagain].
Defined.

Lemma updateExpense_idempotent_witness :
  updateExpense 1 (JNum (Fin 12)) JUndefined (JStr " brunch ") JUndefined sample_db
  = (updated_db [SetAmount 12; SetDescription "brunch"] 1 sample_db,
     inr (update_answer [SetAmount 12; SetDescription "brunch"] 1 sample_db)) /\
  updateExpense 1 (JNum (Fin 12)) JUndefined (JStr " brunch ") JUndefined
    (updated_db [SetAmount 12; SetDescription "brunch"] 1 sample_db)
  = (updated_db [SetAmount 12; SetDescription "brunch"] 1 sample_db,
     inr (update_answer [SetAmount 12; SetDescription "brunch"] 1 sample_db)).
Proof.
  assert (H : updateExpense 1 (JNum (Fin 12)) JUndefined (JStr " brunch ")
                JUndefined sample_db
              = (updated_db [SetAmount 12; SetDescription "brunch"] 1 sample_db,
                 inr (update_answer [SetAmount 12; SetDescription "brunch"] 1
                        sample_db))) by reflexivity.
  split; [exact H|].
  exact (updateExpense_idempotent _ _ _ _ _ _ _ _ H).
Defined.

Lemma category_case_is_ignored_witness :
  toLowerCase "Food" = toLowerCase "FOOD" /\
  getExpenses JUndefined JUndefined (JStr "Food") None sample_db
  = getExpenses JUndefined JUndefined (JStr "FOOD") None sample_db.
Proof.
  assert (H : toLowerCase "Food" = toLowerCase "FOOD") by reflexivity.
  split; [exact H|].
  exact (proj1 (proj2 (category_case_is_ignored "Food" "FOOD" H))
           JUndefined JUndefined None sample_db).
Defined.

Lemma getExpenses_date_range_is_calendar_range_witness :
  DateSpec.real_calendar_date 2024 11 3 /\
  DateSpec.real_calendar_date 2024 11 4 /\
  exists res,
    getExpenses (JStr "2024-11-03") (JStr "2024-11-04") JUndefined (Some (-1))
      sample_db
    = (sample_db, inr res) /\
    In (mkExpense 3 30 "transport" "bus" "2024-11-04" "2024-11-04 08:00:00")
       (expenses res).
Proof.
  split; [exact real_2024_11_03|]. split; [exact real_2024_11_04|].
  destruct (getExpenses_date_range_is_calendar_range sample_db 2024 11 3 2024 11 4
              real_2024_11_03 real_2024_11_04) as (res & Hrun & Hiff).
  exists res. split; [exact Hrun|].
  apply (Hiff _ 2024 11 4).
  - right. right. left. reflexivity.
  - exact real_2024_11_04.
  - reflexivity.
  - unfold not_after. lia.
Defined.

Lemma parseDateRange_month_bounds_witness :
  1000 <= 2024 <= 9999 /\
  1 <= 2 <= 12 /\
  Utils.parseDateRange "2024-02" = Some ("2024-02-01"%string, "2024-02-29"%string).
Proof.
  assert (H1 : 1000 <= 2024 <= 9999) by lia.
  assert (H2 : 1 <= 2 <= 12) by lia.
  split; [exact H1|]. split; [exact H2|].
  exact (proj1 (parseDateRange_month_bounds 2024 2 H1 H2)).
Defined.
